(** * knowing-mcp: the Markdown editing tools (scripts/markdown-tools.py)

    A shallow embedding of the loader, the structural index, the edit kernel
    and [md_apply], with the properties of the specification stated against
    it.  Python values are modelled as follows:

    - [int] is [Z]; list indices and slices follow Python (negative indices
      count from the end, slices clamp, an index out of range raises);
    - [str] is a list of Unicode code points ([list Z]);
    - [bytes] is [list byte];
    - an exception is an explicit outcome ([None]) of the operation that
      raises it; [md_apply] catches them all;
    - the file system is a finite map from paths to file contents;
    - the libraries the script calls (markdown-it, [re], [yaml], [mdformat],
      [difflib], the Unicode tables behind [\w] and [str.lower]) are the
      fields of a record [Host]. *)

From Stdlib Require Import ZArith List Lia Bool Ascii String.
From Stdlib.Strings Require Import Byte.
From stdpp Require Import base option list gmap strings.

Local Open Scope Z_scope.

(* ===================================================================== *)
(** ** Python strings and sequences *)
(* ===================================================================== *)

Module Py.

(** A Python [str]: a sequence of code points. *)
Abbreviation str := (list Z).

(** A string literal of the model (ASCII text only). *)
Definition lit (s : string) : str :=
  map (fun a => Z.of_N (N_of_ascii a)) (list_ascii_of_string s).

Definition str_eqb (a b : str) : bool := bool_decide (a = b).

(** [len(l)] as a Python int. *)
Definition len {A} (l : list A) : Z := Z.of_nat (length l).

(** A slice bound: an index below zero counts from the end, and the result
    is clamped to [0, len]. *)
Definition norm_bound (n i : Z) : Z :=
  if i <? 0 then Z.max (i + n) 0 else Z.min i n.

(** [l[lo:hi]]; an omitted bound is [None]. *)
Definition slice {A} (lo hi : option Z) (l : list A) : list A :=
  let n := len l in
  let a := match lo with Some i => norm_bound n i | None => 0 end in
  let b := match hi with Some i => norm_bound n i | None => n end in
  take (Z.to_nat (b - a)) (drop (Z.to_nat a) l).

(** [l[i:]], [l[:j]] and [l[i:j]]. *)
Definition slice_from {A} (i : Z) (l : list A) := slice (Some i) None l.
Definition slice_to {A} (j : Z) (l : list A) := slice None (Some j) l.
Definition slice_between {A} (i j : Z) (l : list A) := slice (Some i) (Some j) l.

(** [l[i]]: [None] stands for IndexError. *)
Definition index {A} (l : list A) (i : Z) : option A :=
  let j := if i <? 0 then i + len l else i in
  if (0 <=? j) && (j <? len l) then l !! Z.to_nat j else None.

(** [l[i] = x]: [None] stands for IndexError. *)
Definition setitem {A} (l : list A) (i : Z) (x : A) : option (list A) :=
  let j := if i <? 0 then i + len l else i in
  if (0 <=? j) && (j <? len l) then Some (<[Z.to_nat j := x]> l) else None.

(** [range(a, b)]. *)
Definition range (a b : Z) : list Z :=
  map (fun k => a + Z.of_nat k) (seq 0 (Z.to_nat (b - a))).

(** [s.startswith(p)]. *)
Fixpoint startswith (p s : str) : bool :=
  match p, s with
  | [], _ => true
  | _ :: _, [] => false
  | a :: p', b :: s' => (a =? b) && startswith p' s'
  end.

(** [s.endswith(p)]. *)
Definition endswith (p s : str) : bool := startswith (rev p) (rev s).

(** [p in s] for strings. *)
Fixpoint contains (p s : str) : bool :=
  startswith p s || match s with [] => false | _ :: s' => contains p s' end.

(** [str.isspace] of one character: the code points Python treats as
    white space. *)
Definition is_space (c : Z) : bool :=
  ((9 <=? c) && (c <=? 13)) || ((28 <=? c) && (c <=? 32))
  || (c =? 133) || (c =? 160) || (c =? 5760)
  || ((8192 <=? c) && (c <=? 8202))
  || (c =? 8232) || (c =? 8233) || (c =? 8239) || (c =? 8287) || (c =? 12288).

Fixpoint lstrip (s : str) : str :=
  match s with
  | c :: s' => if is_space c then lstrip s' else s
  | [] => []
  end.

Definition rstrip (s : str) : str := rev (lstrip (rev s)).

(** [s.strip()]. *)
Definition strip (s : str) : str := rstrip (lstrip s).

(** [s.rstrip('\n')]. *)
Fixpoint lstrip_nl (s : str) : str :=
  match s with
  | c :: s' => if c =? 10 then lstrip_nl s' else s
  | [] => []
  end.
Definition rstrip_nl (s : str) : str := rev (lstrip_nl (rev s)).

(** [sep.join(ls)]. *)
Fixpoint join (sep : str) (ls : list str) : str :=
  match ls with
  | [] => []
  | l :: ls' =>
      match ls' with
      | [] => l
      | _ :: _ => l ++ sep ++ join sep ls'
      end
  end.

Definition push_head (c : Z) (ls : list str) : list str :=
  match ls with
  | [] => [[c]]
  | l :: ls' => (c :: l) :: ls'
  end.

(** [s.split('\n')]. *)
Fixpoint split_lf (s : str) : list str :=
  match s with
  | [] => [[]]
  | c :: r => if c =? 10 then [] :: split_lf r else push_head c (split_lf r)
  end.

(** [s.split('\r\n')]. *)
Fixpoint split_crlf (s : str) : list str :=
  match s with
  | [] => [[]]
  | c :: r =>
      match r with
      | d :: r' =>
          if (c =? 13) && (d =? 10) then [] :: split_crlf r'
          else push_head c (split_crlf r)
      | [] => push_head c (split_crlf r)
      end
  end.

(** [str(n)] for an int. *)
Fixpoint digits (fuel : nat) (n : Z) (acc : str) : str :=
  match fuel with
  | O => acc
  | S f =>
      let acc' := (48 + n mod 10) :: acc in
      if n <? 10 then acc' else digits f (n / 10) acc'
  end.

Definition str_of_int (n : Z) : str :=
  if n <? 0 then 45 :: digits (S (Z.to_nat (Z.log2 (- n)))) (- n) []
  else digits (S (Z.to_nat (Z.log2 n))) n [].

End Py.

(* ===================================================================== *)
(** ** Bytes and the codecs of [bytes.decode] / [str.encode] *)
(* ===================================================================== *)

Module Codec.

Definition bytes := list byte.

Definition b2z (b : byte) : Z := Z.of_N (Byte.to_N b).

Definition z2b (z : Z) : byte :=
  match Byte.of_N (Z.to_N z) with
  | Some b => b
  | None => x00
  end.

(** The encodings the loader can record. *)
Inductive Encoding := Utf8 | Utf8Sig | Latin1.

(** The UTF-8 byte order mark, [b'\xef\xbb\xbf']. *)
Definition bom : bytes := [xef; xbb; xbf].

Definition is_cont (x : Z) : bool := (128 <=? x) && (x <? 192).

(** [bs.decode('utf-8')], strict: [None] stands for UnicodeDecodeError.
    Overlong forms, surrogates and code points above U+10FFFF are
    rejected, as CPython does. *)
Fixpoint decode_utf8 (bs : bytes) : option Py.str :=
  match bs with
  | [] => Some []
  | b0 :: r0 =>
      let x0 := b2z b0 in
      if x0 <? 128 then
        match decode_utf8 r0 with Some s => Some (x0 :: s) | None => None end
      else if x0 <? 194 then None
      else if x0 <? 224 then
        match r0 with
        | b1 :: r1 =>
            let x1 := b2z b1 in
            if is_cont x1 then
              match decode_utf8 r1 with
              | Some s => Some (((x0 - 192) * 64 + (x1 - 128)) :: s)
              | None => None
              end
            else None
        | _ => None
        end
      else if x0 <? 240 then
        match r0 with
        | b1 :: b2 :: r2 =>
            let x1 := b2z b1 in
            let x2 := b2z b2 in
            if is_cont x1 && is_cont x2
               && negb ((x0 =? 224) && (x1 <? 160))
               && negb ((x0 =? 237) && (160 <=? x1)) then
              match decode_utf8 r2 with
              | Some s =>
                  Some (((x0 - 224) * 4096 + (x1 - 128) * 64 + (x2 - 128)) :: s)
              | None => None
              end
            else None
        | _ => None
        end
      else if x0 <? 245 then
        match r0 with
        | b1 :: b2 :: b3 :: r3 =>
            let x1 := b2z b1 in
            let x2 := b2z b2 in
            let x3 := b2z b3 in
            if is_cont x1 && is_cont x2 && is_cont x3
               && negb ((x0 =? 240) && (x1 <? 144))
               && negb ((x0 =? 244) && (144 <=? x1)) then
              match decode_utf8 r3 with
              | Some s =>
                  Some (((x0 - 240) * 262144 + (x1 - 128) * 4096
                         + (x2 - 128) * 64 + (x3 - 128)) :: s)
              | None => None
              end
            else None
        | _ => None
        end
      else None
  end.

(** The UTF-8 form of one code point; [None] for a surrogate or a value
    that is no code point. *)
Definition encode_utf8_char (c : Z) : option bytes :=
  if c <? 0 then None
  else if c <? 128 then Some [z2b c]
  else if c <? 2048 then Some [z2b (192 + c / 64); z2b (128 + c mod 64)]
  else if c <? 65536 then
    if (55296 <=? c) && (c <=? 57343) then None
    else Some [z2b (224 + c / 4096); z2b (128 + (c / 64) mod 64);
               z2b (128 + c mod 64)]
  else if c <? 1114112 then
    Some [z2b (240 + c / 262144); z2b (128 + (c / 4096) mod 64);
          z2b (128 + (c / 64) mod 64); z2b (128 + c mod 64)]
  else None.

(** [s.encode('utf-8')]: [None] stands for UnicodeEncodeError. *)
Fixpoint encode_utf8 (s : Py.str) : option bytes :=
  match s with
  | [] => Some []
  | c :: s' =>
      match encode_utf8_char c, encode_utf8 s' with
      | Some bc, Some bs => Some (bc ++ bs)
      | _, _ => None
      end
  end.

(** [bs.decode('latin-1')] never fails. *)
Definition decode_latin1 (bs : bytes) : Py.str := map b2z bs.

(** [s.encode('latin-1')]: [None] stands for UnicodeEncodeError. *)
Fixpoint encode_latin1 (s : Py.str) : option bytes :=
  match s with
  | [] => Some []
  | c :: s' =>
      if (0 <=? c) && (c <? 256) then
        match encode_latin1 s' with
        | Some bs => Some (z2b c :: bs)
        | None => None
        end
      else None
  end.

(** [s.encode(enc)]; the ['utf-8-sig'] codec writes the mark first. *)
Definition encode (enc : Encoding) (s : Py.str) : option bytes :=
  match enc with
  | Utf8 => encode_utf8 s
  | Utf8Sig =>
      match encode_utf8 s with Some bs => Some (bom ++ bs) | None => None end
  | Latin1 => encode_latin1 s
  end.

(** The name Python gives the encoding. *)
Definition encoding_name (enc : Encoding) : Py.str :=
  match enc with
  | Utf8 => Py.lit "utf-8"
  | Utf8Sig => Py.lit "utf-8-sig"
  | Latin1 => Py.lit "latin-1"
  end.

(** [bs.startswith(b'\xef\xbb\xbf')]. *)
Definition starts_with_bom (bs : bytes) : bool :=
  match bs with
  | b0 :: b1 :: b2 :: _ =>
      (b2z b0 =? 239) && (b2z b1 =? 187) && (b2z b2 =? 191)
  | _ => false
  end.

End Codec.

(* ===================================================================== *)
(** ** [hashlib.sha256] *)
(* ===================================================================== *)

Module Sha256.

Definition w32 (x : Z) : Z := x mod 4294967296.

Definition rotr (n x : Z) : Z :=
  Z.lor (Z.shiftr x n) (w32 (Z.shiftl x (32 - n))).

Definition ch (x y z : Z) : Z :=
  Z.lxor (Z.land x y) (Z.land (Z.lxor x 4294967295) z).
Definition maj (x y z : Z) : Z :=
  Z.lxor (Z.lxor (Z.land x y) (Z.land x z)) (Z.land y z).
Definition bsig0 (x : Z) : Z := Z.lxor (Z.lxor (rotr 2 x) (rotr 13 x)) (rotr 22 x).
Definition bsig1 (x : Z) : Z := Z.lxor (Z.lxor (rotr 6 x) (rotr 11 x)) (rotr 25 x).
Definition ssig0 (x : Z) : Z := Z.lxor (Z.lxor (rotr 7 x) (rotr 18 x)) (Z.shiftr x 3).
Definition ssig1 (x : Z) : Z := Z.lxor (Z.lxor (rotr 17 x) (rotr 19 x)) (Z.shiftr x 10).

(** The round constants (the first 32 bits of the fractional parts of the
    cube roots of the first 64 primes), in decimal. *)
Definition round_constants : list Z :=
  [1116352408; 1899447441; 3049323471; 3921009573; 961987163; 1508970993;
   2453635748; 2870763221; 3624381080; 310598401; 607225278; 1426881987;
   1925078388; 2162078206; 2614888103; 3248222580; 3835390401; 4022224774;
   264347078; 604807628; 770255983; 1249150122; 1555081692; 1996064986;
   2554220882; 2821834349; 2952996808; 3210313671; 3336571891; 3584528711;
   113926993; 338241895; 666307205; 773529912; 1294757372; 1396182291;
   1695183700; 1986661051; 2177026350; 2456956037; 2730485921; 2820302411;
   3259730800; 3345764771; 3516065817; 3600352804; 4094571909; 275423344;
   430227734; 506948616; 659060556; 883997877; 958139571; 1322822218;
   1537002063; 1747873779; 1955562222; 2024104815; 2227730452; 2361852424;
   2428436474; 2756734187; 3204031479; 3329325298].

(** The initial hash value (from the square roots of the first 8 primes),
    in decimal. *)
Definition initial_hash : list Z :=
  [1779033703; 3144134277; 1013904242; 2773480762; 1359893119; 2600822924;
   528734635; 1541459225].

(** The message followed by the bit 1, zeros, and its length in bits as a
    64-bit big-endian number: a whole number of 64-byte blocks. *)
Definition big_endian (width : nat) (x : Z) : list Z :=
  map (fun k => (Z.shiftr x (8 * Z.of_nat (width - 1 - k))) mod 256) (seq 0 width).

Definition pad (msg : list Z) : list Z :=
  let n := Z.of_nat (length msg) in
  let zeros := Z.to_nat ((55 - n) mod 64) in
  msg ++ [128] ++ repeat 0 zeros ++ big_endian 8 (8 * n).

Fixpoint words_of (fuel : nat) (bs : list Z) : list Z :=
  match fuel, bs with
  | S f, a :: b :: c :: d :: r =>
      (a * 16777216 + b * 65536 + c * 256 + d) :: words_of f r
  | _, _ => []
  end.

(** The message schedule, most recent word first. *)
Fixpoint schedule (n : nat) (ws : list Z) : list Z :=
  match n with
  | O => ws
  | S n' =>
      let w := w32 (ssig1 (nth 1 ws 0) + nth 6 ws 0
                    + ssig0 (nth 14 ws 0) + nth 15 ws 0) in
      schedule n' (w :: ws)
  end.

Definition step (st : list Z) (kw : Z * Z) : list Z :=
  match st with
  | [a; b; c; d; e; f; g; h] =>
      let t1 := h + bsig1 e + ch e f g + fst kw + snd kw in
      let t2 := bsig0 a + maj a b c in
      [w32 (t1 + t2); a; b; c; w32 (d + t1); e; f; g]
  | _ => st
  end.

Definition compress (h : list Z) (block : list Z) : list Z :=
  let ws := rev (schedule 48 (rev (words_of 16 block))) in
  let st := fold_left step (combine round_constants ws) h in
  map (fun p => w32 (fst p + snd p)) (combine h st).

Fixpoint blocks (fuel : nat) (bs : list Z) : list (list Z) :=
  match fuel with
  | O => []
  | S f =>
      match bs with
      | [] => []
      | _ => take 64 bs :: blocks f (drop 64 bs)
      end
  end.

Definition digest_words (msg : list Z) : list Z :=
  let p := pad msg in
  fold_left compress (blocks (length p) p) initial_hash.

Definition hex_digit (d : Z) : Z := if d <? 10 then 48 + d else 87 + d.

Definition hex_of_word (w : Z) : Py.str :=
  map (fun k => hex_digit ((Z.shiftr w (4 * Z.of_nat (7 - k))) mod 16)) (seq 0 8).

(** [hashlib.sha256(bs).hexdigest()]: 64 lower-case hexadecimal digits. *)
Definition hexdigest (bs : Codec.bytes) : Py.str :=
  concat (map hex_of_word (digest_words (map Codec.b2z bs))).

End Sha256.

(* ===================================================================== *)
(** ** The data model of markdown-tools.py *)
(* ===================================================================== *)

Import Py Codec.

(** [class ErrorCode(Enum)]. *)
Inductive ErrorCode :=
| PRECONDITION_FAILED
| NO_MATCH
| AMBIGUOUS_MATCH
| OUT_OF_RANGE
| MARKDOWN_BROKEN
| MARKDOWN_LINT_ERROR
| IO_ERROR
| ENCODING_ERROR
| CONFLICTING_EDITS
| INVALID_OPERATION
| INVALID_HEADING_PATH
| AMBIGUOUS_HEADING
| SECTION_NOT_FOUND
| FRONT_MATTER_NOT_FOUND
| FORMATTER_FAILED
| INVALID_REGEX.

#[global] Instance ErrorCode_eq_dec : EqDecision ErrorCode.
Proof. solve_decision. Defined.

(** The [code] of a diagnostic: the value of an [ErrorCode], or the
    validator's own ["UNBALANCED_FENCE"]. *)
Inductive DiagCode :=
| Code (e : ErrorCode)
| UNBALANCED_FENCE.

#[global] Instance DiagCode_eq_dec : EqDecision DiagCode.
Proof. solve_decision. Defined.

Inductive Severity := SevError | SevWarning | SevInfo.

Inductive Source := SrcValidator | SrcEditor.

(** [@dataclass Position]. *)
Record Position := mkPosition { pos_line : Z; pos_col : Z }.

(** [@dataclass Diagnostic]. *)
Record Diagnostic := mkDiagnostic {
  severity : Severity;
  code : option DiagCode;
  message : str;
  line : option Z;
  col : option Z;
  source : option Source
}.

(** [@dataclass Section]. *)
Record Section := mkSection {
  heading_path : list str;
  canonical_heading_path : list str;
  section_id : str;
  level : Z;
  start_line : Z;
  end_line : Z;
  heading_line : Z
}.

(** [@dataclass Match]. *)
Record Match := mkMatch {
  m_line : Z;
  m_col : Z;
  m_text : str;
  m_start_pos : Position;
  m_end_pos : Position
}.

(** [@dataclass CodeBlock]. *)
Record CodeBlock := mkCodeBlock {
  cb_start_line : Z;
  cb_end_line : Z;
  info_string : str;
  language : option str
}.

(** [@dataclass TableInfo]. *)
Record TableInfo := mkTableInfo {
  tb_start_line : Z;
  tb_end_line : Z;
  tb_section : option (list str)
}.

(** The markdown-it tokens the indexer looks at.  A [heading_open] token
    carries the level that [int(token.tag[1])] reads off its tag. *)
Inductive Token :=
| HeadingOpen (lvl : Z) (tmap : option (Z * Z))
| Inline (content : str)
| Fence (tmap : option (Z * Z)) (info : str)
| TableOpen (tmap : option (Z * Z))
| OtherToken.

(** [doc.eol]. *)
Inductive Eol := LF | CRLF.

Definition eol_seq (e : Eol) : str :=
  match e with LF => [10] | CRLF => [13; 10] end.

(** What the script imports: the Markdown tokenizer, the Unicode tables
    behind [\w] and [str.lower], the regular expression engine, YAML,
    mdformat and difflib.  A compiled pattern is a value of [regex];
    [re_compile] answers [None] where [re.compile] raises [re.error];
    [re_finditer] gives the spans [(m.start(), m.end())] of the matches
    in a line.  [yaml_safe_load] answers [None] where [yaml.safe_load]
    raises [YAMLError], and [Some None] where it returns Python's [None];
    [yaml_as_dict v] is [dict(v)], [None] where that raises;
    [mdformat_text] answers [None] where [mdformat.text] raises. *)
Record Host := mkHost {
  md_parse : str -> list Token;
  unicode_word : Z -> bool;
  unicode_lower : str -> str;
  regex : Type;
  re_escape : str -> str;
  re_compile : str -> Z -> option regex;
  re_error_text : str -> Z -> str;
  re_finditer : regex -> str -> list (Z * Z);
  yaml_available : bool;
  yaml_value : Type;
  yaml_safe_load : str -> option (option yaml_value);
  yaml_truthy : yaml_value -> bool;
  yaml_as_dict : yaml_value -> option (list (str * yaml_value));
  yaml_dump : list (str * yaml_value) -> str;
  mdformat_available : bool;
  mdformat_text : str -> option str;
  unified_diff : str -> str -> string -> str
}.

(** [re.IGNORECASE], [re.MULTILINE], [re.DOTALL]. *)
Definition re_IGNORECASE : Z := 2.
Definition re_MULTILINE : Z := 8.
Definition re_DOTALL : Z := 16.

(** The file system: the bytes of each file that exists. *)
Abbreviation FileSystem := (gmap string bytes).

(* ===================================================================== *)
(** ** Headings and section identifiers *)
(* ===================================================================== *)

(** [re.sub(r'`([^`]+)`', r'\1', text)], one pass from left to right:
    [inside] holds, reversed, the characters read since a back-tick that
    may open a code span. *)
Fixpoint strip_inline_code (s : str) (inside : option str) : str :=
  match s with
  | [] => match inside with None => [] | Some acc => 96 :: rev acc end
  | c :: r =>
      match inside with
      | None =>
          if c =? 96 then strip_inline_code r (Some [])
          else c :: strip_inline_code r None
      | Some acc =>
          if c =? 96 then
            match acc with
            | [] => 96 :: strip_inline_code r (Some [])
            | _ :: _ => rev acc ++ strip_inline_code r None
            end
          else strip_inline_code r (Some (c :: acc))
      end
  end.

(** [re.sub(r'\s+', ' ', text)]. *)
Fixpoint collapse_whitespace (s : str) (in_run : bool) : str :=
  match s with
  | [] => []
  | c :: r =>
      if is_space c then
        if in_run then collapse_whitespace r true
        else 32 :: collapse_whitespace r true
      else c :: collapse_whitespace r false
  end.

Definition is_emphasis (c : Z) : bool := (c =? 42) || (c =? 95) || (c =? 126).

Section WithHost.

Variable H : Host.

(** [normalize_heading]. *)
Definition normalize_heading (text : str) : str :=
  let text := strip_inline_code text None in
  let text := filter (fun c => negb (is_emphasis c)) text in
  let text := filter (fun c => unicode_word H c || is_space c || (c =? 45)) text in
  let text := collapse_whitespace text false in
  strip (unicode_lower H text).

(** [create_section_id]; [None] where [encode] raises. *)
Definition create_section_id (heading_path : list str) (line : Z) : option str :=
  let path_str := join [47] heading_path in
  let id_input := path_str ++ [58] ++ str_of_int line in
  match encode_utf8 id_input with
  | Some bs => Some (slice_to 16 (Sha256.hexdigest bs))
  | None => None
  end.

(** [convert_to_1_based] and [convert_to_0_based]. *)
Definition convert_to_1_based (line col : Z) : Z * Z := (line + 1, col + 1).
Definition convert_to_0_based (line col : Z) : Z * Z :=
  (Z.max 0 (line - 1), Z.max 0 (col - 1)).

(* ===================================================================== *)
(** ** [class MarkdownDocument] *)
(* ===================================================================== *)

Record Document := mkDocument {
  file_path : string;
  encoding : Encoding;
  eol : Eol;
  content : str;
  lines : list str;
  sha256 : str;
  sections : list Section;
  code_blocks : list CodeBlock;
  tables : list TableInfo;
  front_matter : option (yaml_value H);
  front_matter_lines : option (Z * Z)
}.

(** An entry of [heading_stack]: [(level, text, line)].  The top of the
    stack (the last element of the Python list) is the head. *)
Definition StackEntry : Type := Z * str * Z.

(** The [Section] built when a heading is popped, [rest] being what is
    left of the stack; [None] where [create_section_id] raises. *)
Definition close_heading (rest : list StackEntry) (closing : StackEntry)
    (last : Z) : option Section :=
  let '(closing_level, closing_text, closing_line) := closing in
  let ancestors := rev (map (fun h => snd (fst h)) rest) in
  let path := ancestors ++ [closing_text] in
  match create_section_id path closing_line with
  | Some sid =>
      Some {| heading_path := path;
              canonical_heading_path := map normalize_heading path;
              section_id := sid;
              level := closing_level;
              start_line := closing_line;
              end_line := last;
              heading_line := closing_line |}
  | None => None
  end.

(** [while heading_stack and heading_stack[-1][0] >= level: ...]. *)
Fixpoint close_sections (lvl line : Z) (stack : list StackEntry)
    (secs : list Section) : option (list StackEntry * list Section) :=
  match stack with
  | [] => Some ([], secs)
  | top :: rest =>
      if fst (fst top) >=? lvl then
        match close_heading rest top (line - 1) with
        | Some s => close_sections lvl line rest (secs ++ [s])
        | None => None
        end
      else Some (stack, secs)
  end.

(** [while heading_stack: ...] after the last token. *)
Fixpoint close_remaining (last : Z) (stack : list StackEntry)
    (secs : list Section) : option (list Section) :=
  match stack with
  | [] => Some secs
  | top :: rest =>
      match close_heading rest top last with
      | Some s => close_remaining last rest (secs ++ [s])
      | None => None
      end
  end.

(** [info.split()[0]]: [None] stands for IndexError. *)
Fixpoint take_word (s : str) : str :=
  match s with
  | c :: r => if is_space c then [] else c :: take_word r
  | [] => []
  end.

Definition first_word (s : str) : option str :=
  match lstrip s with
  | [] => None
  | w => Some (take_word w)
  end.

Record ParseState := mkParseState {
  ps_stack : list StackEntry;
  ps_sections : list Section;
  ps_code_blocks : list CodeBlock;
  ps_tables : list TableInfo
}.

(** The section of a table: the first section so far that contains its
    first line. *)
Definition table_section (secs : list Section) (first : Z) : option (list str) :=
  match List.find (fun s => (start_line s <=? first) && (first <=? end_line s)) secs with
  | Some s => Some (heading_path s)
  | None => None
  end.

(** [for i, token in enumerate(tokens): ...]. *)
Fixpoint parse_tokens (toks : list Token) (st : ParseState) : option ParseState :=
  match toks with
  | [] => Some st
  | tok :: rest =>
      match tok with
      | HeadingOpen lvl mp =>
          match rest with
          | Inline text :: _ =>
              let line := match mp with Some (a, _) => a | None => 0 end in
              match close_sections lvl line (ps_stack st) (ps_sections st) with
              | Some (stack', secs') =>
                  parse_tokens rest
                    {| ps_stack := (lvl, text, line) :: stack';
                       ps_sections := secs';
                       ps_code_blocks := ps_code_blocks st;
                       ps_tables := ps_tables st |}
              | None => None
              end
          | _ => parse_tokens rest st
          end
      | Fence mp info =>
          match mp with
          | Some (a, b) =>
              match info with
              | [] =>
                  parse_tokens rest
                    {| ps_stack := ps_stack st;
                       ps_sections := ps_sections st;
                       ps_code_blocks :=
                         ps_code_blocks st ++ [mkCodeBlock a b [] None];
                       ps_tables := ps_tables st |}
              | _ :: _ =>
                  match first_word info with
                  | Some w =>
                      parse_tokens rest
                        {| ps_stack := ps_stack st;
                           ps_sections := ps_sections st;
                           ps_code_blocks :=
                             ps_code_blocks st ++ [mkCodeBlock a b info (Some w)];
                           ps_tables := ps_tables st |}
                  | None => None
                  end
              end
          | None => parse_tokens rest st
          end
      | TableOpen mp =>
          match mp with
          | Some (a, b) =>
              parse_tokens rest
                {| ps_stack := ps_stack st;
                   ps_sections := ps_sections st;
                   ps_code_blocks := ps_code_blocks st;
                   ps_tables :=
                     ps_tables st
                     ++ [mkTableInfo a b (table_section (ps_sections st) a)] |}
          | None => parse_tokens rest st
          end
      | _ => parse_tokens rest st
      end
  end.

(** The closing [---] of the front matter: the first index [i] in
    [range(1, min(len(lines), 50))] with [lines[i].strip() == '---']. *)
Fixpoint find_closing (ls : list str) (i : Z) (fuel : nat) : option Z :=
  match fuel, ls with
  | S f, l :: ls' =>
      if str_eqb (strip l) (lit "---") then Some i
      else find_closing ls' (i + 1) f
  | _, _ => None
  end.

(** [_extract_front_matter]: the pair [(front_matter, front_matter_lines)]. *)
Definition extract_front_matter (ls : list str)
    : option (yaml_value H) * option (Z * Z) :=
  if negb (yaml_available H) then (None, None)
  else
    match ls with
    | [] => (None, None)
    | l0 :: rest =>
        if negb (str_eqb l0 (lit "---") || str_eqb l0 (lit "---" ++ [13]))
        then (None, None)
        else
          match find_closing rest 1 49 with
          | Some i =>
              match yaml_safe_load H (join [10] (slice_between 1 i ls)) with
              | Some v => (v, Some (0, i))
              | None => (None, None)
              end
          | None => (None, None)
          end
    end.

(** [_parse_structure]; [None] where it raises. *)
Definition parse_structure (text : str) (ls : list str)
    : option (list Section * list CodeBlock * list TableInfo
              * option (yaml_value H) * option (Z * Z)) :=
  let tokens := md_parse H text in
  let fm :=
    if startswith (lit "---" ++ [10]) text || startswith (lit "---" ++ [13; 10]) text
    then extract_front_matter ls else (None, None) in
  match parse_tokens tokens (mkParseState [] [] [] []) with
  | Some st =>
      match close_remaining (len ls - 1) (ps_stack st) (ps_sections st) with
      | Some secs =>
          Some (secs, ps_code_blocks st, ps_tables st, fst fm, snd fm)
      | None => None
      end
  | None => None
  end.

(** The decoding step of [load]: the encoding and the text; [None] where
    the bytes after a byte order mark are not UTF-8. *)
Definition detect_encoding (raw_bytes : bytes) : option (Encoding * str) :=
  if starts_with_bom raw_bytes then
    match decode_utf8 (drop 3 raw_bytes) with
    | Some text => Some (Utf8Sig, text)
    | None => None
    end
  else
    match decode_utf8 raw_bytes with
    | Some text => Some (Utf8, text)
    | None => Some (Latin1, decode_latin1 raw_bytes)
    end.

(** The line ending and the lines. *)
Definition detect_eol (text : str) : Eol * list str :=
  if contains [13; 10] text then (CRLF, split_crlf text)
  else (LF, split_lf text).

(** [MarkdownDocument(path).load()]: [None] where it raises [IOError]
    (the file cannot be read, or any step raises). *)
Definition load (fs : FileSystem) (path : string) : option Document :=
  match fs !! path with
  | None => None
  | Some raw_bytes =>
      match detect_encoding raw_bytes with
      | None => None
      | Some (enc, text) =>
          let '(e, ls) := detect_eol text in
          match parse_structure text ls with
          | Some (secs, cbs, tbs, fm, fml) =>
              Some {| file_path := path;
                      encoding := enc;
                      eol := e;
                      content := text;
                      lines := ls;
                      sha256 := Sha256.hexdigest raw_bytes;
                      sections := secs;
                      code_blocks := cbs;
                      tables := tbs;
                      front_matter := fm;
                      front_matter_lines := fml |}
          | None => None
          end
      end
  end.

(** [get_section_by_path]: the section, or the error code. *)
Definition path_matches (path normalized_search_path : list str)
    (include_subsections : bool) (s : Section) : bool :=
  bool_decide (heading_path s = path)
  || bool_decide (canonical_heading_path s = normalized_search_path)
  || (include_subsections
      && (len (canonical_heading_path s) >? len normalized_search_path)
      && bool_decide (slice_to (len normalized_search_path) (canonical_heading_path s)
                      = normalized_search_path)).

Definition get_section_by_path (doc : Document) (path : list str)
    (include_subsections : bool) : Section + ErrorCode :=
  let normalized_search_path := map normalize_heading path in
  match List.filter (path_matches path normalized_search_path include_subsections)
          (sections doc) with
  | [] => inr SECTION_NOT_FOUND
  | [s] => inl s
  | _ :: _ :: _ => inr AMBIGUOUS_HEADING
  end.

(** [get_section_by_id]. *)
Definition get_section_by_id (doc : Document) (sid : str) : option Section :=
  List.find (fun s => str_eqb (section_id s) sid) (sections doc).

(** [is_in_code_block] and [is_in_table]. *)
Definition is_in_code_block (doc : Document) (n : Z) : bool :=
  existsb (fun b => (cb_start_line b <=? n) && (n <? cb_end_line b)) (code_blocks doc).

Definition is_in_table (doc : Document) (n : Z) : bool :=
  existsb (fun t => (tb_start_line t <=? n) && (n <? tb_end_line t)) (tables doc).

(** One turn of the loop of [validate_fences]; the top of [fence_stack]
    is the head of the list. *)
Definition fence_step (fence_stack : list Z) (l : str) : list Z :=
  let stripped := strip l in
  if startswith (lit "```") stripped || startswith (lit "~~~") stripped then
    match stripped with
    | fence_char :: _ =>
        match fence_stack with
        | top :: below =>
            if negb (top =? fence_char) then fence_char :: fence_stack
            else below
        | [] => [fence_char]
        end
    | [] => fence_stack
    end
  else fence_stack.

Definition fence_stack_of (ls : list str) : list Z := fold_left fence_step ls [].

(** [validate_fences], on the lines of the document. *)
Definition validate_fences_lines (ls : list str) : list Diagnostic :=
  match fence_stack_of ls with
  | [] => []
  | fence_stack =>
      [ {| severity := SevError;
           code := Some UNBALANCED_FENCE;
           message := lit "Unbalanced code fence (" ++ str_of_int (len fence_stack)
                      ++ lit " unclosed)";
           line := None;
           col := None;
           source := Some SrcValidator |} ]
  end.

Definition validate_fences (doc : Document) : list Diagnostic :=
  validate_fences_lines (lines doc).

(* ===================================================================== *)
(** ** Edits *)
(* ===================================================================== *)

(** [edit['occurrence']]: ['all'], an int, or anything else (with the
    text an f-string gives it). *)
Inductive Occurrence :=
| OccAll
| OccInt (k : Z)
| OccOther (shown : str).

(** [edit['scope']], by its ['kind']. *)
Inductive Scope :=
| WholeDocument
| SectionScope (headingPath : list str) (includeSubsections : bool)
| OtherScope (kind : str).

(** The fields of a [replace_match] edit, the defaults of [edit.get]
    filled in. *)
Record ReplaceMatchArgs := mkReplaceMatchArgs {
  rm_pattern : str;
  rm_replacement : str;
  rm_literal : bool;
  rm_flags : str;
  rm_occurrence : Occurrence;
  rm_expectedMatches : option Z;
  rm_scope : Scope;
  rm_codeBlocks : str;
  rm_linksAndImages : str;
  rm_tables : str
}.

(** An edit, by its ['op'].  A field read with [edit[...]] is an argument
    of the constructor; a field read with [edit.get(...)] holds the default
    when the edit leaves it out, and [None] is Python's [None]; the
    ['markdown'] field, whose presence the code tests, is an option. *)
Inductive Edit :=
| ReplaceRange (start_ end_ : Position) (replacement : str)
    (expectedText : option str)
| ReplaceMatch (args : ReplaceMatchArgs)
| ReplaceSection (headingPath : option (list str)) (sectionId : option str)
    (markdown : option str) (keepSubsections : bool)
| InsertAfterHeading (headingPath : option (list str)) (sectionId : option str)
    (markdown : option str) (position : str) (ensureBlankLine : bool)
| UpdateFrontMatter (set_values : list (str * yaml_value H))
    (remove_keys : list str)
| UnknownOp (op : str).

(** [replace_match] with every optional field left out. *)
Definition replace_match_defaults (pattern replacement : str) : ReplaceMatchArgs :=
  {| rm_pattern := pattern;
     rm_replacement := replacement;
     rm_literal := true;
     rm_flags := [];
     rm_occurrence := OccAll;
     rm_expectedMatches := None;
     rm_scope := WholeDocument;
     rm_codeBlocks := lit "exclude";
     rm_linksAndImages := lit "exclude";
     rm_tables := lit "exclude" |}.

(* ===================================================================== *)
(** ** [class MarkdownEditor] *)
(* ===================================================================== *)

(** The mutable part of the editor; [self.doc] is never assigned. *)
Record Editor := mkEditor {
  buffer : list str;
  diagnostics : list Diagnostic;
  matches : list Match
}.

(** [MarkdownEditor(doc)]. *)
Definition new_editor (doc : Document) : Editor :=
  {| buffer := lines doc; diagnostics := []; matches := [] |}.

(** What a method call gives: [None] where it raises, else the value it
    returns and the editor it leaves. *)
Abbreviation Outcome A := (option (A * Editor)).

Definition editor_error (c : ErrorCode) (msg : str) (ln : option Z) : Diagnostic :=
  {| severity := SevError;
     code := Some (Code c);
     message := msg;
     line := ln;
     col := None;
     source := Some SrcEditor |}.

(** [self.diagnostics.append(d); return False]. *)
Definition fail_with (ed : Editor) (d : Diagnostic) : Outcome bool :=
  Some (false, {| buffer := buffer ed;
                  diagnostics := diagnostics ed ++ [d];
                  matches := matches ed |}).

Definition set_buffer (ed : Editor) (b : list str) : Editor :=
  {| buffer := b; diagnostics := diagnostics ed; matches := matches ed |}.

(** The text a range spans. *)
Definition range_text (buf : list str) (s e : Position) : option str :=
  if pos_line s =? pos_line e then
    l ← index buf (pos_line s);
    Some (slice_between (pos_col s) (pos_col e) l)
  else
    first ← index buf (pos_line s);
    middle ← mapM (index buf) (range (pos_line s + 1) (pos_line e));
    last ← index buf (pos_line e);
    Some (join [10] ([slice_from (pos_col s) first] ++ middle
                     ++ [slice_to (pos_col e) last])).

(** The buffer after the replacement. *)
Definition range_replace (buf : list str) (s e : Position) (replacement : str)
    : option (list str) :=
  if pos_line s =? pos_line e then
    l ← index buf (pos_line s);
    setitem buf (pos_line s)
      (slice_to (pos_col s) l ++ replacement ++ slice_from (pos_col e) l)
  else
    first ← index buf (pos_line s);
    last ← index buf (pos_line e);
    let new_line :=
      slice_to (pos_col s) first ++ replacement ++ slice_from (pos_col e) last in
    Some (slice_to (pos_line s) buf ++ [new_line]
          ++ slice_from (pos_line e + 1) buf).

(** [_apply_replace_range]. *)
Definition apply_replace_range (ed : Editor) (s e : Position)
    (replacement : str) (expected_text : option str) : Outcome bool :=
  if (pos_line s <? 0) || (pos_line s >=? len (buffer ed)) then
    fail_with ed
      (editor_error OUT_OF_RANGE
         (lit "Start line " ++ str_of_int (pos_line s) ++ lit " out of range")
         (Some (pos_line s)))
  else if (pos_line e <? 0) || (pos_line e >=? len (buffer ed)) then
    fail_with ed
      (editor_error OUT_OF_RANGE
         (lit "End line " ++ str_of_int (pos_line e) ++ lit " out of range")
         (Some (pos_line e)))
  else
    current_text ← range_text (buffer ed) s e;
    let mismatch :=
      match expected_text with
      | Some t => negb (str_eqb current_text t)
      | None => false
      end in
    if mismatch then
      fail_with ed
        (editor_error PRECONDITION_FAILED
           (lit "Expected text mismatch at line " ++ str_of_int (pos_line s))
           (Some (pos_line s)))
    else
      b ← range_replace (buffer ed) s e replacement;
      Some (true, set_buffer ed b).

(** An entry [(line_num, match)] of the list [matches] of
    [_apply_replace_match]: the line number, and the span and the subject
    string of the match object. *)
Record Found := mkFound {
  f_line_num : Z;
  f_start : Z;
  f_end : Z;
  f_string : str
}.

(** [match.group(0)]. *)
Definition group0 (f : Found) : str :=
  slice_between (f_start f) (f_end f) (f_string f).

(** The flags [re.compile] is given. *)
Definition regex_flags_of (flags_str : str) : Z :=
  let regex_flags := 0 in
  let regex_flags :=
    if contains (lit "i") flags_str then Z.lor regex_flags re_IGNORECASE
    else regex_flags in
  let regex_flags :=
    if contains (lit "m") flags_str then Z.lor regex_flags re_MULTILINE
    else regex_flags in
  if contains (lit "s") flags_str then Z.lor regex_flags re_DOTALL
  else regex_flags.

(** The loop that finds all matches within the scope, over the line
    numbers of [range(start_line, end_line + 1)]; [None] where
    [self.buffer[line_num]] raises IndexError. *)
Fixpoint find_matches (doc : Document) (rx : regex H)
    (code_blocks_policy tables_policy : str) (buf : list str)
    (line_nums : list Z) : option (list Found) :=
  match line_nums with
  | [] => Some []
  | line_num :: rest =>
      l ← index buf line_num;
      later ← find_matches doc rx code_blocks_policy tables_policy buf rest;
      if str_eqb code_blocks_policy (lit "exclude") && is_in_code_block doc line_num
      then Some later
      else if str_eqb tables_policy (lit "exclude") && is_in_table doc line_num
      then Some later
      else
        Some (map (fun sp => mkFound line_num (fst sp) (snd sp) l) (re_finditer H rx l)
              ++ later)
  end.

(** The [Match] reported for an entry. *)
Definition report (f : Found) : Match :=
  {| m_line := f_line_num f + 1;
     m_col := f_start f + 1;
     m_text := group0 f;
     m_start_pos := mkPosition (f_line_num f + 1) (f_start f + 1);
     m_end_pos := mkPosition (f_line_num f + 1) (f_end f + 1) |}.

(** One turn of the replacement loop. *)
Definition replace_found (replacement : str) (buf : list str) (f : Found)
    : option (list str) :=
  l ← index buf (f_line_num f);
  setitem buf (f_line_num f)
    (slice_to (f_start f) l ++ replacement ++ slice_from (f_end f) l).

(** [for line_num, match in to_replace: ...]. *)
Fixpoint replace_each (replacement : str) (to_replace : list Found)
    (buf : list str) : option (list str) :=
  match to_replace with
  | [] => Some buf
  | f :: rest =>
      buf' ← replace_found replacement buf f;
      replace_each replacement rest buf'
  end.

(** The lines the scope covers: [(start_line, end_line)], or the
    diagnostic of an unresolved scope. *)
Definition resolve_scope (doc : Document) (buf : list str) (scope : Scope)
    : (Z * Z) + Diagnostic :=
  match scope with
  | WholeDocument => inl (0, len buf - 1)
  | SectionScope path include_subsections =>
      match get_section_by_path doc path include_subsections with
      | inl section => inl (start_line section, end_line section)
      | inr error_code =>
          inr (editor_error error_code
                 (lit "Section not found: " ++ join (lit " > ") path) None)
      end
  | OtherScope kind =>
      inr (editor_error INVALID_OPERATION (lit "Unknown scope kind: " ++ kind) None)
  end.

(** [_apply_replace_match]. *)
Definition apply_replace_match (doc : Document) (ed : Editor)
    (a : ReplaceMatchArgs) : Outcome bool :=
  let pattern := if rm_literal a then re_escape H (rm_pattern a) else rm_pattern a in
  let regex_flags := regex_flags_of (rm_flags a) in
  match re_compile H pattern regex_flags with
  | None =>
      fail_with ed
        (editor_error INVALID_OPERATION
           (lit "Invalid regex pattern: " ++ re_error_text H pattern regex_flags) None)
  | Some rx =>
      match resolve_scope doc (buffer ed) (rm_scope a) with
      | inr d => fail_with ed d
      | inl (first, last) =>
          found ← find_matches doc rx (rm_codeBlocks a) (rm_tables a) (buffer ed)
                    (range first (last + 1));
          let unexpected :=
            match rm_expectedMatches a with
            | Some n => negb (len found =? n)
            | None => false
            end in
          if unexpected then
            let n := default 0 (rm_expectedMatches a) in
            if len found =? 0 then
              fail_with ed
                (editor_error NO_MATCH
                   (lit "No matches found (expected " ++ str_of_int n ++ lit ")") None)
            else
              fail_with ed
                (editor_error AMBIGUOUS_MATCH
                   (lit "Found " ++ str_of_int (len found) ++ lit " matches (expected "
                    ++ str_of_int n ++ lit ")") None)
          else
            let ed1 := {| buffer := buffer ed;
                          diagnostics := diagnostics ed;
                          matches := matches ed ++ map report found |} in
            match rm_occurrence a with
            | OccAll =>
                b ← replace_each (rm_replacement a) (rev found) (buffer ed1);
                Some (true, set_buffer ed1 b)
            | OccInt k =>
                if (k <? 1) || (k >? len found) then
                  fail_with ed1
                    (editor_error OUT_OF_RANGE
                       (lit "Occurrence " ++ str_of_int k ++ lit " out of range (found "
                        ++ str_of_int (len found) ++ lit " matches)") None)
                else
                  f ← index found (k - 1);
                  b ← replace_each (rm_replacement a) [f] (buffer ed1);
                  Some (true, set_buffer ed1 b)
            | OccOther shown =>
                fail_with ed1
                  (editor_error INVALID_OPERATION (lit "Invalid occurrence: " ++ shown) None)
            end
      end
  end.

(** Python's truth value of an optional string or list. *)
Definition truthy {A} (o : option (list A)) : bool :=
  match o with
  | Some (_ :: _) => true
  | _ => false
  end.

(** The section an edit names, by [sectionId] first, else by
    [headingPath]; or the diagnostic. *)
Definition resolve_section (doc : Document) (headingPath : option (list str))
    (sectionId : option str) : Section + Diagnostic :=
  if truthy sectionId then
    let sid := default [] sectionId in
    match get_section_by_id doc sid with
    | Some section => inl section
    | None =>
        inr (editor_error SECTION_NOT_FOUND
               (lit "Section not found with ID: " ++ sid) None)
    end
  else if truthy headingPath then
    let path := default [] headingPath in
    match get_section_by_path doc path false with
    | inl section => inl section
    | inr error_code =>
        inr (editor_error error_code
               (lit "Section not found: " ++ join (lit " > ") path) None)
    end
  else
    inr (editor_error INVALID_OPERATION
           (lit "Either headingPath or sectionId must be provided") None).

(** The test of the loop that looks for the first subsection. *)
Definition is_subsection_of (path : list str) (section s : Section) : bool :=
  (len (heading_path s) >? len path)
  && bool_decide (slice_to (len path) (heading_path s) = path)
  && (start_line s >? heading_line section).

(** [subsection_start]: [None] is Python's [None]. *)
Definition subsection_start_of (doc : Document) (headingPath : option (list str))
    (section : Section) : option Z :=
  if truthy headingPath then
    match List.find (is_subsection_of (default [] headingPath) section) (sections doc) with
    | Some s => Some (start_line s)
    | None => None
    end
  else None.

(** [content_end] of [_apply_replace_section]. *)
Definition content_end_of (doc : Document) (headingPath : option (list str))
    (keep_subsections : bool) (section : Section) : Z :=
  if keep_subsections then
    match subsection_start_of doc headingPath section with
    | Some subsection_start =>
        if subsection_start =? 0 then end_line section else subsection_start - 1
    | None => end_line section
    end
  else end_line section.

(** [has_heading]: the first line of the new text, stripped, starts with
    a hash sign. *)
Definition has_heading_of (new_lines : list str) : bool :=
  match new_lines with
  | first :: _ => startswith (lit "#") (strip first)
  | [] => false
  end.

(** [_apply_replace_section]. *)
Definition apply_replace_section (doc : Document) (ed : Editor)
    (headingPath : option (list str)) (sectionId : option str)
    (markdown : option str) (keep_subsections : bool) : Outcome bool :=
  match markdown with
  | None =>
      fail_with ed
        (editor_error INVALID_OPERATION
           (lit "replace_section requires 'markdown' field (not 'content')") None)
  | Some md =>
      match resolve_section doc headingPath sectionId with
      | inr d => fail_with ed d
      | inl section =>
          let content_start := heading_line section in
          let content_end := content_end_of doc headingPath keep_subsections section in
          let new_lines := split_lf md in
          if negb (has_heading_of new_lines) then
            preserved_heading ← index (buffer ed) (heading_line section);
            Some (true,
                  set_buffer ed
                    (slice_to (heading_line section + 1) (buffer ed) ++ new_lines
                     ++ slice_from (content_end + 1) (buffer ed)))
          else
            Some (true,
                  set_buffer ed
                    (slice_to content_start (buffer ed) ++ new_lines
                     ++ slice_from (content_end + 1) (buffer ed)))
      end
  end.

(** [_apply_insert_after_heading]. *)
Definition apply_insert_after_heading (doc : Document) (ed : Editor)
    (headingPath : option (list str)) (sectionId : option str)
    (markdown : option str) (position : str) (ensure_blank_line : bool)
    : Outcome bool :=
  match markdown with
  | None =>
      fail_with ed
        (editor_error INVALID_OPERATION
           (lit "insert_after_heading requires 'markdown' field (not 'content')") None)
  | Some md =>
      match resolve_section doc headingPath sectionId with
      | inr d => fail_with ed d
      | inl section =>
          let insert_line :=
            if str_eqb position (lit "afterHeading") then Some (heading_line section + 1)
            else if str_eqb position (lit "start") then Some (heading_line section + 1)
            else if str_eqb position (lit "end") then Some (end_line section + 1)
            else None in
          match insert_line with
          | None =>
              fail_with ed
                (editor_error INVALID_OPERATION (lit "Invalid position: " ++ position) None)
          | Some insert_line =>
              let new_lines := split_lf md in
              new_lines ←
                (if ensure_blank_line && (insert_line <? len (buffer ed)) then
                   l ← index (buffer ed) insert_line;
                   Some (match strip l with
                         | [] => new_lines
                         | _ :: _ => new_lines ++ [[]]
                         end)
                 else Some new_lines);
              Some (true,
                    set_buffer ed
                      (slice_to insert_line (buffer ed) ++ new_lines
                       ++ slice_from insert_line (buffer ed)))
          end
      end
  end.

(** [fm[key] = value] and [fm.pop(key, None)] on a dict kept in insertion
    order. *)
Fixpoint dict_set {V} (key : str) (value : V) (d : list (str * V)) : list (str * V) :=
  match d with
  | [] => [(key, value)]
  | (k, v) :: d' =>
      if str_eqb k key then (k, value) :: d' else (k, v) :: dict_set key value d'
  end.

Definition dict_pop {V} (key : str) (d : list (str * V)) : list (str * V) :=
  List.filter (fun kv => negb (str_eqb (fst kv) key)) d.

(** [_apply_update_front_matter]. *)
Definition apply_update_front_matter (doc : Document) (ed : Editor)
    (set_values : list (str * yaml_value H)) (remove_keys : list str)
    : Outcome bool :=
  if negb (yaml_available H) then
    fail_with ed
      (editor_error INVALID_OPERATION (lit "YAML library not available") None)
  else
    fm ← match front_matter doc with
         | Some v => if yaml_truthy H v then yaml_as_dict H v else Some []
         | None => Some []
         end;
    let fm := fold_left (fun d kv => dict_set (fst kv) (snd kv) d) set_values fm in
    let fm := fold_left (fun d k => dict_pop k d) remove_keys fm in
    let fm_text := yaml_dump H fm in
    let fm_lines := split_lf (rstrip_nl fm_text) in
    match front_matter_lines doc with
    | Some (_, last) =>
        Some (true,
              set_buffer ed
                ([lit "---"] ++ fm_lines ++ [lit "---"]
                 ++ slice_from (last + 1) (buffer ed)))
    | None =>
        Some (true,
              set_buffer ed ([lit "---"] ++ fm_lines ++ [lit "---"; []] ++ buffer ed))
    end.

(** [apply_edit]. *)
Definition apply_edit (doc : Document) (ed : Editor) (edit : Edit) : Outcome bool :=
  match edit with
  | ReplaceRange s e replacement expected_text =>
      apply_replace_range ed s e replacement expected_text
  | ReplaceMatch a => apply_replace_match doc ed a
  | ReplaceSection headingPath sectionId markdown keep_subsections =>
      apply_replace_section doc ed headingPath sectionId markdown keep_subsections
  | InsertAfterHeading headingPath sectionId markdown position ensure_blank_line =>
      apply_insert_after_heading doc ed headingPath sectionId markdown position
        ensure_blank_line
  | UpdateFrontMatter set_values remove_keys =>
      apply_update_front_matter doc ed set_values remove_keys
  | UnknownOp op =>
      fail_with ed
        (editor_error INVALID_OPERATION (lit "Unknown operation: " ++ op) None)
  end.

(** [get_content]. *)
Definition get_content (doc : Document) (ed : Editor) : str :=
  join (eol_seq (eol doc)) (buffer ed).

(* ===================================================================== *)
(** ** [md_apply] *)
(* ===================================================================== *)

(** The ['error'] text of a failure: a fixed text, or the text of the
    exception caught (which the model does not carry). *)
Inductive ErrorText :=
| Text (s : str)
| FormattingFailed
| OfException.

(** The dict [md_apply] returns. *)
Inductive ApplyResult :=
| ApplyOk (filePath : string) (contentSha256 diff : str) (editsApplied : Z)
    (dryRun : bool) (matches_out : list (Z * Z * str))
    (diagnostics_out : list Diagnostic)
| ApplyFailed (error : ErrorText) (errorCode : ErrorCode)
    (expected actual : option str) (diagnostics_out : option (list Diagnostic)).

(** How the loop over the edits ends: an exception, the [return] of the
    atomic mode at edit [i], or the end of the list. *)
Inductive LoopEnd :=
| LoopRaised
| LoopFailedAt (i : Z) (ed : Editor)
| LoopDone (ed : Editor) (edits_applied : Z).

(** [for i, edit in enumerate(edits): ...]. *)
Fixpoint run_edits (doc : Document) (atomic : bool) (i : Z) (edits : list Edit)
    (ed : Editor) (edits_applied : Z) : LoopEnd :=
  match edits with
  | [] => LoopDone ed edits_applied
  | edit :: rest =>
      match apply_edit doc ed edit with
      | None => LoopRaised
      | Some (success, ed') =>
          if negb success then
            if atomic then LoopFailedAt i ed'
            else run_edits doc atomic (i + 1) rest ed' edits_applied
          else run_edits doc atomic (i + 1) rest ed' (edits_applied + 1)
      end
  end.

(** The content after the optional formatter: [None] where the formatter
    raises in atomic mode. *)
Definition format_content (atomic : bool) (format_mode : str) (new_content : str)
    : option str :=
  if str_eqb format_mode (lit "mdformat") && mdformat_available H then
    match mdformat_text H new_content with
    | Some formatted => Some formatted
    | None => if atomic then None else Some new_content
    end
  else Some new_content.

(** [if ensure_final_newline and not new_content.endswith('\n'): ...]. *)
Definition with_final_newline (doc : Document) (ensure_final_newline : bool)
    (new_content : str) : str :=
  if ensure_final_newline && negb (endswith [10] new_content) then
    new_content ++ match eol doc with LF => [10] | CRLF => [13; 10] end
  else new_content.

(** [md_apply]: the result and the file system it leaves. *)
Definition md_apply (fs : FileSystem) (path : string) (base_sha256 : str)
    (edits : list Edit) (atomic dry_run : bool) (format_mode : str)
    (preserve_eol preserve_encoding ensure_final_newline : bool)
    : ApplyResult * FileSystem :=
  match load fs path with
  | None => (ApplyFailed OfException IO_ERROR None None None, fs)
  | Some doc =>
      if negb (str_eqb (sha256 doc) base_sha256) then
        (ApplyFailed (Text (lit "SHA-256 mismatch (file changed)"))
           PRECONDITION_FAILED (Some base_sha256) (Some (sha256 doc)) None, fs)
      else
        match run_edits doc atomic 0 edits (new_editor doc) 0 with
        | LoopRaised => (ApplyFailed OfException IO_ERROR None None None, fs)
        | LoopFailedAt i ed =>
            (ApplyFailed (Text (lit "Edit " ++ str_of_int i ++ lit " failed"))
               CONFLICTING_EDITS None None (Some (diagnostics ed)), fs)
        | LoopDone ed edits_applied =>
            match format_content atomic format_mode (get_content doc ed) with
            | None => (ApplyFailed FormattingFailed MARKDOWN_BROKEN None None None, fs)
            | Some new_content =>
                let new_content := with_final_newline doc ensure_final_newline new_content in
                let diff := unified_diff H (content doc) new_content (file_path doc) in
                let enc := if preserve_encoding then encoding doc else Utf8 in
                match encode enc new_content with
                | None => (ApplyFailed OfException IO_ERROR None None None, fs)
                | Some new_bytes =>
                    (ApplyOk (file_path doc) (Sha256.hexdigest new_bytes) diff
                       edits_applied dry_run
                       (map (fun m => (m_line m, m_col m, m_text m)) (matches ed))
                       (diagnostics ed),
                     if dry_run then fs else <[path := new_bytes]> fs)
                end
            end
        end
  end.

(* ===================================================================== *)
(** ** [md_stat] and [md_validate] *)
(* ===================================================================== *)

(** The dict [md_stat] returns.  The entries of ['sections'],
    ['codeBlocks'] and ['tables'] carry the fields of the records they are
    built from. *)
Inductive StatResult :=
| StatOk (filePath : string) (contentSha256 encoding_out eol_out : str)
    (lineCount : Z) (sections_out : list Section) (codeBlocks : list CodeBlock)
    (tables_out : list TableInfo) (frontMatter : option (yaml_value H))
    (hasFrontMatter : bool)
| StatFailed (error : ErrorText) (errorCode : ErrorCode).

(** [doc.eol] as the string it is. *)
Definition eol_name (e : Eol) : str :=
  match e with LF => lit "LF" | CRLF => lit "CRLF" end.

(** [str(Path(file_path))], the ['filePath'] that [md_stat] and
    [md_validate] return: the path as pathlib spells it, which is not
    always the string that was given ([a.md] for [./a.md]). *)
Section PathSpelling.

Variable path_str : string -> string.

(** [md_stat]. *)
Definition md_stat (fs : FileSystem) (path : string) : StatResult :=
  match load fs path with
  | None => StatFailed OfException IO_ERROR
  | Some doc =>
      StatOk (path_str (file_path doc)) (sha256 doc) (encoding_name (encoding doc))
        (eol_name (eol doc)) (len (lines doc)) (sections doc) (code_blocks doc)
        (tables doc) (front_matter doc)
        (match front_matter doc with Some _ => true | None => false end)
  end.

(** What [md_validate] says of the formatter: nothing (no preview asked
    for, or mdformat absent), the formatted text when it differs from the
    content, that there is no change, or that the formatter raised. *)
Inductive FormatPreview :=
| NoPreview
| FormatChanges (formattedPreview : str)
| NoFormatChanges
| FormatError.

(** The dict [md_validate] returns. *)
Inductive ValidateResult :=
| ValidateOk (filePath : string) (contentSha256 : str)
    (diagnostics_out : list Diagnostic) (preview : FormatPreview)
| ValidateFailed (error : ErrorText) (errorCode : ErrorCode).

(** [md_validate]. *)
Definition md_validate (fs : FileSystem) (path : string) (autofix_preview : bool)
    : ValidateResult :=
  match load fs path with
  | None => ValidateFailed OfException IO_ERROR
  | Some doc =>
      ValidateOk (path_str (file_path doc)) (sha256 doc) (validate_fences doc)
        (if autofix_preview && mdformat_available H then
           match mdformat_text H (content doc) with
           | Some formatted =>
               if negb (str_eqb formatted (content doc)) then FormatChanges formatted
               else NoFormatChanges
           | None => FormatError
           end
         else NoPreview)
  end.

End PathSpelling.

End WithHost.

Arguments mkDocument {H}.
Arguments file_path {H}.
Arguments encoding {H}.
Arguments eol {H}.
Arguments content {H}.
Arguments lines {H}.
Arguments sha256 {H}.
Arguments sections {H}.
Arguments code_blocks {H}.
Arguments tables {H}.
Arguments front_matter {H}.
Arguments front_matter_lines {H}.
Arguments get_section_by_path {H}.
Arguments get_section_by_id {H}.
Arguments is_in_code_block {H}.
Arguments is_in_table {H}.
Arguments validate_fences {H}.
Arguments resolve_section {H}.
Arguments resolve_scope {H}.
Arguments subsection_start_of {H}.
Arguments content_end_of {H}.
Arguments find_matches {H}.
Arguments new_editor {H}.
Arguments get_content {H}.
Arguments with_final_newline {H}.
Arguments StatOk {H}.
Arguments StatFailed {H}.
Arguments ReplaceRange {H}.
Arguments ReplaceMatch {H}.
Arguments ReplaceSection {H}.
Arguments InsertAfterHeading {H}.
Arguments UpdateFrontMatter {H}.
Arguments UnknownOp {H}.

(* ===================================================================== *)
(** ** A host to run examples with *)
(* ===================================================================== *)

(** An installation without the optional packages (PyYAML and mdformat are
    absent), restricted to what the examples below use: documents made
    of ATX headings with ASCII text, fenced code blocks and paragraphs, and
    patterns made of ordinary and backslash-escaped characters. *)
Module PlainHost.

(** The level and the text of an ATX heading line. *)
Fixpoint count_hashes (s : str) : Z * str :=
  match s with
  | c :: r => if c =? 35 then let '(n, t) := count_hashes r in (n + 1, t) else (0, s)
  | [] => (0, [])
  end.

Definition atx_heading (l : str) : option (Z * str) :=
  let '(n, t) := count_hashes l in
  if (1 <=? n) && (n <=? 6) then
    match t with
    | [] => Some (n, [])
    | c :: _ => if is_space c then Some (n, strip t) else None
    end
  else None.

Definition is_fence_line (l : str) : bool :=
  startswith (lit "```") l || startswith (lit "~~~") l.

(** The tokens of the lines from line [i] on; [open] is the first line,
    the fence character and the info string of a fenced block that is not
    closed yet. *)
Fixpoint tokens_from (ls : list str) (i : Z) (open : option (Z * Z * str)) : list Token :=
  match ls with
  | [] =>
      match open with
      | Some (first, _, info) => [Fence (Some (first, i)) info]
      | None => []
      end
  | l :: rest =>
      match open with
      | Some (first, fence_char, info) =>
          if is_fence_line l && (default 0 (head l) =? fence_char)
          then Fence (Some (first, i + 1)) info :: tokens_from rest (i + 1) None
          else tokens_from rest (i + 1) open
      | None =>
          if is_fence_line l
          then tokens_from rest (i + 1) (Some (i, default 0 (head l), drop 3 l))
          else
            match atx_heading l with
            | Some (n, t) =>
                HeadingOpen n (Some (i, i + 1)) :: Inline t :: OtherToken
                  :: tokens_from rest (i + 1) None
            | None => tokens_from rest (i + 1) None
            end
      end
  end.

(** The lines as markdown-it sees them: a final line break ends the last
    line. *)
Definition source_lines (text : str) : list str :=
  let ls := map (fun l => rev (match rev l with 13 :: r => r | r => r end)) (split_lf text) in
  match rev ls with
  | [] :: r => rev r
  | _ => ls
  end.

Definition parse (text : str) : list Token := tokens_from (source_lines text) 0 None.

Definition is_ascii_word (c : Z) : bool :=
  ((48 <=? c) && (c <=? 57)) || ((65 <=? c) && (c <=? 90))
  || ((97 <=? c) && (c <=? 122)) || (c =? 95).

Definition ascii_lower (s : str) : str :=
  map (fun c => if (65 <=? c) && (c <=? 90) then c + 32 else c) s.

(** [re.escape]: a backslash before each special character. *)
Definition is_special (c : Z) : bool :=
  existsb (Z.eqb c) (lit "()[]{}?*+-|^$\.&~# " ++ [9; 10; 11; 12; 13]).

Definition escape (s : str) : str :=
  flat_map (fun c => if is_special c then [92; c] else [c]) s.

(** A compiled pattern: the characters it matches, one after the other.
    An unescaped operator is no part of the fragment; [re.compile]
    itself rejects an unclosed parenthesis and a trailing backslash. *)
Fixpoint compile_literal (p : str) : option str :=
  match p with
  | [] => Some []
  | c :: r =>
      if c =? 92 then
        match r with
        | d :: r' =>
            if is_ascii_word d then None
            else match compile_literal r' with Some t => Some (d :: t) | None => None end
        | [] => None
        end
      else if is_special c && negb (existsb (Z.eqb c) (lit "-&~# "))
      then None
      else match compile_literal r with Some t => Some (c :: t) | None => None end
  end.

(** The spans of the occurrences of [p] in [l], left to right and without
    overlap; [skip] characters are still covered by the last occurrence. *)
Fixpoint occurrences (p l : str) (i : Z) (skip : nat) : list (Z * Z) :=
  match l with
  | [] =>
      match skip, p with
      | O, [] => [(i, i)]
      | _, _ => []
      end
  | _ :: r =>
      match skip with
      | S k => occurrences p r (i + 1) k
      | O =>
          if startswith p l then (i, i + len p) :: occurrences p r (i + 1) (length p - 1)
          else occurrences p r (i + 1) 0
      end
  end.

Definition host : Host :=
  {| md_parse := parse;
     unicode_word := is_ascii_word;
     unicode_lower := ascii_lower;
     regex := str;
     re_escape := escape;
     re_compile := fun p _ => compile_literal p;
     re_error_text := fun _ _ => lit "invalid pattern";
     re_finditer := fun rx l => occurrences rx l 0 0;
     yaml_available := false;
     yaml_value := unit;
     yaml_safe_load := fun _ => None;
     yaml_truthy := fun _ => false;
     yaml_as_dict := fun _ => None;
     yaml_dump := fun _ => [];
     mdformat_available := false;
     mdformat_text := fun _ => None;
     unified_diff := fun _ _ _ => [] |}.

(** The bytes of an ASCII text, and a file system with one file. *)
Definition ascii_bytes (s : string) : bytes := map z2b (lit s).

(** The bytes of a file of ASCII lines, each ended by a line feed. *)
Definition file_of_lines (ls : list string) : bytes :=
  map z2b (flat_map (fun l => lit l ++ [10]) ls).

Definition one_file (path : string) (bs : bytes) : FileSystem := {[ path := bs ]}.

(** The document [load] gives for a file of the examples. *)
Definition loaded (fs : FileSystem) (path : string) : Document host :=
  default (mkDocument path Utf8 LF [] [] [] [] [] [] None None) (load host fs path).

(** The section an address resolves to, in the examples. *)
Definition resolved (r : Section + Diagnostic) : Section :=
  match r with
  | inl section => section
  | inr _ => mkSection [] [] [] 0 0 0 0
  end.

End PlainHost.

(** The files and the edits of the examples. *)
Module Scenario.

Import PlainHost.

(** Sixty-four zeros: the [baseSha256] of no file. *)
Definition zero_hash : str := repeat 48 64.

(** [# A], [hi]. *)
Definition small_file : bytes := file_of_lines ["# A"; "hi"].
Definition small_fs : FileSystem := one_file "a.md" small_file.

(** [# A], [hi], with no line feed at the end. *)
Definition unterminated_file : bytes := map z2b (lit "# A" ++ [10] ++ lit "hi").
Definition unterminated_fs : FileSystem := one_file "a.md" unterminated_file.

(** [# Intro], [old], [## Sub], [x]. *)
Definition intro_file : bytes := file_of_lines ["# Intro"; "old"; "## Sub"; "x"].
Definition intro_fs : FileSystem := one_file "a.md" intro_file.
Definition intro_doc : Document host := Eval vm_compute in loaded intro_fs "a.md".

(** [foo], a fenced block that holds [foo], [foo]. *)
Definition fenced_file : bytes := file_of_lines ["foo"; "```"; "foo"; "```"; "foo"].
Definition fenced_fs : FileSystem := one_file "a.md" fenced_file.
Definition fenced_doc : Document host := Eval vm_compute in loaded fenced_fs "a.md".

(** One line, the byte E9 (a Latin-1 e with an acute accent, and no
    UTF-8), and a line feed. *)
Definition latin1_file : bytes := [xe9; x0a].
Definition latin1_fs : FileSystem := one_file "a.md" latin1_file.

(** Replace the content of Intro and keep its subsection; replace a
    section that does not exist; put a euro sign at the start of the first
    line. *)
Definition edit_intro : Edit host :=
  ReplaceSection (Some [lit "Intro"]) None (Some (lit "new body")) true.
Definition edit_missing : Edit host :=
  ReplaceSection (Some [lit "Missing"]) None (Some (lit "x")) false.
Definition edit_euro : Edit host :=
  ReplaceRange (mkPosition 0 0) (mkPosition 0 0) [8364] None.

(** The editor an edit leaves, the one it was given if it raises. *)
Definition editor_after (ed : Editor) (outcome : option (bool * Editor)) : Editor :=
  match outcome with
  | Some (_, ed') => ed'
  | None => ed
  end.

End Scenario.

(* ===================================================================== *)
(** ** What the specification says, in its own words *)
(* ===================================================================== *)

(** The validator as the specification words it: back-ticks and tildes
    are followed separately, each fence line toggling the state of its own
    character, and every fence left open at the end gets a diagnostic.
    The pair is (a back-tick fence is open, a tilde fence is open). *)
Definition spec_fence_step (st : bool * bool) (l : str) : bool * bool :=
  let stripped := strip l in
  if startswith (lit "```") stripped then (negb (fst st), snd st)
  else if startswith (lit "~~~") stripped then (fst st, negb (snd st))
  else st.

(** The number of diagnostics the specification asks for. *)
Definition spec_unclosed_fences (ls : list str) : nat :=
  let st := fold_left spec_fence_step ls (false, false) in
  ((if fst st then 1 else 0) + (if snd st then 1 else 0))%nat.

(** No two neighbours of the stack are the same character. *)
Fixpoint alternating (st : list Z) : bool :=
  match st with
  | a :: ((b :: _) as r) => negb (a =? b) && alternating r
  | _ => true
  end.

(** The text before the first line feed. *)
Fixpoint first_line (s : str) : str :=
  match s with
  | c :: r => if c =? 10 then [] else c :: first_line r
  | [] => []
  end.

(** The test of the heading as the specification words it: the first
    line that is not empty, trimmed, begins with a hash sign. *)
Definition spec_has_heading (md : str) : bool :=
  match List.find (fun l => negb (str_eqb l [])) (split_lf md) with
  | Some l => startswith (lit "#") (strip l)
  | None => false
  end.

(** The line ending the finalizer appends, as bytes. *)
Definition eol_bytes (e : Eol) : bytes :=
  match e with LF => [x0a] | CRLF => [x0d; x0a] end.

(** A text and its bytes end alike: both are empty, or the text ends
    with a line feed exactly when the bytes do. *)
Definition same_end (s : str) (bs : bytes) : Prop :=
  match last s, last bs with
  | None, None => True
  | Some c, Some b => c = 10 <-> b = x0a
  | _, _ => False
  end.

(** What the specification asks of the result, on one line: the text
    between [pos] and [stop] in which each match, given by its span, is
    replaced by the replacement, the text between two matches staying as
    it is. *)
Fixpoint substitute_between (l : str) (pos stop : Z) (spans : list (Z * Z))
    (replacement : str) : str :=
  match spans with
  | [] => slice_between pos stop l
  | (s, e) :: rest =>
      slice_between pos s l ++ replacement ++ substitute_between l e stop rest replacement
  end.

(** The whole line, every match replaced. *)
Definition substitute (l : str) (spans : list (Z * Z)) (replacement : str) : str :=
  substitute_between l 0 (len l) spans replacement.

(** The spans of the matches of one line, as [finditer] gives them: in
    the line, from left to right, none starting before the end of the one
    before. *)
Fixpoint spans_ok (n pos : Z) (spans : list (Z * Z)) : bool :=
  match spans with
  | [] => true
  | (s, e) :: rest => (pos <=? s) && (s <=? e) && (e <=? n) && spans_ok n e rest
  end.

(** One turn of the replacement loop, on the line it changes. *)
Definition splice (replacement : str) (cur : str) (span : Z * Z) : str :=
  slice_to (fst span) cur ++ replacement ++ slice_from (snd span) cur.

Section Expected.

Context (H : Host).

(** Every edit of the list, in order, applied with success: the editor
    after the last one.  [None] as soon as an edit returns [False] or
    raises. *)
Fixpoint apply_all (doc : Document H) (ed : Editor) (edits : list (Edit H))
    : option Editor :=
  match edits with
  | [] => Some ed
  | edit :: rest =>
      match apply_edit H doc ed edit with
      | Some (true, ed') => apply_all doc ed' rest
      | _ => None
      end
  end.

(** The line is skipped by the scan: inside a code block or a table, the
    policy for them being to exclude them. *)
Definition excluded (doc : Document H) (code_blocks_policy tables_policy : str)
    (n : Z) : bool :=
  (str_eqb code_blocks_policy (lit "exclude") && is_in_code_block doc n)
  || (str_eqb tables_policy (lit "exclude") && is_in_table doc n).

(** What the specification asks of line [k] of the buffer after a
    [replace_match] on the lines [first] to [last]. *)
Definition expected_line (doc : Document H) (rx : regex H)
    (code_blocks_policy tables_policy replacement : str) (first last : Z)
    (k : nat) (l : str) : str :=
  if (first <=? Z.of_nat k) && (Z.of_nat k <=? last)
     && negb (excluded doc code_blocks_policy tables_policy (Z.of_nat k))
  then substitute l (re_finditer H rx l) replacement
  else l.

End Expected.

Arguments apply_all {H}.
Arguments excluded {H}.
Arguments expected_line {H}.

(* ===================================================================== *)
(** ** Counting, for the further properties *)
(* ===================================================================== *)

(** The number of line feeds of a text. *)
Fixpoint count_lf (s : str) : Z :=
  match s with
  | [] => 0
  | c :: r => (if c =? 10 then 1 else 0) + count_lf r
  end.

(** The number of places where a carriage return is followed by a line
    feed. *)
Fixpoint count_crlf (s : str) : Z :=
  match s with
  | [] => 0
  | c :: r =>
      (if (c =? 13) && startswith [10] r then 1 else 0) + count_crlf r
  end.

(** The lines of the headings of a token stream, in the order of the
    document: a [heading_open] token counts when an [inline] token follows
    it, and a token without [map] stands on line 0. *)
Fixpoint heading_lines (toks : list Token) : list Z :=
  match toks with
  | [] => []
  | HeadingOpen _ mp :: rest =>
      match rest with
      | Inline _ :: _ =>
          match mp with Some (a, _) => a | None => 0 end :: heading_lines rest
      | _ => heading_lines rest
      end
  | _ :: rest => heading_lines rest
  end.

(** A lower-case hexadecimal digit. *)
Definition is_lower_hex (c : Z) : bool :=
  (48 <=? c) && (c <=? 57) || (97 <=? c) && (c <=? 102).

(** What every entry of the section list satisfies: the heading is the
    first line of the section, the canonical path is the normalised path,
    and the identifier is the one of the path and the first line. *)
Definition well_formed (H : Host) (s : Section) : Prop :=
  heading_line s = start_line s
  /\ heading_path s <> []
  /\ canonical_heading_path s = map (normalize_heading H) (heading_path s)
  /\ create_section_id (heading_path s) (start_line s) = Some (section_id s).

(** The characters [normalize_heading] keeps: word characters other than
    the underscore, white space and hyphens. *)
Definition kept (H : Host) (c : Z) : bool :=
  negb (is_emphasis c) && (unicode_word H c || is_space c || (c =? 45)).

(** [fm.get(key)] on a dict kept in insertion order. *)
Definition dict_get {V} (key : str) (d : list (str * V)) : option V :=
  option_map snd (List.find (fun kv => str_eqb (fst kv) key) d).

(* ===================================================================== *)
(** ** A host with a YAML library, for the front matter *)
(* ===================================================================== *)

Module YamlHost.

(** A small YAML: a mapping of one [key: value] per line, the values being
    strings. *)
Inductive yaml :=
| YStr (s : str)
| YMap (d : list (str * str)).

(** The key and the value of a line [key: value]. *)
Fixpoint split_key (l : str) : option (str * str) :=
  match l with
  | [] => None
  | c :: r =>
      if (c =? 58) && startswith [32] r then Some ([], drop 1 r)
      else match split_key r with
           | Some (k, v) => Some (c :: k, v)
           | None => None
           end
  end.

Definition entry_of (l : str) : option (str * str) := split_key l.

(** An empty document loads as Python's [None]. *)
Definition safe_load (text : str) : option (option yaml) :=
  match omap entry_of (split_lf text) with
  | [] => Some None
  | d => Some (Some (YMap d))
  end.

Definition truthy (v : yaml) : bool :=
  match v with
  | YStr [] | YMap [] => false
  | _ => true
  end.

Definition as_dict (v : yaml) : option (list (str * yaml)) :=
  match v with
  | YMap d => Some (map (fun kv => (fst kv, YStr (snd kv))) d)
  | YStr _ => None
  end.

Definition dump (d : list (str * yaml)) : str :=
  match d with
  | [] => lit "{}" ++ [10]
  | _ =>
      flat_map (fun kv => fst kv ++ lit ": "
                          ++ match snd kv with YStr s => s | YMap _ => lit "{}" end
                          ++ [10]) d
  end.

Definition host : Host :=
  {| md_parse := md_parse PlainHost.host;
     unicode_word := unicode_word PlainHost.host;
     unicode_lower := unicode_lower PlainHost.host;
     regex := regex PlainHost.host;
     re_escape := re_escape PlainHost.host;
     re_compile := re_compile PlainHost.host;
     re_error_text := re_error_text PlainHost.host;
     re_finditer := re_finditer PlainHost.host;
     yaml_available := true;
     yaml_value := yaml;
     yaml_safe_load := safe_load;
     yaml_truthy := truthy;
     yaml_as_dict := as_dict;
     yaml_dump := dump;
     mdformat_available := false;
     mdformat_text := fun _ => None;
     unified_diff := fun _ _ _ => [] |}.

(** [---], [title: x], [---], [# A]. *)
Definition titled_file : bytes :=
  PlainHost.file_of_lines ["---"; "title: x"; "---"; "# A"].
Definition titled_fs : FileSystem := PlainHost.one_file "a.md" titled_file.
Definition titled_doc : Document host :=
  Eval vm_compute in
    default (mkDocument "a.md" Utf8 LF [] [] [] [] [] [] None None)
      (load host titled_fs "a.md").

End YamlHost.

(* ===================================================================== *)
(** ** Properties *)
(* ===================================================================== *)

Ltac decide_ltb :=
  repeat match goal with
  | |- context [?a <? ?b] =>
      first [ replace (a <? b) with true by (symmetry; apply Z.ltb_lt; lia)
            | replace (a <? b) with false by (symmetry; apply Z.ltb_ge; lia) ]
  | |- context [?a <=? ?b] =>
      first [ replace (a <=? b) with true by (symmetry; apply Z.leb_le; lia)
            | replace (a <=? b) with false by (symmetry; apply Z.leb_gt; lia) ]
  end.

Lemma str_eqb_eq (a b : str) : str_eqb a b = true <-> a = b.
Proof. unfold str_eqb. apply bool_decide_eq_true. Qed.

Lemma str_eqb_neq (a b : str) : str_eqb a b = false <-> a <> b.
Proof. unfold str_eqb. apply bool_decide_eq_false. Qed.

Lemma str_eqb_refl (a : str) : str_eqb a a = true.
Proof. by apply str_eqb_eq. Qed.

(** What [load] records about the file it read. *)
Lemma load_inv (H : Host) (fs : FileSystem) (path : string) (doc : Document H) :
  load H fs path = Some doc ->
  exists raw,
    fs !! path = Some raw
    /\ detect_encoding raw = Some (encoding doc, content doc)
    /\ detect_eol (content doc) = (eol doc, lines doc)
    /\ sha256 doc = Sha256.hexdigest raw
    /\ file_path doc = path.
Proof.
  unfold load. intros Hl.
  destruct (fs !! path) as [raw|] eqn:Hraw; [|discriminate].
  destruct (detect_encoding raw) as [[enc text]|] eqn:Henc; [|discriminate].
  destruct (detect_eol text) as [e ls] eqn:Heol.
  destruct (parse_structure H text ls) as [[[[[secs cbs] tbs] fm] fml]|]; [|discriminate].
  injection Hl as <-. exists raw. simpl. auto.
Qed.

Section HashGate.

Context (H : Host).

(** C1. The hash gate: when the SHA-256 of the file that was loaded differs
    from [base_sha256], [md_apply] answers PRECONDITION_FAILED with the two
    hashes, whatever the edits are (none of them is looked at), and the file
    system is the one it was given. *)
Theorem hash_gate (fs : FileSystem) (path : string) (raw : bytes) (doc : Document H)
    (base_sha256 : str) (edits : list (Edit H))
    (atomic dry_run : bool) (format_mode : str)
    (preserve_eol preserve_encoding ensure_final_newline : bool) :
  fs !! path = Some raw ->
  load H fs path = Some doc ->
  Sha256.hexdigest raw <> base_sha256 ->
  md_apply H fs path base_sha256 edits atomic dry_run format_mode
    preserve_eol preserve_encoding ensure_final_newline
  = (ApplyFailed (Text (lit "SHA-256 mismatch (file changed)")) PRECONDITION_FAILED
       (Some base_sha256) (Some (Sha256.hexdigest raw)) None, fs)
  /\ forall edits',
       md_apply H fs path base_sha256 edits' atomic dry_run format_mode
         preserve_eol preserve_encoding ensure_final_newline
       = md_apply H fs path base_sha256 edits atomic dry_run format_mode
           preserve_eol preserve_encoding ensure_final_newline.
Proof.
  intros Hraw Hload Hne.
  destruct (load_inv H fs path doc Hload) as (raw' & Hraw' & _ & _ & Hsha & _).
  assert (raw' = raw) as -> by congruence.
  assert (str_eqb (sha256 doc) base_sha256 = false) as Hneq.
  { apply str_eqb_neq. by rewrite Hsha. }
  split; [|intros edits']; unfold md_apply; rewrite Hload, Hneq; simpl;
    rewrite ?Hsha; reflexivity.
Qed.

End HashGate.

Section ReplaceMatchFacts.

Context (H : Host).

(** C10. A [replace_match] edit with occurrence ["all"] and no
    [expectedMatches], whose pattern compiles and whose scope resolves, and
    for which the scan finds no match, returns [True] and leaves the editor
    as it was: same buffer, no new diagnostic, no new match. *)
Theorem replace_match_no_match_is_noop (doc : Document H) (ed : Editor)
    (a : ReplaceMatchArgs) (rx : regex H) (first last : Z) :
  rm_occurrence a = OccAll ->
  rm_expectedMatches a = None ->
  re_compile H (if rm_literal a then re_escape H (rm_pattern a) else rm_pattern a)
    (regex_flags_of (rm_flags a)) = Some rx ->
  resolve_scope doc (buffer ed) (rm_scope a) = inl (first, last) ->
  find_matches doc rx (rm_codeBlocks a) (rm_tables a) (buffer ed)
    (range first (last + 1)) = Some [] ->
  apply_replace_match H doc ed a = Some (true, ed)
  /\ apply_edit H doc ed (ReplaceMatch a) = Some (true, ed).
Proof.
  intros Hocc Hexp Hrx Hscope Hfound.
  assert (apply_replace_match H doc ed a = Some (true, ed)) as Hm.
  { unfold apply_replace_match. rewrite Hrx, Hscope. simpl.
    rewrite Hfound. simpl. rewrite Hexp, Hocc. simpl.
    destruct ed as [b d m]. unfold set_buffer. simpl. by rewrite app_nil_r. }
  split; [exact Hm | exact Hm].
Qed.

(** C8. When the pattern of a [replace_match] edit does not compile, the
    edit returns [False] and the diagnostic it appends carries the code
    INVALID_OPERATION; INVALID_REGEX is never used. *)
Theorem replace_match_bad_pattern (doc : Document H) (ed : Editor)
    (a : ReplaceMatchArgs) :
  re_compile H (if rm_literal a then re_escape H (rm_pattern a) else rm_pattern a)
    (regex_flags_of (rm_flags a)) = None ->
  exists d,
    apply_replace_match H doc ed a
    = Some (false, {| buffer := buffer ed;
                      diagnostics := diagnostics ed ++ [d];
                      matches := matches ed |})
    /\ code d = Some (Code INVALID_OPERATION)
    /\ bool_decide (code d = Some (Code INVALID_REGEX)) = false.
Proof.
  intros Hrx. unfold apply_replace_match. rewrite Hrx.
  eexists. split; [reflexivity|]. split; reflexivity.
Qed.

End ReplaceMatchFacts.

(* --------------------------------------------------------------------- *)
(** *** The fence validator *)
(* --------------------------------------------------------------------- *)

Lemma fence_step_alternating (st : list Z) (l : str) :
  alternating st = true -> alternating (fence_step st l) = true.
Proof.
  intros Hst. unfold fence_step.
  destruct (startswith (lit "```") (strip l) || startswith (lit "~~~") (strip l)); [|done].
  destruct (strip l) as [|c s]; [done|].
  destruct st as [|top below]; [done|].
  destruct (top =? c) eqn:Htop; simpl.
  - destruct below as [|b r]; [done|]. simpl in Hst.
    apply andb_true_iff in Hst as [_ Hst]. exact Hst.
  - rewrite Z.eqb_sym, Htop. simpl. exact Hst.
Qed.

Lemma fence_stack_alternating (ls : list str) (st : list Z) :
  alternating st = true -> alternating (fold_left fence_step ls st) = true.
Proof.
  revert st. induction ls as [|l ls IH]; intros st Hst; simpl; [done|].
  apply IH. by apply fence_step_alternating.
Qed.

(** C7, as the code has it.  A line is a fence line when its stripped
    form starts with three back-ticks or three tildes; any other line
    leaves the stack as it is.  The validator keeps one stack for both
    characters: a fence line, whose first character is then a back-tick or
    a tilde, closes the fence on top of the stack when that one has the
    same character (the top is popped) and opens a new one otherwise (its
    character is pushed), so the stack alternates between the two
    characters.  The stack is empty at the start and the lines are taken
    in order.  At the end of the file there is no diagnostic when the
    stack is empty and exactly one otherwise, whose message carries the
    number of fences left open. *)
Theorem validate_fences_one_stack (H : Host) (doc : Document H) :
  let fence_stack := fence_stack_of (lines doc) in
  (forall st l,
     startswith (lit "```") (strip l) = false ->
     startswith (lit "~~~") (strip l) = false ->
     fence_step st l = st)
  /\ (forall st l,
        startswith (lit "```") (strip l) = true
        \/ startswith (lit "~~~") (strip l) = true ->
        exists fence_char rest,
          strip l = fence_char :: rest
          /\ (fence_char = 96 \/ fence_char = 126)
          /\ fence_step st l
             = match st with
               | [] => [fence_char]
               | top :: below =>
                   if top =? fence_char then below else fence_char :: top :: below
               end)
  /\ fence_stack_of [] = []
  /\ (forall ls l, fence_stack_of (ls ++ [l]) = fence_step (fence_stack_of ls) l)
  /\ alternating fence_stack = true
  /\ (length (validate_fences doc) <= 1)%nat
  /\ (validate_fences doc = [] <-> fence_stack = [])
  /\ (forall d, d ∈ validate_fences doc ->
        severity d = SevError
        /\ code d = Some UNBALANCED_FENCE
        /\ message d = lit "Unbalanced code fence (" ++ str_of_int (len fence_stack)
                       ++ lit " unclosed)").
Proof.
  intros fence_stack. split; [|split; [|split; [|split; [|split; [|split; [|split]]]]]].
  - intros st l Hticks Htildes. unfold fence_step. by rewrite Hticks, Htildes.
  - intros st l Hfence. unfold fence_step.
    replace (startswith (lit "```") (strip l) || startswith (lit "~~~") (strip l))
      with true by (symmetry; by apply orb_true_iff).
    destruct (strip l) as [|c rest]; [by destruct Hfence|].
    exists c, rest. split; [done|]. split.
    + destruct Hfence as [Hf|Hf].
      * change (startswith (lit "```") (c :: rest))
          with ((96 =? c) && startswith [96; 96] rest) in Hf.
        apply andb_true_iff in Hf as [Hf _]. apply Z.eqb_eq in Hf. auto.
      * change (startswith (lit "~~~") (c :: rest))
          with ((126 =? c) && startswith [126; 126] rest) in Hf.
        apply andb_true_iff in Hf as [Hf _]. apply Z.eqb_eq in Hf. auto.
    + destruct st as [|top below]; [done|]. by destruct (top =? c).
  - reflexivity.
  - intros ls l. unfold fence_stack_of. by rewrite fold_left_app.
  - by apply fence_stack_alternating.
  - unfold validate_fences, validate_fences_lines.
    destruct (fence_stack_of (lines doc)); simpl; lia.
  - unfold validate_fences, validate_fences_lines. subst fence_stack.
    destruct (fence_stack_of (lines doc)); split; intros; done.
  - intros d Hd. unfold validate_fences, validate_fences_lines in Hd.
    subst fence_stack.
    destruct (fence_stack_of (lines doc)) eqn:Hs.
    + by apply elem_of_nil in Hd.
    + apply list_elem_of_singleton in Hd. subst d. simpl. auto.
Qed.

(** C7 fails as stated.  In a file of the four lines [```], [~~~], [```],
    [~~~] each character opens and closes once, so followed separately no
    fence is left open; the code stacks all four and reports an unbalanced
    fence.  In a file of the two lines [```], [~~~] two fences are left
    open; the code gives one diagnostic, not two. *)
Lemma validate_fences_counterexample :
  option_map (fun d => (length (validate_fences d), spec_unclosed_fences (lines d),
                        fence_stack_of (lines d)))
    (load PlainHost.host
       (PlainHost.one_file "a.md" (PlainHost.file_of_lines ["```"; "~~~"; "```"; "~~~"]))
       "a.md")
  = Some (1%nat, 0%nat, [126; 96; 126; 96])
  /\ option_map (fun d => (length (validate_fences d), spec_unclosed_fences (lines d),
                           fence_stack_of (lines d)))
       (load PlainHost.host
          (PlainHost.one_file "a.md" (PlainHost.file_of_lines ["```"; "~~~"]))
          "a.md")
     = Some (1%nat, 2%nat, [126; 96]).
Proof. split; vm_compute; reflexivity. Qed.

(* --------------------------------------------------------------------- *)
(** *** [replace_section]: where the replaced content ends *)
(* --------------------------------------------------------------------- *)

Section ContentEnd.

Context (H : Host).

Lemma find_none_forall {A} (p : A -> bool) (l : list A) :
  List.find p l = None <-> forall x, x ∈ l -> p x = false.
Proof.
  induction l as [|a l IH]; simpl.
  - split; [intros _ x Hx; by apply elem_of_nil in Hx | done].
  - destruct (p a) eqn:Hpa.
    + split; [done|]. intros Hall. rewrite Hall in Hpa; [done|]. by left.
    + rewrite IH. split.
      * intros Hall x Hx. apply elem_of_cons in Hx as [->|Hx]; auto.
      * intros Hall x Hx. apply Hall. by right.
Qed.

Lemma find_first {A} (p : A -> bool) (pre post : list A) (x : A) :
  (forall y, y ∈ pre -> p y = false) -> p x = true ->
  List.find p (pre ++ x :: post) = Some x.
Proof.
  induction pre as [|a pre IH]; intros Hpre Hx; simpl.
  - by rewrite Hx.
  - rewrite (Hpre a); [|by left]. apply IH; [|done].
    intros y Hy. apply Hpre. by right.
Qed.

(** C9, on the code.  Where the replaced content ends depends on how the
    edit names its section, which the claim rules out.  Without
    [keepSubsections] it ends at the section's [end_line].  With it, the
    code looks for subsections with the [headingPath] of the edit, not
    with the path of the section it resolved: an edit that carries no
    [headingPath] (one that names its section by [sectionId]) finds none,
    and its content ends at [end_line] whatever subsections the section
    has.  An edit that carries a path takes the first entry of the section
    list, in the order of the list, whose raw path strictly extends that
    path as it is written in the edit and which starts after the heading
    line of the section: the content ends on the line before it, and at
    [end_line] when there is no such entry. *)
Theorem content_end_rule (doc : Document H) (headingPath : option (list str))
    (keep_subsections : bool) (section : Section) :
  let content_end := content_end_of doc headingPath keep_subsections section in
  (keep_subsections = false -> content_end = end_line section)
  /\ (keep_subsections = true -> truthy headingPath = false ->
      content_end = end_line section)
  /\ (forall path,
        keep_subsections = true -> headingPath = Some path -> path <> [] ->
        0 <= heading_line section ->
        match List.find (is_subsection_of path section) (sections doc) with
        | Some s => content_end = start_line s - 1
        | None => content_end = end_line section
        end)
  /\ (forall path s,
        is_subsection_of path section s = true <->
        len path < len (heading_path s)
        /\ slice_to (len path) (heading_path s) = path
        /\ heading_line section < start_line s).
Proof.
  intros content_end. subst content_end. unfold content_end_of, subsection_start_of.
  split; [|split; [|split]].
  - by intros ->.
  - by intros -> ->.
  - intros path -> -> Hpath Hhl.
    destruct path as [|p0 path]; [done|]. cbn [truthy default].
    destruct (List.find _ _) as [s|] eqn:Hfind; [|done].
    apply find_some in Hfind as [_ Hs]. unfold is_subsection_of in Hs.
    apply andb_true_iff in Hs as [_ Hs]. apply Z.gtb_lt in Hs.
    destruct (start_line s =? 0) eqn:E; [|done].
    apply Z.eqb_eq in E. lia.
  - intros path s. unfold is_subsection_of.
    rewrite !andb_true_iff, bool_decide_eq_true, !Z.gtb_lt. tauto.
Qed.

End ContentEnd.

(** Three edits that keep the subsections on paper and lose them.  The
    file [# A], [intro], [## B], [x] has the section A (lines 0 to 4, the
    last one empty) and its subsection B, which starts at line 2.
    Addressed by [headingPath] the content of A ends at line 1 and B is
    kept.  Addressed by [sectionId], or by the path [a], which matches A
    in canonical form only, it ends at line 4 and B is replaced too. *)
Lemma replace_section_loses_subsections :
  let fs := PlainHost.one_file "a.md" (PlainHost.file_of_lines ["# A"; "intro"; "## B"; "x"]) in
  let by_id := ReplaceSection None (Some (lit "bc5d0fcc48719e93")) (Some (lit "new")) true in
  let by_path := ReplaceSection (Some [lit "A"]) None (Some (lit "new")) true in
  let by_canonical_path := ReplaceSection (Some [lit "a"]) None (Some (lit "new")) true in
  match load PlainHost.host fs "a.md" with
  | Some doc =>
      match get_section_by_id doc (lit "bc5d0fcc48719e93") with
      | Some section =>
          heading_path section = [lit "A"]
          /\ map (fun s => (heading_path s, start_line s, end_line s)) (sections doc)
             = [([lit "A"; lit "B"], 2, 4); ([lit "A"], 0, 4)]
          /\ content_end_of doc None true section = 4
          /\ content_end_of doc (Some [lit "A"]) true section = 1
          /\ resolve_section doc (Some [lit "a"]) None = inl section
          /\ content_end_of doc (Some [lit "a"]) true section = 4
          /\ option_map (fun r => buffer (snd r))
               (apply_edit PlainHost.host doc (new_editor doc) by_id)
             = Some [lit "# A"; lit "new"]
          /\ option_map (fun r => buffer (snd r))
               (apply_edit PlainHost.host doc (new_editor doc) by_canonical_path)
             = Some [lit "# A"; lit "new"]
          /\ option_map (fun r => buffer (snd r))
               (apply_edit PlainHost.host doc (new_editor doc) by_path)
             = Some [lit "# A"; lit "new"; lit "## B"; lit "x"; []]
      | None => False
      end
  | None => False
  end.
Proof. vm_compute. repeat split; reflexivity. Qed.

(** The section list is in the order in which the sections are closed, so
    the first entry that extends the path need not be the first
    subsection of the document.  In the file [# A], [## B], [b], [### C],
    [c], [## D], [d] the list is C, B, D, A: the search for A stops at C
    (line 3), the content ends at line 2, and the heading of B is replaced
    with the rest. *)
Lemma replace_section_closing_order :
  let fs := PlainHost.one_file "a.md"
              (PlainHost.file_of_lines ["# A"; "## B"; "b"; "### C"; "c"; "## D"; "d"]) in
  let by_path := ReplaceSection (Some [lit "A"]) None (Some (lit "new")) true in
  match load PlainHost.host fs "a.md" with
  | Some doc =>
      map (fun s => (heading_path s, start_line s)) (sections doc)
      = [([lit "A"; lit "B"; lit "C"], 3); ([lit "A"; lit "B"], 1);
         ([lit "A"; lit "D"], 5); ([lit "A"], 0)]
      /\ option_map (fun r => buffer (snd r))
           (apply_edit PlainHost.host doc (new_editor doc) by_path)
         = Some [lit "# A"; lit "new"; lit "### C"; lit "c"; lit "## D"; lit "d"; []]
  | None => False
  end.
Proof. vm_compute. repeat split; reflexivity. Qed.

(* --------------------------------------------------------------------- *)
(** *** Indices and slices *)
(* --------------------------------------------------------------------- *)

Lemma len_nonneg {A} (l : list A) : 0 <= len l.
Proof. unfold len. lia. Qed.

Lemma len_app {A} (l1 l2 : list A) : len (l1 ++ l2) = len l1 + len l2.
Proof. unfold len. rewrite length_app. lia. Qed.

Lemma index_in_range {A} (l : list A) (i : Z) :
  0 <= i < len l -> index l i = l !! Z.to_nat i.
Proof.
  intros Hi. unfold index.
  destruct (i <? 0) eqn:E; [apply Z.ltb_lt in E; lia|].
  replace (0 <=? i) with true by (symmetry; apply Z.leb_le; lia).
  replace (i <? len l) with true by (symmetry; apply Z.ltb_lt; lia).
  reflexivity.
Qed.

Lemma index_is_Some {A} (l : list A) (i : Z) :
  0 <= i < len l -> is_Some (index l i).
Proof.
  intros Hi. rewrite index_in_range by done.
  apply lookup_lt_is_Some. unfold len in Hi. lia.
Qed.

Lemma index_Some_nonneg {A} (l : list A) (i : Z) (x : A) :
  0 <= i -> index l i = Some x -> i < len l /\ l !! Z.to_nat i = Some x.
Proof.
  intros Hi. unfold index.
  destruct (i <? 0) eqn:E; [apply Z.ltb_lt in E; lia|].
  destruct (0 <=? i); [|done]. simpl.
  destruct (i <? len l) eqn:E2; [|done].
  apply Z.ltb_lt in E2. auto.
Qed.

Lemma setitem_in_range {A} (l : list A) (i : Z) (x : A) :
  0 <= i < len l -> setitem l i x = Some (<[Z.to_nat i := x]> l).
Proof.
  intros Hi. unfold setitem.
  destruct (i <? 0) eqn:E; [apply Z.ltb_lt in E; lia|].
  replace (0 <=? i) with true by (symmetry; apply Z.leb_le; lia).
  replace (i <? len l) with true by (symmetry; apply Z.ltb_lt; lia).
  reflexivity.
Qed.

Lemma slice_to_take {A} (l : list A) (j : Z) :
  0 <= j -> slice_to j l = take (Z.to_nat j) l.
Proof.
  intros Hj. unfold slice_to, slice, norm_bound.
  destruct (j <? 0) eqn:E; [apply Z.ltb_lt in E; lia|].
  rewrite drop_0, Z.sub_0_r. unfold len.
  destruct (Z.min_spec j (Z.of_nat (length l))) as [[Hlt ->]|[Hge ->]]; [done|].
  rewrite Nat2Z.id, !take_ge; [done| lia | lia].
Qed.

Lemma slice_from_drop {A} (l : list A) (i : Z) :
  0 <= i -> slice_from i l = drop (Z.to_nat i) l.
Proof.
  intros Hi. unfold slice_from, slice, norm_bound.
  destruct (i <? 0) eqn:E; [apply Z.ltb_lt in E; lia|].
  unfold len.
  destruct (Z.min_spec i (Z.of_nat (length l))) as [[Hlt ->]|[Hge ->]].
  - apply take_ge. rewrite length_drop. lia.
  - rewrite Nat2Z.id, Z.sub_diag. simpl. rewrite take_0.
    symmetry. apply drop_ge. lia.
Qed.

Lemma slice_to_all {A} (l : list A) (j : Z) : len l <= j -> slice_to j l = l.
Proof.
  intros Hj. pose proof (len_nonneg l).
  rewrite slice_to_take by lia. apply take_ge. unfold len in Hj. lia.
Qed.

Lemma slice_from_none {A} (l : list A) (i : Z) : len l <= i -> slice_from i l = [].
Proof.
  intros Hi. pose proof (len_nonneg l).
  rewrite slice_from_drop by lia. apply drop_ge. unfold len in Hi. lia.
Qed.

Lemma slice_between_take_drop {A} (l : list A) (i j : Z) :
  0 <= i <= j -> j <= len l ->
  slice_between i j l = take (Z.to_nat (j - i)) (drop (Z.to_nat i) l).
Proof.
  intros Hi Hj. unfold slice_between, slice, norm_bound.
  destruct (i <? 0) eqn:E; [apply Z.ltb_lt in E; lia|].
  destruct (j <? 0) eqn:E2; [apply Z.ltb_lt in E2; lia|].
  rewrite !Z.min_l by lia. reflexivity.
Qed.

Lemma range_elem (a b k : Z) : k ∈ range a b <-> a <= k < b.
Proof.
  unfold range. rewrite list_elem_of_fmap. split.
  - intros (n & -> & Hn). apply list_elem_of_In, in_seq in Hn. lia.
  - intros Hk. exists (Z.to_nat (k - a)). split; [lia|].
    apply list_elem_of_In, in_seq. lia.
Qed.

(* --------------------------------------------------------------------- *)
(** *** [replace_range] *)
(* --------------------------------------------------------------------- *)

Lemma range_text_is_Some (buf : list str) (s e : Position) :
  0 <= pos_line s < len buf -> 0 <= pos_line e < len buf ->
  is_Some (range_text buf s e).
Proof.
  intros Hs He. unfold range_text.
  destruct (index_is_Some buf _ Hs) as [ls Hls].
  destruct (index_is_Some buf _ He) as [le Hle].
  destruct (pos_line s =? pos_line e).
  - rewrite Hls. simpl. eauto.
  - rewrite Hls. simpl.
    assert (is_Some (mapM (index buf) (range (pos_line s + 1) (pos_line e)))) as [m Hm].
    { apply mapM_is_Some, Forall_forall. intros k Hk.
      apply range_elem in Hk. simpl. apply index_is_Some. lia. }
    rewrite Hm. simpl. rewrite Hle. simpl. eauto.
Qed.

Lemma range_replace_is_Some (buf : list str) (s e : Position) (r : str) :
  0 <= pos_line s < len buf -> 0 <= pos_line e < len buf ->
  is_Some (range_replace buf s e r).
Proof.
  intros Hs He. unfold range_replace.
  destruct (index_is_Some buf _ Hs) as [ls Hls].
  destruct (index_is_Some buf _ He) as [le Hle].
  destruct (pos_line s =? pos_line e).
  - rewrite Hls. simpl. rewrite setitem_in_range by done. eauto.
  - rewrite Hls. simpl. rewrite Hle. simpl. eauto.
Qed.

(** C3, as the code has it.  [replace_range] checks the two line numbers
    and nothing else.  A start or end line below zero or above the number
    of lines of the buffer fails with OUT_OF_RANGE and leaves the buffer as
    it was.  The columns are never checked: with both lines between 1 and
    the number of lines less one, the edit reads and replaces the text by
    slicing, whatever the columns, and can only fail on [expectedText]
    (with PRECONDITION_FAILED); on one line, columns past its end stand for
    its end, so the replacement is appended to the line. *)
Theorem replace_range_checks_lines_only (ed : Editor) (s e : Position)
    (replacement : str) (expected_text : option str) :
  let n := len (buffer ed) in
  let result := apply_replace_range ed s e replacement expected_text in
  (pos_line s < 0 \/ n < pos_line s ->
     result = fail_with ed
                (editor_error OUT_OF_RANGE
                   (lit "Start line " ++ str_of_int (pos_line s) ++ lit " out of range")
                   (Some (pos_line s))))
  /\ (1 <= pos_line s < n -> pos_line e < 0 \/ n < pos_line e ->
        result = fail_with ed
                   (editor_error OUT_OF_RANGE
                      (lit "End line " ++ str_of_int (pos_line e) ++ lit " out of range")
                      (Some (pos_line e))))
  /\ (1 <= pos_line s < n -> 1 <= pos_line e < n ->
        exists current_text b,
          range_text (buffer ed) s e = Some current_text
          /\ range_replace (buffer ed) s e replacement = Some b
          /\ ((expected_text = None \/ expected_text = Some current_text) ->
              result = Some (true, set_buffer ed b))
          /\ (forall t, expected_text = Some t -> t <> current_text ->
              result = fail_with ed
                         (editor_error PRECONDITION_FAILED
                            (lit "Expected text mismatch at line "
                             ++ str_of_int (pos_line s))
                            (Some (pos_line s)))))
  /\ (forall l, 1 <= pos_line s < n -> pos_line e = pos_line s ->
        index (buffer ed) (pos_line s) = Some l ->
        len l <= pos_col s -> len l <= pos_col e -> expected_text = None ->
        result = Some (true, set_buffer ed
                               (<[Z.to_nat (pos_line s) := l ++ replacement]> (buffer ed)))).
Proof.
  intros n result. subst n result. unfold apply_replace_range.
  split; [|split; [|split]].
  - intros Hs.
    replace ((pos_line s <? 0) || (pos_line s >=? len (buffer ed))) with true; [done|].
    symmetry. apply orb_true_iff. destruct Hs; [left; lia | right; lia].
  - intros Hs He.
    replace ((pos_line s <? 0) || (pos_line s >=? len (buffer ed))) with false
      by (symmetry; apply orb_false_iff; lia).
    replace ((pos_line e <? 0) || (pos_line e >=? len (buffer ed))) with true; [done|].
    symmetry. apply orb_true_iff. destruct He; [left; lia | right; lia].
  - intros Hs He.
    replace ((pos_line s <? 0) || (pos_line s >=? len (buffer ed))) with false
      by (symmetry; apply orb_false_iff; lia).
    replace ((pos_line e <? 0) || (pos_line e >=? len (buffer ed))) with false
      by (symmetry; apply orb_false_iff; lia).
    destruct (range_text_is_Some (buffer ed) s e) as [t Ht]; [lia|lia|].
    destruct (range_replace_is_Some (buffer ed) s e replacement) as [b Hb]; [lia|lia|].
    exists t, b. rewrite Ht, Hb. simpl. split; [done|]. split; [done|]. split.
    + intros [->| ->]; [done|]. by rewrite str_eqb_refl.
    + intros t' -> Hne. apply str_eqb_neq in Hne.
      rewrite (proj2 (str_eqb_neq t t')); [done|]. apply str_eqb_neq in Hne. congruence.
  - intros l Hs He Hl Hcs Hce ->.
    replace ((pos_line s <? 0) || (pos_line s >=? len (buffer ed))) with false
      by (symmetry; apply orb_false_iff; lia).
    replace ((pos_line e <? 0) || (pos_line e >=? len (buffer ed))) with false
      by (symmetry; apply orb_false_iff; lia).
    unfold range_text, range_replace. rewrite He, Z.eqb_refl, Hl. simpl.
    rewrite setitem_in_range by lia. simpl.
    rewrite slice_to_all, slice_from_none by done. by rewrite app_nil_r.
Qed.

(** C3 fails as stated.  On the buffer [ab], [cd], [ef] the range from
    line 1, column 10 to line 1, column 20 lies outside every line, whether
    lines and columns are counted from 0 or from 1; the edit succeeds and
    appends the replacement to [buffer[1]].  And the positions are used as
    they come, with no conversion: line 1, column 1 is the second character
    of the second line. *)
Lemma replace_range_counterexample :
  let ed := {| buffer := [lit "ab"; lit "cd"; lit "ef"]; diagnostics := []; matches := [] |} in
  apply_replace_range ed (mkPosition 1 10) (mkPosition 1 20) (lit "X") None
  = Some (true, {| buffer := [lit "ab"; lit "cdX"; lit "ef"];
                   diagnostics := []; matches := [] |})
  /\ apply_replace_range ed (mkPosition 1 1) (mkPosition 1 2) (lit "X") (Some (lit "d"))
     = Some (true, {| buffer := [lit "ab"; lit "cX"; lit "ef"];
                      diagnostics := []; matches := [] |})
  /\ convert_to_0_based 1 1 = (0, 0).
Proof. vm_compute. repeat split; reflexivity. Qed.

(* --------------------------------------------------------------------- *)
(** *** [replace_section]: the heading *)
(* --------------------------------------------------------------------- *)

Lemma split_lf_head (s : str) : exists rest, split_lf s = first_line s :: rest.
Proof.
  induction s as [|c r [rest IH]]; simpl; [by exists []|].
  destruct (c =? 10); [by eexists|]. rewrite IH. simpl. by eexists.
Qed.

Section ReplaceSectionFacts.

Context (H : Host).

(** C4, as the code has it.  For a [replace_section] edit that resolves to
    a section whose heading line is in the buffer, the line looked at is
    the first line of [markdown], empty or not: when it begins, trimmed,
    with a hash sign, the new lines take the place of the lines from
    [heading_line] to [content_end]; otherwise the heading line stays and
    the new lines take the place of the lines from [heading_line + 1] to
    [content_end]. *)
Theorem replace_section_heading_rule (doc : Document H) (ed : Editor)
    (headingPath : option (list str)) (sectionId : option str) (md : str)
    (keep_subsections : bool) (section : Section) (heading : str) :
  resolve_section doc headingPath sectionId = inl section ->
  0 <= heading_line section ->
  buffer ed !! Z.to_nat (heading_line section) = Some heading ->
  heading_line section <= content_end_of doc headingPath keep_subsections section ->
  let content_end := content_end_of doc headingPath keep_subsections section in
  let before := take (Z.to_nat (heading_line section)) (buffer ed) in
  let after := drop (Z.to_nat (content_end + 1)) (buffer ed) in
  let result :=
    apply_replace_section H doc ed headingPath sectionId (Some md) keep_subsections in
  (startswith (lit "#") (strip (first_line md)) = true ->
     result = Some (true, set_buffer ed (before ++ split_lf md ++ after)))
  /\ (startswith (lit "#") (strip (first_line md)) = false ->
        result = Some (true, set_buffer ed (before ++ [heading] ++ split_lf md ++ after))).
Proof.
  intros Hres Hhl Hheading Hce content_end before after result.
  subst result before after content_end.
  assert (heading_line section < len (buffer ed)) as Hlt.
  { apply lookup_lt_Some in Hheading. unfold len. lia. }
  unfold apply_replace_section. rewrite Hres.
  destruct (split_lf_head md) as [rest Hsplit].
  unfold has_heading_of. rewrite Hsplit.
  split; intros ->; simpl.
  - rewrite slice_to_take, slice_from_drop by lia. reflexivity.
  - rewrite index_in_range, Hheading by lia. simpl.
    rewrite slice_to_take, slice_from_drop by lia.
    replace (Z.to_nat (heading_line section + 1)) with (S (Z.to_nat (heading_line section))) by lia.
    rewrite (take_S_r _ _ heading) by done.
    by rewrite <- !app_assoc.
Qed.

End ReplaceSectionFacts.

(** C4 fails as stated.  In the text [markdown] below the first line is
    empty and the first line that is not empty is a heading; the code looks
    at the first line only, so it keeps the old heading and inserts the
    text, new heading included, after it. *)
Lemma replace_section_counterexample :
  let fs := PlainHost.one_file "a.md" (PlainHost.file_of_lines ["# Intro"; "old"]) in
  let md := [10] ++ lit "# New" ++ [10] ++ lit "body" in
  spec_has_heading md = true
  /\ has_heading_of (split_lf md) = false
  /\ match load PlainHost.host fs "a.md" with
     | Some doc =>
         option_map (fun r => (fst r, buffer (snd r)))
           (apply_edit PlainHost.host doc (new_editor doc)
              (ReplaceSection (Some [lit "Intro"]) None (Some md) false))
         = Some (true, [lit "# Intro"; []; lit "# New"; lit "body"])
     | None => False
     end.
Proof. vm_compute. repeat split; reflexivity. Qed.

(* --------------------------------------------------------------------- *)
(** *** Atomic batches *)
(* --------------------------------------------------------------------- *)

Section AtomicBatch.

Context (H : Host).

Lemma fail_with_inv (ed ed' : Editor) (d : Diagnostic) (b : bool) :
  fail_with ed d = Some (b, ed') ->
  b = false /\ buffer ed' = buffer ed /\ diagnostics ed' = diagnostics ed ++ [d].
Proof. unfold fail_with. intros [= <- <-]. simpl. auto. Qed.

Ltac fail_case :=
  match goal with
  | Hf : fail_with _ _ = Some (false, _) |- _ =>
      apply fail_with_inv in Hf as (_ & ? & ?); simpl in *; eauto
  end.

(** An edit that returns [False] has left the buffer as it found it and
    appended one diagnostic. *)
Lemma failed_edit_appends_diagnostic (doc : Document H) (ed ed' : Editor)
    (edit : Edit H) :
  apply_edit H doc ed edit = Some (false, ed') ->
  buffer ed' = buffer ed /\ exists d, diagnostics ed' = diagnostics ed ++ [d].
Proof.
  destruct edit as [s e r x|a|hp sid md keep|hp sid md pos blank|sv rk|op]; simpl.
  - unfold apply_replace_range.
    destruct (_ || _); [intros; fail_case|].
    destruct (_ || _); [intros; fail_case|].
    destruct (range_text _ _ _); simpl; [|done].
    destruct (match x with Some _ => _ | None => _ end); [intros; fail_case|].
    destruct (range_replace _ _ _ _); simpl; done.
  - unfold apply_replace_match.
    destruct (re_compile _ _ _); [|intros; fail_case].
    destruct (resolve_scope _ _ _) as [[first last]|d]; [|intros; fail_case].
    destruct (find_matches _ _ _ _ _ _); simpl; [|done].
    destruct (match rm_expectedMatches a with Some _ => _ | None => _ end).
    { destruct (_ =? 0); intros; fail_case. }
    destruct (rm_occurrence a).
    + destruct (replace_each _ _ _); simpl; done.
    + destruct (_ || _); [intros; fail_case|].
      destruct (index _ _); simpl; [|done].
      destruct (replace_found _ _ _); simpl; done.
    + intros; fail_case.
  - unfold apply_replace_section.
    destruct md; [|intros; fail_case].
    destruct (resolve_section _ _ _); [|intros; fail_case].
    destruct (negb _); [|done].
    destruct (index _ _); simpl; done.
  - unfold apply_insert_after_heading.
    destruct md; [|intros; fail_case].
    destruct (resolve_section _ _ _); [|intros; fail_case].
    destruct (if str_eqb pos _ then _ else _); [|intros; fail_case].
    destruct (_ && _); simpl; [|done].
    destruct (index _ _); simpl; done.
  - unfold apply_update_front_matter.
    destruct (negb _); [intros; fail_case|].
    destruct (match front_matter doc with Some _ => _ | None => _ end); simpl; [|done].
    destruct (front_matter_lines doc) as [[? ?]|]; done.
  - intros; fail_case.
Qed.

(** The loop of the atomic mode, when an edit returns [False]. *)
Lemma run_edits_atomic_failure (doc : Document H) (pre post : list (Edit H))
    (edit : Edit H) (ed ed0 ed1 : Editor) (i n : Z) :
  apply_all doc ed pre = Some ed0 ->
  apply_edit H doc ed0 edit = Some (false, ed1) ->
  run_edits H doc true i (pre ++ edit :: post) ed n = LoopFailedAt (i + len pre) ed1.
Proof.
  revert ed i n. induction pre as [|p pre IH]; intros ed i n Hpre Hedit; simpl in *.
  - injection Hpre as ->. rewrite Hedit. simpl. f_equal. unfold len. simpl. lia.
  - destruct (apply_edit H doc ed p) as [[[] ed']|]; try done. simpl.
    rewrite (IH ed' (i + 1) (n + 1) Hpre Hedit). f_equal.
    unfold len. simpl. lia.
Qed.

(** The loop of the atomic mode, when an edit raises. *)
Lemma run_edits_atomic_raise (doc : Document H) (pre post : list (Edit H))
    (edit : Edit H) (ed ed0 : Editor) (i n : Z) :
  apply_all doc ed pre = Some ed0 ->
  apply_edit H doc ed0 edit = None ->
  run_edits H doc true i (pre ++ edit :: post) ed n = LoopRaised.
Proof.
  revert ed i n. induction pre as [|p pre IH]; intros ed i n Hpre Hedit; simpl in *.
  - injection Hpre as ->. by rewrite Hedit.
  - destruct (apply_edit H doc ed p) as [[[] ed']|]; try done. simpl.
    by apply IH.
Qed.

(** The loop of the atomic mode ends normally exactly when every edit has
    returned [True]. *)
Lemma run_edits_atomic_done (doc : Document H) (edits : list (Edit H))
    (ed ed' : Editor) (i n n' : Z) :
  run_edits H doc true i edits ed n = LoopDone ed' n' <->
  apply_all doc ed edits = Some ed' /\ n' = n + len edits.
Proof.
  revert ed i n. induction edits as [|e edits IH]; intros ed i n; simpl.
  - unfold len. simpl. split.
    + intros [= -> ->]. split; [done|lia].
    + intros [[= ->] ->]. f_equal. lia.
  - destruct (apply_edit H doc ed e) as [[[] ed1]|]; simpl.
    + rewrite IH. unfold len. simpl. split; intros [? ->]; (split; [done|lia]).
    + split; [done|]. by intros [? _].
    + split; [done|]. by intros [? _].
Qed.

(** C2, as the code has it.  In atomic mode, once the file is loaded and
    its hash is the expected one: (a) when an edit returns [False] after
    the edits before it have succeeded, [md_apply] answers
    CONFLICTING_EDITS with the diagnostics of the editor, the last of which
    is the one that edit appended, and the file system is unchanged;
    (b) when every edit succeeds and neither the formatter nor the encoder
    fails, the result is ok, it counts every edit, and the bytes written
    (unless [dry_run]) are those of the buffer after the last edit;
    (c) whenever the result is not ok the file system is unchanged;
    (d) whenever the result is ok every edit has been applied;
    (e) the other failures are not CONFLICTING_EDITS: an edit that raises,
    or an encoder that raises, gives IO_ERROR, and a formatter that raises
    gives MARKDOWN_BROKEN. *)
Theorem atomic_none_or_all (fs : FileSystem) (path : string) (doc : Document H)
    (base_sha256 : str) (edits : list (Edit H)) (dry_run : bool) (format_mode : str)
    (preserve_eol preserve_encoding ensure_final_newline : bool) :
  load H fs path = Some doc ->
  sha256 doc = base_sha256 ->
  let r := md_apply H fs path base_sha256 edits true dry_run format_mode
             preserve_eol preserve_encoding ensure_final_newline in
  (forall pre edit post ed0 ed1,
      edits = pre ++ edit :: post ->
      apply_all doc (new_editor doc) pre = Some ed0 ->
      apply_edit H doc ed0 edit = Some (false, ed1) ->
      r = (ApplyFailed (Text (lit "Edit " ++ str_of_int (len pre) ++ lit " failed"))
             CONFLICTING_EDITS None None (Some (diagnostics ed1)), fs)
      /\ buffer ed1 = buffer ed0
      /\ exists d, diagnostics ed1 = diagnostics ed0 ++ [d])
  /\ (forall ed new_content new_bytes,
        apply_all doc (new_editor doc) edits = Some ed ->
        format_content H true format_mode (get_content doc ed) = Some new_content ->
        encode (if preserve_encoding then encoding doc else Utf8)
          (with_final_newline doc ensure_final_newline new_content) = Some new_bytes ->
        r = (ApplyOk path (Sha256.hexdigest new_bytes)
               (unified_diff H (content doc)
                  (with_final_newline doc ensure_final_newline new_content) path)
               (len edits) dry_run
               (map (fun m => (m_line m, m_col m, m_text m)) (matches ed))
               (diagnostics ed),
             if dry_run then fs else <[path := new_bytes]> fs))
  /\ (forall error errorCode expected actual diags,
        fst r = ApplyFailed error errorCode expected actual diags -> snd r = fs)
  /\ (forall p sha diff n dry ms ds,
        fst r = ApplyOk p sha diff n dry ms ds ->
        n = len edits
        /\ exists ed, apply_all doc (new_editor doc) edits = Some ed
                      /\ ds = diagnostics ed)
  /\ (forall pre edit post ed0,
        edits = pre ++ edit :: post ->
        apply_all doc (new_editor doc) pre = Some ed0 ->
        apply_edit H doc ed0 edit = None ->
        r = (ApplyFailed OfException IO_ERROR None None None, fs))
  /\ (forall ed,
        apply_all doc (new_editor doc) edits = Some ed ->
        format_content H true format_mode (get_content doc ed) = None ->
        r = (ApplyFailed FormattingFailed MARKDOWN_BROKEN None None None, fs))
  /\ (forall ed new_content,
        apply_all doc (new_editor doc) edits = Some ed ->
        format_content H true format_mode (get_content doc ed) = Some new_content ->
        encode (if preserve_encoding then encoding doc else Utf8)
          (with_final_newline doc ensure_final_newline new_content) = None ->
        r = (ApplyFailed OfException IO_ERROR None None None, fs)).
Proof.
  intros Hload Hsha r.
  destruct (load_inv H fs path doc Hload) as (raw & Hraw & _ & _ & _ & Hpath).
  assert (str_eqb (sha256 doc) base_sha256 = true) as Heq by by apply str_eqb_eq.
  subst r. unfold md_apply. rewrite Hload, Heq. simpl.
  split; [|split; [|split; [|split; [|split; [|split]]]]].
  - intros pre edit post ed0 ed1 -> Hpre Hedit.
    rewrite (run_edits_atomic_failure doc pre post edit _ ed0 ed1 0 0 Hpre Hedit).
    rewrite Z.add_0_l. split; [done|].
    by apply (failed_edit_appends_diagnostic doc ed0 ed1 edit).
  - intros ed new_content new_bytes Hall Hfmt Henc.
    rewrite (proj2 (run_edits_atomic_done doc edits (new_editor doc) ed 0 0 (len edits)));
      [|split; [done|lia]].
    rewrite Hfmt, Henc, Hpath. reflexivity.
  - intros error errorCode expected actual diags.
    destruct (run_edits H doc true 0 edits (new_editor doc) 0); simpl; try done.
    destruct (format_content _ _ _ _); simpl; try done.
    destruct (encode _ _); simpl; done.
  - intros p sha diff n dry ms ds.
    destruct (run_edits H doc true 0 edits (new_editor doc) 0) as [|i ed|ed k] eqn:Hrun;
      simpl; try done.
    apply run_edits_atomic_done in Hrun as [Hall ->].
    destruct (format_content _ _ _ _); simpl; try done.
    destruct (encode _ _); simpl; try done.
    intros [= _ _ _ <- _ _ <-]. split; [lia|]. by exists ed.
  - intros pre edit post ed0 -> Hpre Hedit.
    by rewrite (run_edits_atomic_raise doc pre post edit _ ed0 0 0 Hpre Hedit).
  - intros ed Hall Hfmt.
    rewrite (proj2 (run_edits_atomic_done doc edits (new_editor doc) ed 0 0 (len edits)));
      [|split; [done|lia]].
    by rewrite Hfmt.
  - intros ed new_content Hall Hfmt Henc.
    rewrite (proj2 (run_edits_atomic_done doc edits (new_editor doc) ed 0 0 (len edits)));
      [|split; [done|lia]].
    by rewrite Hfmt, Henc.
Qed.

End AtomicBatch.


(* --------------------------------------------------------------------- *)
(** *** The codecs give the bytes back *)
(* --------------------------------------------------------------------- *)

Lemma b2z_range (b : byte) : 0 <= b2z b <= 255.
Proof. unfold b2z. pose proof (Byte.to_N_bounded b). lia. Qed.

Lemma z2b_b2z (b : byte) : z2b (b2z b) = b.
Proof. unfold z2b, b2z. by rewrite N2Z.id, Byte.of_to_N. Qed.

Lemma encode_char_1 (x0 : Z) :
  0 <= x0 < 128 -> encode_utf8_char x0 = Some [z2b x0].
Proof. intros. unfold encode_utf8_char. decide_ltb. reflexivity. Qed.

Lemma encode_char_2 (x0 x1 : Z) :
  194 <= x0 < 224 -> 128 <= x1 < 192 ->
  encode_utf8_char ((x0 - 192) * 64 + (x1 - 128)) = Some [z2b x0; z2b x1].
Proof.
  intros. unfold encode_utf8_char. decide_ltb.
  repeat f_equal; Z.div_mod_to_equations; lia.
Qed.

Lemma encode_char_3 (x0 x1 x2 : Z) :
  224 <= x0 < 240 -> 128 <= x1 < 192 -> 128 <= x2 < 192 ->
  ~ (x0 = 224 /\ x1 < 160) -> ~ (x0 = 237 /\ 160 <= x1) ->
  encode_utf8_char ((x0 - 224) * 4096 + (x1 - 128) * 64 + (x2 - 128))
  = Some [z2b x0; z2b x1; z2b x2].
Proof.
  intros. unfold encode_utf8_char. decide_ltb.
  replace ((55296 <=? (x0 - 224) * 4096 + (x1 - 128) * 64 + (x2 - 128))
           && ((x0 - 224) * 4096 + (x1 - 128) * 64 + (x2 - 128) <=? 57343))
    with false.
  2:{ symmetry. apply andb_false_iff.
      destruct (Z.lt_ge_cases ((x0 - 224) * 4096 + (x1 - 128) * 64 + (x2 - 128)) 55296);
        [left; apply Z.leb_gt; lia | right; apply Z.leb_gt; lia]. }
  repeat f_equal; Z.div_mod_to_equations; lia.
Qed.

Lemma encode_char_4 (x0 x1 x2 x3 : Z) :
  240 <= x0 < 245 -> 128 <= x1 < 192 -> 128 <= x2 < 192 -> 128 <= x3 < 192 ->
  ~ (x0 = 240 /\ x1 < 144) -> ~ (x0 = 244 /\ 144 <= x1) ->
  encode_utf8_char ((x0 - 240) * 262144 + (x1 - 128) * 4096 + (x2 - 128) * 64 + (x3 - 128))
  = Some [z2b x0; z2b x1; z2b x2; z2b x3].
Proof.
  intros. unfold encode_utf8_char. decide_ltb.
  repeat f_equal; Z.div_mod_to_equations; lia.
Qed.

Lemma is_cont_range (x : Z) : is_cont x = true -> 128 <= x < 192.
Proof. unfold is_cont. intros [? ?]%andb_true_iff. lia. Qed.

Lemma guard_false (x0 x1 a b : Z) (lt : bool) :
  negb ((x0 =? a) && (if lt then x1 <? b else b <=? x1)) = true ->
  ~ (x0 = a /\ (if lt then x1 < b else b <= x1)).
Proof.
  intros Hg [-> Hx]. rewrite Z.eqb_refl in Hg. simpl in Hg.
  apply negb_true_iff in Hg. destruct lt; [apply Z.ltb_ge in Hg | apply Z.leb_gt in Hg]; lia.
Qed.

(** Strict UTF-8 decoding loses nothing: encoding the text gives the bytes
    that were decoded. *)
Lemma encode_decode_utf8 (bs : bytes) (s : str) :
  decode_utf8 bs = Some s -> encode_utf8 s = Some bs.
Proof.
  remember (length bs) as n eqn:Hn. revert bs s Hn.
  induction n as [n IH] using lt_wf_ind. intros bs s Hn.
  destruct bs as [|b0 r0]; simpl.
  { by intros [= <-]. }
  pose proof (b2z_range b0) as R0.
  destruct (b2z b0 <? 128) eqn:E1.
  { apply Z.ltb_lt in E1.
    destruct (decode_utf8 r0) as [s'|] eqn:Hd; [|done]. intros [= <-]. simpl.
    rewrite encode_char_1 by lia.
    rewrite (IH (length r0)) with (bs := r0) (s := s'); [|simpl in Hn; lia|done|done].
    simpl. by rewrite z2b_b2z. }
  apply Z.ltb_ge in E1.
  destruct (b2z b0 <? 194) eqn:E2; [done|]. apply Z.ltb_ge in E2.
  destruct (b2z b0 <? 224) eqn:E3.
  { apply Z.ltb_lt in E3.
    destruct r0 as [|b1 r1]; [done|].
    destruct (is_cont (b2z b1)) eqn:C1; [|done]. apply is_cont_range in C1.
    destruct (decode_utf8 r1) as [s'|] eqn:Hd; [|done]. intros [= <-]. simpl.
    rewrite encode_char_2 by lia.
    rewrite (IH (length r1)) with (bs := r1) (s := s'); [|simpl in Hn; lia|done|done].
    simpl. by rewrite !z2b_b2z. }
  apply Z.ltb_ge in E3.
  destruct (b2z b0 <? 240) eqn:E4.
  { apply Z.ltb_lt in E4.
    destruct r0 as [|b1 [|b2 r2]]; [done|done|].
    destruct (is_cont (b2z b1)) eqn:C1; [|done]. apply is_cont_range in C1.
    destruct (is_cont (b2z b2)) eqn:C2; [|done]. apply is_cont_range in C2.
    simpl.
    destruct (negb ((b2z b0 =? 224) && (b2z b1 <? 160))) eqn:G1; [|done].
    destruct (negb ((b2z b0 =? 237) && (160 <=? b2z b1))) eqn:G2; [|done].
    apply (guard_false _ _ _ _ true) in G1. apply (guard_false _ _ _ _ false) in G2.
    simpl.
    destruct (decode_utf8 r2) as [s'|] eqn:Hd; [|done]. intros [= <-]. simpl.
    rewrite encode_char_3 by (done || lia).
    rewrite (IH (length r2)) with (bs := r2) (s := s'); [|simpl in Hn; lia|done|done].
    simpl. by rewrite !z2b_b2z. }
  apply Z.ltb_ge in E4.
  destruct (b2z b0 <? 245) eqn:E5; [|done]. apply Z.ltb_lt in E5.
  destruct r0 as [|b1 [|b2 [|b3 r3]]]; [done|done|done|].
  destruct (is_cont (b2z b1)) eqn:C1; [|done]. apply is_cont_range in C1.
  destruct (is_cont (b2z b2)) eqn:C2; [|done]. apply is_cont_range in C2.
  destruct (is_cont (b2z b3)) eqn:C3; [|done]. apply is_cont_range in C3.
  simpl.
  destruct (negb ((b2z b0 =? 240) && (b2z b1 <? 144))) eqn:G1; [|done].
  destruct (negb ((b2z b0 =? 244) && (144 <=? b2z b1))) eqn:G2; [|done].
  apply (guard_false _ _ _ _ true) in G1. apply (guard_false _ _ _ _ false) in G2.
  simpl.
  destruct (decode_utf8 r3) as [s'|] eqn:Hd; [|done]. intros [= <-]. simpl.
  rewrite encode_char_4 by (done || lia).
  rewrite (IH (length r3)) with (bs := r3) (s := s'); [|simpl in Hn; lia|done|done].
  simpl. by rewrite !z2b_b2z.
Qed.

Lemma encode_decode_latin1 (bs : bytes) : encode_latin1 (decode_latin1 bs) = Some bs.
Proof.
  unfold decode_latin1.
  induction bs as [|b bs IH]; [done|]. cbn [map encode_latin1].
  pose proof (b2z_range b).
  replace ((0 <=? b2z b) && (b2z b <? 256)) with true
    by (symmetry; apply andb_true_iff; lia).
  by rewrite IH, z2b_b2z.
Qed.

Lemma encode_utf8_app (s t : str) :
  encode_utf8 (s ++ t)
  = match encode_utf8 s, encode_utf8 t with
    | Some a, Some b => Some (a ++ b)
    | _, _ => None
    end.
Proof.
  induction s as [|c s IH]; simpl.
  - by destruct (encode_utf8 t).
  - rewrite IH. destruct (encode_utf8_char c) as [bc|]; [|done].
    destruct (encode_utf8 s) as [a|]; [|done].
    destruct (encode_utf8 t) as [b|]; [|done].
    by rewrite app_assoc.
Qed.

Lemma encode_latin1_app (s t : str) :
  encode_latin1 (s ++ t)
  = match encode_latin1 s, encode_latin1 t with
    | Some a, Some b => Some (a ++ b)
    | _, _ => None
    end.
Proof.
  induction s as [|c s IH]; simpl.
  - by destruct (encode_latin1 t).
  - rewrite IH. destruct ((0 <=? c) && (c <? 256)); [|done].
    destruct (encode_latin1 s) as [a|]; [|done].
    by destruct (encode_latin1 t).
Qed.

Lemma encode_eol (enc : Encoding) (e : Eol) (text : str) (raw : bytes) :
  encode enc text = Some raw ->
  encode enc (text ++ match e with LF => [10] | CRLF => [13; 10] end)
  = Some (raw ++ eol_bytes e).
Proof.
  destruct enc; simpl.
  - intros Ht. rewrite encode_utf8_app, Ht. by destruct e.
  - destruct (encode_utf8 text) as [a|] eqn:Ht; [|done]. intros [= <-].
    rewrite encode_utf8_app, Ht. destruct e; reflexivity.
  - intros Ht. rewrite encode_latin1_app, Ht. by destruct e.
Qed.

Lemma starts_with_bom_inv (raw : bytes) :
  starts_with_bom raw = true -> raw = bom ++ drop 3 raw.
Proof.
  destruct raw as [|b0 [|b1 [|b2 r]]]; simpl; try done.
  intros [[E0 E1]%andb_true_iff E2]%andb_true_iff.
  apply Z.eqb_eq in E0, E1, E2.
  rewrite <- (z2b_b2z b0), <- (z2b_b2z b1), <- (z2b_b2z b2), E0, E1, E2.
  reflexivity.
Qed.

(** The encoding and the text the loader records give back the bytes of
    the file. *)
Lemma encode_detect_encoding (raw : bytes) (enc : Encoding) (text : str) :
  detect_encoding raw = Some (enc, text) -> encode enc text = Some raw.
Proof.
  unfold detect_encoding.
  destruct (starts_with_bom raw) eqn:Hbom.
  - destruct (decode_utf8 (drop 3 raw)) as [s|] eqn:Hd; [|done].
    intros [= <- <-]. cbn [encode]. rewrite (encode_decode_utf8 _ _ Hd).
    f_equal. symmetry. by apply starts_with_bom_inv.
  - destruct (decode_utf8 raw) as [s|] eqn:Hd.
    + intros [= <- <-]. simpl. by apply encode_decode_utf8.
    + intros [= <- <-]. simpl. apply encode_decode_latin1.
Qed.

(* --------------------------------------------------------------------- *)
(** *** Splitting into lines and joining them again *)
(* --------------------------------------------------------------------- *)

Lemma join_cons (sep l : str) (ls : list str) :
  ls <> [] -> join sep (l :: ls) = l ++ sep ++ join sep ls.
Proof. destruct ls; [done|]. reflexivity. Qed.

Lemma join_push_head (sep : str) (c : Z) (ls : list str) :
  ls <> [] -> join sep (push_head c ls) = c :: join sep ls.
Proof. destruct ls as [|l [|l' ls]]; [done| |]; reflexivity. Qed.

Lemma split_lf_nonempty (s : str) : split_lf s <> [].
Proof. destruct (split_lf_head s) as [rest ->]. done. Qed.

Lemma split_crlf_step (c d : Z) (r : str) :
  split_crlf (c :: d :: r)
  = if (c =? 13) && (d =? 10) then [] :: split_crlf r
    else push_head c (split_crlf (d :: r)).
Proof. reflexivity. Qed.

Lemma split_crlf_nonempty (s : str) : split_crlf s <> [].
Proof.
  assert (forall ls c, push_head c ls <> []) as Hp by (by intros [|? ?] ?).
  destruct s as [|c [|d r]]; [done|apply (Hp [[]])|].
  rewrite split_crlf_step.
  destruct ((c =? 13) && (d =? 10)); [done|apply Hp].
Qed.

Lemma join_split_lf (s : str) : join [10] (split_lf s) = s.
Proof.
  induction s as [|c r IH]; simpl; [done|].
  destruct (c =? 10) eqn:E.
  - apply Z.eqb_eq in E. subst c.
    rewrite join_cons by apply split_lf_nonempty. simpl. by rewrite IH.
  - rewrite join_push_head by apply split_lf_nonempty. by rewrite IH.
Qed.

Lemma join_split_crlf (s : str) : join [13; 10] (split_crlf s) = s.
Proof.
  remember (length s) as n eqn:Hn. revert s Hn.
  induction n as [n IH] using lt_wf_ind. intros s Hn.
  destruct s as [|c [|d r]]; [done|done|].
  rewrite split_crlf_step.
  destruct ((c =? 13) && (d =? 10)) eqn:E.
  - apply andb_true_iff in E as [->%Z.eqb_eq ->%Z.eqb_eq].
    rewrite join_cons by apply split_crlf_nonempty. simpl.
    rewrite (IH (length r)); [done|simpl in Hn; lia|done].
  - rewrite join_push_head by apply split_crlf_nonempty.
    rewrite (IH (length (d :: r))); [done|simpl in Hn; simpl; lia|done].
Qed.

(** Joining the lines with the line ending that was detected gives the
    text back. *)
Lemma join_detect_eol (text : str) (e : Eol) (ls : list str) :
  detect_eol text = (e, ls) -> join (eol_seq e) ls = text.
Proof.
  unfold detect_eol. destruct (contains [13; 10] text); intros [= <- <-]; simpl.
  - apply join_split_crlf.
  - apply join_split_lf.
Qed.

(* --------------------------------------------------------------------- *)
(** *** The final line feed, in the text and in the bytes *)
(* --------------------------------------------------------------------- *)

Lemma b2z_z2b (z : Z) : 0 <= z <= 255 -> b2z (z2b z) = z.
Proof.
  intros Hz. unfold z2b, b2z.
  destruct (Byte.of_N (Z.to_N z)) as [b|] eqn:E.
  - apply Byte.to_of_N in E. rewrite E. lia.
  - apply Byte.of_N_None_iff in E. lia.
Qed.

Lemma z2b_is_lf (z : Z) : 0 <= z <= 255 -> (z = 10 <-> z2b z = x0a).
Proof.
  intros Hz. split; [by intros ->|].
  intros E. apply (f_equal b2z) in E. rewrite b2z_z2b in E by done. exact E.
Qed.

Lemma endswith_lf (s : str) : endswith [10] s = true <-> last s = Some 10.
Proof.
  unfold endswith. destruct s as [|c s _] using rev_ind; [done|].
  rewrite rev_app_distr, last_snoc.
  change (startswith (rev [10]) (rev [c] ++ rev s)) with ((10 =? c) && true).
  rewrite andb_true_r, Z.eqb_eq. split; [by intros <-|by intros [= ->]].
Qed.

Lemma last_encode_utf8_char (c : Z) (bc : bytes) :
  encode_utf8_char c = Some bc ->
  exists b, last bc = Some b /\ (c = 10 <-> b = x0a).
Proof.
  unfold encode_utf8_char.
  destruct (c <? 0) eqn:E0; [done|]. apply Z.ltb_ge in E0.
  destruct (c <? 128) eqn:E1.
  { apply Z.ltb_lt in E1. intros [= <-]. eexists. split; [reflexivity|].
    apply z2b_is_lf. lia. }
  apply Z.ltb_ge in E1.
  assert (forall z, 128 <= z <= 255 -> c = 10 <-> z2b z = x0a) as Hhigh.
  { intros z Hz. split; [lia|]. intros E%z2b_is_lf; lia. }
  destruct (c <? 2048).
  { intros [= <-]. eexists. split; [reflexivity|].
    apply Hhigh. Z.div_mod_to_equations. lia. }
  destruct (c <? 65536).
  { destruct (_ && _); [done|]. intros [= <-]. eexists. split; [reflexivity|].
    apply Hhigh. Z.div_mod_to_equations. lia. }
  destruct (c <? 1114112); [|done].
  intros [= <-]. eexists. split; [reflexivity|].
  apply Hhigh. Z.div_mod_to_equations. lia.
Qed.

Lemma last_encode_utf8 (s : str) (bs : bytes) :
  encode_utf8 s = Some bs -> same_end s bs.
Proof.
  unfold same_end. revert bs. induction s as [|c s IH]; intros bs; simpl.
  { by intros [= <-]. }
  destruct (encode_utf8_char c) as [bc|] eqn:Hc; [|done].
  destruct (encode_utf8 s) as [bs'|]; [|done]. intros [= <-].
  specialize (IH bs' eq_refl).
  destruct (last_encode_utf8_char c bc Hc) as (b & Hb & Hcb).
  rewrite last_cons, last_app.
  destruct (last s), (last bs'); try done. by rewrite Hb.
Qed.

Lemma last_encode_latin1 (s : str) (bs : bytes) :
  encode_latin1 s = Some bs -> same_end s bs.
Proof.
  unfold same_end. revert bs. induction s as [|c s IH]; intros bs; simpl.
  { by intros [= <-]. }
  destruct ((0 <=? c) && (c <? 256)) eqn:Hc; [|done].
  apply andb_true_iff in Hc as [Hc0%Z.leb_le Hc1%Z.ltb_lt].
  destruct (encode_latin1 s) as [bs'|]; [|done]. intros [= <-].
  specialize (IH bs' eq_refl).
  rewrite !last_cons.
  destruct (last s), (last bs'); try done. apply z2b_is_lf. lia.
Qed.

(** The text ends with a line feed exactly when the bytes of the file do. *)
Lemma final_newline_bytes (enc : Encoding) (text : str) (raw : bytes) :
  encode enc text = Some raw ->
  endswith [10] text = true <-> last raw = Some x0a.
Proof.
  rewrite endswith_lf. destruct enc; simpl.
  - intros Hs%last_encode_utf8. unfold same_end in Hs.
    destruct (last text), (last raw); try done.
    split; intros [= ->]; f_equal; by apply Hs.
  - destruct (encode_utf8 text) as [bs|] eqn:Ht; [|done]. intros [= <-].
    apply last_encode_utf8 in Ht. unfold same_end in Ht.
    change (xef :: xbb :: xbf :: bs) with ([xef; xbb; xbf] ++ bs).
    rewrite last_app.
    destruct (last text), (last bs); try done.
    split; intros [= ->]; f_equal; by apply Ht.
  - intros Hs%last_encode_latin1. unfold same_end in Hs.
    destruct (last text), (last raw); try done.
    split; intros [= ->]; f_equal; by apply Hs.
Qed.

(* --------------------------------------------------------------------- *)
(** *** The empty batch *)
(* --------------------------------------------------------------------- *)

Section NoOp.

Context (H : Host).

(** C5. [md_apply] with the hash of the file, no edit, [dry_run] off and
    the other arguments at their defaults ([format_mode] ['none'],
    [preserve_encoding] on) leaves a file with the bytes it had, hence with
    the same SHA-256; or, when [ensure_final_newline] is on and the file
    did not end with a line feed, with those bytes followed by one line
    ending (LF, or CR LF for a file that uses it).  An ok result carries
    the hash of the bytes written. *)
Theorem noop_apply_identity (fs : FileSystem) (path : string) (raw : bytes)
    (atomic preserve_eol ensure_final_newline : bool) :
  fs !! path = Some raw ->
  let r := md_apply H fs path (Sha256.hexdigest raw) [] atomic false (lit "none")
             preserve_eol true ensure_final_newline in
  exists raw',
    snd r !! path = Some raw'
    /\ ((raw' = raw /\ Sha256.hexdigest raw' = Sha256.hexdigest raw)
        \/ (ensure_final_newline = true /\ last raw <> Some x0a
            /\ (raw' = raw ++ [x0a] \/ raw' = raw ++ [x0d; x0a])))
    /\ (ensure_final_newline = false \/ last raw = Some x0a -> raw' = raw)
    /\ (forall p sha diff n dry ms ds,
          fst r = ApplyOk p sha diff n dry ms ds -> sha = Sha256.hexdigest raw')
    /\ (forall p, p <> path -> snd r !! p = fs !! p).
Proof.
  intros Hraw r. subst r. unfold md_apply.
  destruct (load H fs path) as [doc|] eqn:Hload.
  2:{ exists raw. simpl. split; [done|]. split; [by left|]. by repeat split. }
  destruct (load_inv H fs path doc Hload) as (raw0 & Hraw0 & Henc & Heol & Hsha & Hpath).
  assert (raw0 = raw) as -> by congruence.
  rewrite Hsha, str_eqb_refl. simpl.
  unfold format_content, get_content, new_editor. simpl.
  rewrite (join_detect_eol _ _ _ Heol).
  apply encode_detect_encoding in Henc.
  pose proof (final_newline_bytes _ _ _ Henc) as Hfinal.
  unfold with_final_newline.
  destruct ensure_final_newline; simpl.
  - destruct (endswith [10] (content doc)) eqn:Hends; simpl.
    + rewrite Henc. simpl. exists raw. rewrite lookup_insert_eq.
      split; [done|]. split; [by left|]. split; [done|]. split.
      * by intros p sha diff n dry ms ds [= _ <- _ _ _ _ _].
      * intros p Hp. by rewrite lookup_insert_ne.
    + rewrite (encode_eol _ (eol doc) _ _ Henc). simpl.
      exists (raw ++ eol_bytes (eol doc)). rewrite lookup_insert_eq.
      assert (last raw <> Some x0a) as Hlast.
      { intros Hl. apply Hfinal in Hl. congruence. }
      split; [done|]. split.
      { right. split; [done|]. split; [done|]. destruct (eol doc); auto. }
      split; [intros [?|?]; done|]. split.
      * by intros p sha diff n dry ms ds [= _ <- _ _ _ _ _].
      * intros p Hp. by rewrite lookup_insert_ne.
  - rewrite Henc. simpl. exists raw. rewrite lookup_insert_eq.
    split; [done|]. split; [by left|]. split; [done|]. split.
    + by intros p sha diff n dry ms ds [= _ <- _ _ _ _ _].
    + intros p Hp. by rewrite lookup_insert_ne.
Qed.

End NoOp.

(* --------------------------------------------------------------------- *)
(** *** [replace_match]: all the occurrences *)
(* --------------------------------------------------------------------- *)

Lemma substitute_between_app (l : str) (pos stop : Z) (pre post : list (Z * Z))
    (s e : Z) (r : str) :
  substitute_between l pos stop (pre ++ (s, e) :: post) r
  = substitute_between l pos s pre r ++ r ++ substitute_between l e stop post r.
Proof.
  revert pos. induction pre as [|[s' e'] pre IH]; intros pos; simpl; [done|].
  rewrite IH. by rewrite <- !app_assoc.
Qed.

Lemma take_app_take {A} (l y : list A) (s e : nat) :
  (s <= e)%nat -> (e <= length l)%nat -> take s (take e l ++ y) = take s l.
Proof.
  intros Hse He. rewrite take_app_le by (rewrite length_take; lia).
  rewrite take_take. f_equal. lia.
Qed.

Lemma drop_app_take {A} (l y : list A) (e : nat) :
  (e <= length l)%nat -> drop e (take e l ++ y) = y.
Proof.
  intros He. rewrite drop_app_ge by (rewrite length_take; lia).
  rewrite length_take. replace (e - e `min` length l)%nat with 0%nat by lia.
  apply drop_0.
Qed.

(** The replacements of one line, applied from the last match to the
    first, give the line the specification asks for. *)
Lemma splice_in_reverse (l : str) (r : str) (spans : list (Z * Z)) (pos : Z) :
  0 <= pos -> spans_ok (len l) pos spans = true ->
  fold_left (splice r) (rev spans) l
  = slice_to pos l ++ substitute_between l pos (len l) spans r.
Proof.
  revert pos. induction spans as [|[s e] rest IH]; intros pos Hpos Hok; simpl.
  - rewrite slice_to_take by done. unfold len in *.
    destruct (Z.le_gt_cases pos (Z.of_nat (length l))) as [Hle|Hgt].
    + rewrite slice_between_take_drop by (unfold len; lia).
      rewrite <- (take_drop (Z.to_nat pos) l) at 1. f_equal.
      symmetry. apply take_ge. rewrite length_drop. lia.
    + rewrite take_ge by lia.
      unfold slice_between, slice, norm_bound, len.
      replace (pos <? 0) with false by (symmetry; apply Z.ltb_ge; lia).
      replace (Z.of_nat (length l) <? 0) with false by (symmetry; apply Z.ltb_ge; lia).
      rewrite !Z.min_r by lia. rewrite Z.sub_diag. simpl.
      by rewrite take_0, app_nil_r.
  - apply andb_true_iff in Hok as [[[Hps%Z.leb_le Hse%Z.leb_le]%andb_true_iff
                                     Hen%Z.leb_le]%andb_true_iff Hrest].
    rewrite fold_left_app. simpl.
    rewrite (IH e) by (done || lia).
    unfold splice. simpl. unfold len in *.
    rewrite !slice_to_take, slice_from_drop by lia.
    rewrite take_app_take, drop_app_take by lia.
    rewrite slice_between_take_drop by (unfold len; lia).
    rewrite (app_assoc (take (Z.to_nat pos) l)). f_equal.
    rewrite take_take_drop. f_equal. lia.
Qed.

Lemma splice_all_in_reverse (l : str) (r : str) (spans : list (Z * Z)) :
  spans_ok (len l) 0 spans = true ->
  fold_left (splice r) (rev spans) l = substitute l spans r.
Proof.
  intros Hok. rewrite (splice_in_reverse l r spans 0) by done.
  unfold substitute. by rewrite slice_to_take, take_0 by done.
Qed.

Section ReplaceAll.

Context (H : Host).

Lemma replace_each_app (r : str) (a b : list Found) (buf : list str) :
  replace_each r (a ++ b) buf = replace_each r a buf ≫= replace_each r b.
Proof.
  revert buf. induction a as [|f a IH]; intros buf; simpl; [done|].
  destruct (replace_found r buf f) as [buf'|]; simpl; [apply IH|done].
Qed.

(** The turns of the loop that belong to one line change that line only. *)
Lemma replace_each_line (r : str) (n : Z) (l0 cur : str) (spans : list (Z * Z))
    (buf : list str) :
  0 <= n -> buf !! Z.to_nat n = Some cur ->
  replace_each r (map (fun sp => mkFound n (fst sp) (snd sp) l0) spans) buf
  = Some (<[Z.to_nat n := fold_left (splice r) spans cur]> buf).
Proof.
  intros Hn. revert buf cur. induction spans as [|sp spans IH]; intros buf cur Hcur; simpl.
  - by rewrite list_insert_id.
  - assert (0 <= n < len buf) as Hin.
    { apply lookup_lt_Some in Hcur. unfold len. lia. }
    unfold replace_found. simpl.
    rewrite index_in_range, Hcur by done. simpl.
    rewrite setitem_in_range by done. simpl.
    rewrite (IH _ (splice r cur sp)).
    + by rewrite list_insert_insert_eq.
    + apply list_lookup_insert_eq. unfold len in Hin. lia.
Qed.

Lemma range_step (a b : Z) : a < b -> range a b = a :: range (a + 1) b.
Proof.
  intros Hab. unfold range.
  replace (Z.to_nat (b - a)) with (S (Z.to_nat (b - (a + 1)))) by lia.
  simpl. f_equal; [lia|].
  rewrite <- seq_shift, map_map. apply map_ext. intros k. lia.
Qed.

Lemma range_empty (a b : Z) : b <= a -> range a b = [].
Proof. intros Hab. unfold range. by replace (Z.to_nat (b - a)) with 0%nat by lia. Qed.

(** The scan followed by the replacements in reverse order, on the lines
    [a] to [b - 1]: every line of the buffer becomes the line the
    specification asks for. *)
Lemma replace_in_reverse (doc : Document H) (rx : regex H) (cbp tbp r : str)
    (buf : list str) (b : Z) (m : nat) (a : Z) (found : list Found) :
  m = Z.to_nat (b - a) -> 0 <= a ->
  (forall l, l ∈ buf -> spans_ok (len l) 0 (re_finditer H rx l) = true) ->
  find_matches doc rx cbp tbp buf (range a b) = Some found ->
  exists buf',
    replace_each r (rev found) buf = Some buf'
    /\ length buf' = length buf
    /\ forall k l, buf !! k = Some l ->
         buf' !! k = Some (expected_line doc rx cbp tbp r a (b - 1) k l).
Proof.
  revert a found. induction m as [|m IH]; intros a found Hm Ha Hok Hfind.
  - rewrite range_empty in Hfind by lia. injection Hfind as <-. simpl.
    exists buf. split; [done|]. split; [done|].
    intros k l Hk. rewrite Hk. f_equal. unfold expected_line.
    replace ((a <=? Z.of_nat k) && (Z.of_nat k <=? b - 1)) with false; [done|].
    symmetry. apply andb_false_iff.
    destruct (Z.le_gt_cases a (Z.of_nat k)); [right; apply Z.leb_gt; lia|left; apply Z.leb_gt; lia].
  - rewrite range_step in Hfind by lia. simpl in Hfind.
    destruct (index buf a) as [la|] eqn:Hla; [|done]. simpl in Hfind.
    destruct (find_matches doc rx cbp tbp buf (range (a + 1) b)) as [later|] eqn:Hlater;
      [|done]. simpl in Hfind.
    destruct (IH (a + 1) later) as (buf1 & Hbuf1 & Hlen1 & Hlook1); [lia|lia|done|done|].
    apply index_Some_nonneg in Hla as [Halt Hla]; [|done].
    assert (forall k l, buf !! k = Some l -> Z.of_nat k <> a ->
              expected_line doc rx cbp tbp r (a + 1) (b - 1) k l
              = expected_line doc rx cbp tbp r a (b - 1) k l) as Hother.
    { intros k l _ Hka. unfold expected_line.
      replace (a + 1 <=? Z.of_nat k) with (a <=? Z.of_nat k); [done|].
      destruct (Z.le_gt_cases (a + 1) (Z.of_nat k)).
      - transitivity true; [apply Z.leb_le; lia|symmetry; apply Z.leb_le; lia].
      - transitivity false; [apply Z.leb_gt; lia|symmetry; apply Z.leb_gt; lia]. }
    assert (expected_line doc rx cbp tbp r (a + 1) (b - 1) (Z.to_nat a) la = la) as Hkeep.
    { unfold expected_line.
      replace (a + 1 <=? Z.of_nat (Z.to_nat a)) with false; [done|].
      symmetry. apply Z.leb_gt. lia. }
    assert (excluded doc cbp tbp a
            = (str_eqb cbp (lit "exclude") && is_in_code_block doc a)
              || (str_eqb tbp (lit "exclude") && is_in_table doc a)) as Hex by done.
    destruct (excluded doc cbp tbp a) eqn:Hexcl.
    + assert (found = later) as ->.
      { destruct (str_eqb cbp (lit "exclude") && is_in_code_block doc a);
          [congruence|]. simpl in Hex. rewrite <- Hex in Hfind. congruence. }
      exists buf1. split; [done|]. split; [done|].
      intros k l Hk. rewrite (Hlook1 k l Hk). f_equal.
      destruct (decide (Z.of_nat k = a)) as [Hka|Hka]; [|by apply Hother].
      unfold expected_line. rewrite Hka, Hexcl. simpl.
      by rewrite !andb_false_r.
    + symmetry in Hex. apply orb_false_iff in Hex as [Hc Ht].
      rewrite Hc, Ht in Hfind. injection Hfind as <-.
      rewrite rev_app_distr, replace_each_app, Hbuf1. simpl.
      rewrite <- map_rev.
      rewrite (replace_each_line r a la la) by (done || by rewrite (Hlook1 _ _ Hla), Hkeep).
      eexists. split; [reflexivity|]. split; [by rewrite length_insert|].
      intros k l Hk.
      destruct (decide (Z.of_nat k = a)) as [Hka|Hka].
      * assert (k = Z.to_nat a) as -> by lia.
        rewrite list_lookup_insert_eq by (rewrite Hlen1; apply lookup_lt_Some in Hk; lia).
        assert (l = la) as -> by congruence.
        f_equal. rewrite splice_all_in_reverse.
        -- unfold expected_line. rewrite Z2Nat.id, Hexcl by done. simpl.
           replace (a <=? a) with true by (symmetry; apply Z.leb_le; lia).
           replace (a <=? b - 1) with true by (symmetry; apply Z.leb_le; lia).
           done.
        -- apply Hok. apply list_elem_of_lookup. eauto.
      * rewrite list_lookup_insert_ne by lia.
        rewrite (Hlook1 k l Hk). f_equal. by apply Hother.
Qed.

End ReplaceAll.

Section ReplaceAllTheorem.

Context (H : Host).

(** C6. A [replace_match] edit with occurrence ["all"] that succeeds, on a
    scope that starts at a line number that is not negative and with a
    pattern whose matches in each line come from left to right without
    overlap (as [finditer] gives them): the replacements are applied from
    the last match found to the first, and afterwards every line of the
    scope that the scan did not skip is the line in which each match is
    replaced by the replacement and the text between the matches is what
    it was; the other lines are unchanged.  In particular, for each match
    of a line, the new line is the part before it with its own matches
    replaced, then the replacement, then the part after it with its own
    matches replaced. *)
Theorem replace_match_all_in_reverse (doc : Document H) (ed ed' : Editor)
    (a : ReplaceMatchArgs) (rx : regex H) (first last : Z) :
  rm_occurrence a = OccAll ->
  re_compile H (if rm_literal a then re_escape H (rm_pattern a) else rm_pattern a)
    (regex_flags_of (rm_flags a)) = Some rx ->
  resolve_scope doc (buffer ed) (rm_scope a) = inl (first, last) ->
  0 <= first ->
  (forall l, l ∈ buffer ed -> spans_ok (len l) 0 (re_finditer H rx l) = true) ->
  apply_replace_match H doc ed a = Some (true, ed') ->
  exists found,
    find_matches doc rx (rm_codeBlocks a) (rm_tables a) (buffer ed)
      (range first (last + 1)) = Some found
    /\ replace_each (rm_replacement a) (rev found) (buffer ed) = Some (buffer ed')
    /\ buffer ed'
       = imap (expected_line doc rx (rm_codeBlocks a) (rm_tables a)
                 (rm_replacement a) first last) (buffer ed)
    /\ matches ed' = matches ed ++ map report found
    /\ diagnostics ed' = diagnostics ed
    /\ (forall k l pre s e post,
          buffer ed !! k = Some l ->
          first <= Z.of_nat k <= last ->
          excluded doc (rm_codeBlocks a) (rm_tables a) (Z.of_nat k) = false ->
          re_finditer H rx l = pre ++ (s, e) :: post ->
          buffer ed' !! k
          = Some (substitute_between l 0 s pre (rm_replacement a)
                  ++ rm_replacement a
                  ++ substitute_between l e (len l) post (rm_replacement a))).
Proof.
  intros Hocc Hrx Hscope Hfirst Hok Happly.
  unfold apply_replace_match in Happly. rewrite Hrx, Hscope in Happly.
  destruct (find_matches doc rx (rm_codeBlocks a) (rm_tables a) (buffer ed)
              (range first (last + 1))) as [found|] eqn:Hfind; [|done].
  simpl in Happly.
  destruct (match rm_expectedMatches a with Some _ => _ | None => _ end).
  { destruct (len found =? 0); by apply fail_with_inv in Happly as [? _]. }
  rewrite Hocc in Happly. simpl in Happly.
  destruct (replace_in_reverse H doc rx (rm_codeBlocks a) (rm_tables a)
              (rm_replacement a) (buffer ed) (last + 1) _ first found eq_refl
              Hfirst Hok Hfind) as (buf' & Hbuf' & Hlen & Hlook).
  rewrite Hbuf' in Happly. simpl in Happly. injection Happly as <-. simpl.
  replace (last + 1 - 1) with last in Hlook by lia.
  assert (buf' = imap (expected_line doc rx (rm_codeBlocks a) (rm_tables a)
                         (rm_replacement a) first last) (buffer ed)) as Himap.
  { apply list_eq. intros i. rewrite list_lookup_imap.
    destruct (buffer ed !! i) as [l|] eqn:Hi; simpl.
    - by apply Hlook.
    - apply lookup_ge_None. apply lookup_ge_None in Hi. lia. }
  exists found. repeat split; try done.
  intros k l pre s e post Hk Hin Hex Hspans.
  rewrite (Hlook k l Hk). f_equal. unfold expected_line. rewrite Hex.
  replace (first <=? Z.of_nat k) with true by (symmetry; apply Z.leb_le; lia).
  replace (Z.of_nat k <=? last) with true by (symmetry; apply Z.leb_le; lia).
  simpl. unfold substitute. rewrite Hspans. apply substitute_between_app.
Qed.

End ReplaceAllTheorem.

(* ===================================================================== *)
(** ** The properties on concrete files *)
(* ===================================================================== *)

Import PlainHost Scenario.

(** The digests of the empty message and of [abc] (FIPS 180-4). *)
Example sha256_empty :
  Sha256.hexdigest []
  = lit "e3b0c44298fc1c149afbf4c8996fb92427ae41e4649b934ca495991b7852b855".
Proof. vm_compute. reflexivity. Qed.

Example sha256_abc :
  Sha256.hexdigest (ascii_bytes "abc")
  = lit "ba7816bf8f01cfea414140de5dae2223b00361a396177a9cb410ff61f20015ad".
Proof. vm_compute. reflexivity. Qed.

(** The euro sign, U+20AC, and what the strict decoder refuses: an encoded
    surrogate, an overlong form, a lone Latin-1 byte. *)
Example utf8_euro :
  decode_utf8 [xe2; x82; xac] = Some [8364]
  /\ encode_utf8 [8364] = Some [xe2; x82; xac]
  /\ decode_utf8 [xed; xa0; x80] = None
  /\ decode_utf8 [xc0; x80] = None
  /\ decode_utf8 [xe9; x0a] = None.
Proof. vm_compute. repeat split; reflexivity. Qed.

(** The section index of the file [# Intro], [old], [## Sub], [x]: the
    sections come in the order in which their headings are closed. *)
Example intro_sections :
  map (fun s => (heading_path s, section_id s, level s, start_line s, end_line s))
    (sections intro_doc)
  = [([lit "Intro"; lit "Sub"], lit "230ff19e02f26e90", 2, 2, 4);
     ([lit "Intro"], lit "341d4dbb1f637629", 1, 0, 4)].
Proof. vm_compute. reflexivity. Qed.

(** The hash gate on scenario S1: the file [# A], [hi] and a hash of
    zeros. *)
Lemma hash_gate_witness :
  small_fs !! "a.md"%string = Some small_file
  /\ md_apply host small_fs "a.md" zero_hash
       [ReplaceRange (mkPosition 0 0) (mkPosition 0 1) (lit "X") None]
       true false (lit "none") true true true
     = (ApplyFailed (Text (lit "SHA-256 mismatch (file changed)")) PRECONDITION_FAILED
          (Some zero_hash) (Some (Sha256.hexdigest small_file)) None, small_fs).
Proof.
  split; [reflexivity|].
  refine (proj1 (hash_gate host small_fs "a.md" small_file (loaded small_fs "a.md")
                   zero_hash _ true false (lit "none") true true true _ _ _)).
  - reflexivity.
  - vm_compute. reflexivity.
  - vm_compute. discriminate.
Defined.

(** C2 fails as stated.  The file is the Latin-1 line [E9]; the only edit
    puts a euro sign before it and succeeds; the new text has no Latin-1
    form, [encode] raises, and [md_apply] answers IO_ERROR: no edit has
    failed, the error is not CONFLICTING_EDITS, and the edit is not in the
    file, which is unchanged. *)
Lemma atomic_counterexample :
  option_map (fun d => encoding d) (load host latin1_fs "a.md") = Some Latin1
  /\ option_map (fun r => (fst r, buffer (snd r), diagnostics (snd r)))
       (apply_edit host (loaded latin1_fs "a.md") (new_editor (loaded latin1_fs "a.md"))
          edit_euro)
     = Some (true, [[8364; 233]; []], [])
  /\ md_apply host latin1_fs "a.md" (Sha256.hexdigest latin1_file) [edit_euro]
       true false (lit "none") true true true
     = (ApplyFailed OfException IO_ERROR None None None, latin1_fs).
Proof. vm_compute. repeat split; reflexivity. Qed.

(** An atomic batch on the file [# Intro], [old], [## Sub], [x]: the
    second edit names a section that does not exist. *)
Lemma atomic_none_or_all_witness :
  load host intro_fs "a.md" = Some intro_doc
  /\ md_apply host intro_fs "a.md" (sha256 intro_doc) [edit_intro; edit_missing]
       true false (lit "none") true true true
     = (ApplyFailed (Text (lit "Edit 1 failed")) CONFLICTING_EDITS None None
          (Some [editor_error SECTION_NOT_FOUND (lit "Section not found: Missing") None]),
        intro_fs).
Proof.
  assert (load host intro_fs "a.md" = Some intro_doc) as Hload
    by (vm_compute; reflexivity).
  split; [exact Hload|].
  destruct (atomic_none_or_all host intro_fs "a.md" intro_doc (sha256 intro_doc)
              [edit_intro; edit_missing] false (lit "none") true true true
              Hload eq_refl) as [Hfail _].
  edestruct (Hfail [edit_intro] edit_missing []) as [Hr _].
  - reflexivity.
  - vm_compute. reflexivity.
  - vm_compute. reflexivity.
  - exact Hr.
Defined.

(** A pattern that does not compile: an open parenthesis, not literal. *)
Lemma replace_match_bad_pattern_witness :
  re_compile host (lit "(") 0 = None
  /\ exists d,
       apply_replace_match host fenced_doc (new_editor fenced_doc)
         {| rm_pattern := lit "("; rm_replacement := []; rm_literal := false;
            rm_flags := []; rm_occurrence := OccAll; rm_expectedMatches := None;
            rm_scope := WholeDocument; rm_codeBlocks := lit "exclude";
            rm_linksAndImages := lit "exclude"; rm_tables := lit "exclude" |}
       = Some (false, {| buffer := buffer (new_editor fenced_doc);
                         diagnostics := diagnostics (new_editor fenced_doc) ++ [d];
                         matches := matches (new_editor fenced_doc) |})
       /\ code d = Some (Code INVALID_OPERATION)
       /\ bool_decide (code d = Some (Code INVALID_REGEX)) = false.
Proof.
  split; [reflexivity|].
  apply (replace_match_bad_pattern host fenced_doc (new_editor fenced_doc)).
  reflexivity.
Defined.

(** A pattern with no occurrence in the file. *)
Lemma replace_match_no_match_witness :
  apply_edit host fenced_doc (new_editor fenced_doc)
    (ReplaceMatch (replace_match_defaults (lit "zzz") (lit "y")))
  = Some (true, new_editor fenced_doc).
Proof.
  refine (proj2 (replace_match_no_match_is_noop host fenced_doc (new_editor fenced_doc)
                   (replace_match_defaults (lit "zzz") (lit "y")) (lit "zzz") 0 5
                   _ _ _ _ _)).
  - reflexivity.
  - reflexivity.
  - vm_compute. reflexivity.
  - vm_compute. reflexivity.
  - vm_compute. reflexivity.
Defined.

(** Scenario S4: every [foo] outside the fenced block becomes [bar]. *)
Lemma replace_match_all_witness :
  exists found,
    find_matches fenced_doc (lit "foo") (lit "exclude") (lit "exclude")
      (buffer (new_editor fenced_doc)) (range 0 6) = Some found
    /\ map report found
       = [mkMatch 1 1 (lit "foo") (mkPosition 1 1) (mkPosition 1 4);
          mkMatch 5 1 (lit "foo") (mkPosition 5 1) (mkPosition 5 4)]
    /\ imap (expected_line fenced_doc (lit "foo") (lit "exclude") (lit "exclude")
               (lit "bar") 0 5) (buffer (new_editor fenced_doc))
       = [lit "bar"; lit "```"; lit "foo"; lit "```"; lit "bar"; []].
Proof.
  destruct (replace_match_all_in_reverse host fenced_doc (new_editor fenced_doc)
              (editor_after (new_editor fenced_doc)
                 (apply_replace_match host fenced_doc (new_editor fenced_doc)
                    (replace_match_defaults (lit "foo") (lit "bar"))))
              (replace_match_defaults (lit "foo") (lit "bar")) (lit "foo") 0 5)
    as (found & Hfound & _ & Hbuf & Hmatches & _).
  - reflexivity.
  - vm_compute. reflexivity.
  - vm_compute. reflexivity.
  - lia.
  - apply Forall_forall. vm_compute. repeat constructor.
  - vm_compute. reflexivity.
  - exists found. split; [exact Hfound|].
    vm_compute in Hfound. injection Hfound as <-.
    split; vm_compute; reflexivity.
Defined.

(** C9 at the failing input: the section [Intro] of [# Intro], [old],
    [## Sub], [x], named by its [sectionId] with [keepSubsections]: the
    content ends at line 4, the end of the section, although [Sub], which
    starts at line 2, is a subsection of it, and the edit replaces [Sub]
    with the rest. *)
Lemma content_end_rule_witness :
  let section := resolved (resolve_section intro_doc (Some [lit "Intro"]) None) in
  section_id section = lit "341d4dbb1f637629"
  /\ resolve_section intro_doc None (Some (lit "341d4dbb1f637629")) = inl section
  /\ content_end_of intro_doc None true section = end_line section
  /\ end_line section = 4
  /\ (exists s, s ∈ sections intro_doc
                /\ is_subsection_of (heading_path section) section s = true
                /\ start_line s = 2)
  /\ option_map (fun r => buffer (snd r))
       (apply_edit host intro_doc (new_editor intro_doc)
          (ReplaceSection None (Some (lit "341d4dbb1f637629")) (Some (lit "new")) true))
     = Some [lit "# Intro"; lit "new"].
Proof.
  intros section.
  split; [vm_compute; reflexivity|]. split; [vm_compute; reflexivity|]. split.
  - apply (proj1 (proj2 (content_end_rule host intro_doc None true section)));
      reflexivity.
  - split; [vm_compute; reflexivity|]. split; [|vm_compute; reflexivity].
    exists (mkSection [lit "Intro"; lit "Sub"] [lit "intro"; lit "sub"]
              (lit "230ff19e02f26e90") 2 2 4 2).
    split; [|split; vm_compute; reflexivity].
    apply list_elem_of_In. vm_compute. left. reflexivity.
Defined.

(** Scenario S3: the new text starts with a heading and replaces the old
    one; scenario S2: it does not, and the old heading stays. *)
Lemma replace_section_heading_rule_witness :
  apply_replace_section host intro_doc (new_editor intro_doc) (Some [lit "Intro"]) None
    (Some (lit "# Introduction" ++ [10] ++ lit "new body")) true
  = Some (true, {| buffer := [lit "# Introduction"; lit "new body"; lit "## Sub"; lit "x"; []];
                   diagnostics := []; matches := [] |})
  /\ apply_replace_section host intro_doc (new_editor intro_doc) (Some [lit "Intro"]) None
       (Some (lit "new body")) true
     = Some (true, {| buffer := [lit "# Intro"; lit "new body"; lit "## Sub"; lit "x"; []];
                      diagnostics := []; matches := [] |}).
Proof.
  assert (resolve_section intro_doc (Some [lit "Intro"]) None
          = inl (resolved (resolve_section intro_doc (Some [lit "Intro"]) None))) as Hres
    by (vm_compute; reflexivity).
  split.
  - destruct (replace_section_heading_rule host intro_doc (new_editor intro_doc)
                (Some [lit "Intro"]) None (lit "# Introduction" ++ [10] ++ lit "new body")
                true _ (lit "# Intro") Hres) as [Hyes _].
    + vm_compute. discriminate.
    + vm_compute. reflexivity.
    + vm_compute. discriminate.
    + etransitivity; [apply Hyes; vm_compute; reflexivity|vm_compute; reflexivity].
  - destruct (replace_section_heading_rule host intro_doc (new_editor intro_doc)
                (Some [lit "Intro"]) None (lit "new body")
                true _ (lit "# Intro") Hres) as [_ Hno].
    + vm_compute. discriminate.
    + vm_compute. reflexivity.
    + vm_compute. discriminate.
    + etransitivity; [apply Hno; vm_compute; reflexivity|vm_compute; reflexivity].
Defined.

(** The empty batch on a file that ends without a line feed: one is
    added. *)
Lemma noop_apply_identity_witness :
  unterminated_fs !! "a.md"%string = Some unterminated_file
  /\ exists raw',
       snd (md_apply host unterminated_fs "a.md" (Sha256.hexdigest unterminated_file) []
              true false (lit "none") true true true) !! "a.md"%string = Some raw'
       /\ (raw' = unterminated_file
           \/ raw' = unterminated_file ++ [x0a]
           \/ raw' = unterminated_file ++ [x0d; x0a]).
Proof.
  split; [reflexivity|].
  destruct (noop_apply_identity host unterminated_fs "a.md" unterminated_file true true true
              eq_refl) as (raw' & Hlook & Hcases & _).
  exists raw'. split; [exact Hlook|].
  destruct Hcases as [[-> _]|(_ & _ & [->| ->])]; auto.
Defined.

(* ===================================================================== *)
(** ** Further properties of [md_apply] *)
(* ===================================================================== *)

Section ApplyFacts.

Context (H : Host).

Lemma fail_with_not_true (ed ed' : Editor) (d : Diagnostic) :
  fail_with ed d = Some (true, ed') -> False.
Proof. intros Hf. by apply fail_with_inv in Hf as [? _]. Qed.

Ltac not_failed :=
  match goal with
  | Hf : fail_with _ _ = Some (true, _) |- _ => destruct (fail_with_not_true _ _ _ Hf)
  end.

(** An edit that returns [True] appends no diagnostic. *)
Lemma successful_edit_keeps_diagnostics (doc : Document H) (ed ed' : Editor)
    (edit : Edit H) :
  apply_edit H doc ed edit = Some (true, ed') -> diagnostics ed' = diagnostics ed.
Proof.
  destruct edit as [s e r x|a|hp sid md keep|hp sid md pos blank|sv rk|op]; simpl.
  - unfold apply_replace_range.
    destruct (_ || _); [intros; not_failed|].
    destruct (_ || _); [intros; not_failed|].
    destruct (range_text _ _ _); simpl; [|done].
    destruct (match x with Some _ => _ | None => _ end); [intros; not_failed|].
    destruct (range_replace _ _ _ _); simpl; [|done]. by intros [= <-].
  - unfold apply_replace_match.
    destruct (re_compile _ _ _); [|intros; not_failed].
    destruct (resolve_scope _ _ _) as [[first last]|d]; [|intros; not_failed].
    destruct (find_matches _ _ _ _ _ _); simpl; [|done].
    destruct (match rm_expectedMatches a with Some _ => _ | None => _ end).
    { destruct (_ =? 0); intros; not_failed. }
    destruct (rm_occurrence a).
    + destruct (replace_each _ _ _); simpl; [|done]. by intros [= <-].
    + destruct (_ || _); [intros; not_failed|].
      destruct (index _ _); simpl; [|done].
      destruct (replace_found _ _ _); simpl; [|done]. by intros [= <-].
    + intros; not_failed.
  - unfold apply_replace_section.
    destruct md; [|intros; not_failed].
    destruct (resolve_section _ _ _); [|intros; not_failed].
    destruct (negb _); [|by intros [= <-]].
    destruct (index _ _); simpl; [|done]. by intros [= <-].
  - unfold apply_insert_after_heading.
    destruct md; [|intros; not_failed].
    destruct (resolve_section _ _ _); [|intros; not_failed].
    destruct (if str_eqb pos _ then _ else _); [|intros; not_failed].
    destruct (_ && _); simpl; [|by intros [= <-]].
    destruct (index _ _); simpl; [|done]. by intros [= <-].
  - unfold apply_update_front_matter.
    destruct (negb _); [intros; not_failed|].
    destruct (match front_matter doc with Some _ => _ | None => _ end); simpl; [|done].
    destruct (front_matter_lines doc) as [[? ?]|]; by intros [= <-].
  - intros; not_failed.
Qed.

(** The loop without the atomic mode never stops at a failed edit, and it
    counts: every edit either adds one to [edits_applied] or appends one
    diagnostic. *)
Lemma run_edits_nonatomic (doc : Document H) (edits : list (Edit H)) (ed : Editor)
    (i n : Z) :
  match run_edits H doc false i edits ed n with
  | LoopRaised => True
  | LoopFailedAt _ _ => False
  | LoopDone ed' n' =>
      n <= n'
      /\ (n' - n) + (len (diagnostics ed') - len (diagnostics ed)) = len edits
  end.
Proof.
  revert ed i n. induction edits as [|e edits IH]; intros ed i n; simpl.
  - unfold len. simpl. lia.
  - destruct (apply_edit H doc ed e) as [[[] ed1]|] eqn:He; simpl; [| |done].
    + apply successful_edit_keeps_diagnostics in He.
      specialize (IH ed1 (i + 1) (n + 1)).
      destruct (run_edits H doc false (i + 1) edits ed1 (n + 1)); try done.
      rewrite He in IH. unfold len in *. simpl. lia.
    + apply failed_edit_appends_diagnostic in He as [_ [d Hd]].
      specialize (IH ed1 (i + 1) n).
      destruct (run_edits H doc false (i + 1) edits ed1 n); try done.
      rewrite Hd, len_app in IH. unfold len in *. simpl in *. lia.
Qed.

(** The loop of the atomic mode, when it ends, has appended no
    diagnostic. *)
Lemma run_edits_atomic_diagnostics (doc : Document H) (edits : list (Edit H))
    (ed ed' : Editor) (i n n' : Z) :
  run_edits H doc true i edits ed n = LoopDone ed' n' ->
  diagnostics ed' = diagnostics ed.
Proof.
  revert ed i n. induction edits as [|e edits IH]; intros ed i n; simpl.
  - by intros [= <- _].
  - destruct (apply_edit H doc ed e) as [[[] ed1]|] eqn:He; simpl; [|done|done].
    intros Hrun. apply IH in Hrun. rewrite Hrun.
    by apply successful_edit_keeps_diagnostics in He.
Qed.

(** X1.  Without the atomic mode, [md_apply] never answers CONFLICTING_EDITS (nor
    MARKDOWN_BROKEN): it fails only on the hash, with PRECONDITION_FAILED, or
    on an exception, with IO_ERROR.  When it succeeds, the edits that were
    applied and the diagnostics add up to the number of edits: each edit
    that failed left exactly one diagnostic, each edit that succeeded
    none. *)
Theorem nonatomic_apply_counts (fs : FileSystem) (path : string) (base_sha256 : str)
    (edits : list (Edit H)) (dry_run : bool) (format_mode : str)
    (preserve_eol preserve_encoding ensure_final_newline : bool) :
  match fst (md_apply H fs path base_sha256 edits false dry_run format_mode
               preserve_eol preserve_encoding ensure_final_newline) with
  | ApplyOk _ _ _ editsApplied _ _ diags =>
      0 <= editsApplied /\ editsApplied + len diags = len edits
  | ApplyFailed _ errorCode _ _ _ =>
      errorCode = PRECONDITION_FAILED \/ errorCode = IO_ERROR
  end.
Proof.
  unfold md_apply.
  destruct (load H fs path) as [doc|]; simpl; [|by right].
  destruct (negb (str_eqb (sha256 doc) base_sha256)); simpl; [by left|].
  pose proof (run_edits_nonatomic doc edits (new_editor doc) 0 0) as Hrun.
  destruct (run_edits H doc false 0 edits (new_editor doc) 0) as [|i ed|ed n];
    simpl; [by right|done|].
  assert (format_content H false format_mode (get_content doc ed) <> None) as Hfmt.
  { unfold format_content. destruct (_ && _); [|done].
    by destruct (mdformat_text H (get_content doc ed)). }
  destruct (format_content H false format_mode (get_content doc ed)); [|done].
  destruct (encode _ _); simpl; [|by right].
  unfold len in *. simpl in Hrun. lia.
Qed.

(** X2.  In atomic mode a result that is ok carries no diagnostic. *)
Theorem atomic_ok_has_no_diagnostics (fs : FileSystem) (path : string)
    (base_sha256 : str) (edits : list (Edit H)) (dry_run : bool) (format_mode : str)
    (preserve_eol preserve_encoding ensure_final_newline : bool) :
  match fst (md_apply H fs path base_sha256 edits true dry_run format_mode
               preserve_eol preserve_encoding ensure_final_newline) with
  | ApplyOk _ _ _ _ _ _ diags => diags = []
  | ApplyFailed _ _ _ _ _ => True
  end.
Proof.
  unfold md_apply.
  destruct (load H fs path) as [doc|]; simpl; [|done].
  destruct (negb (str_eqb (sha256 doc) base_sha256)); simpl; [done|].
  destruct (run_edits H doc true 0 edits (new_editor doc) 0) as [|i ed|ed n] eqn:Hrun;
    simpl; [done|done|].
  apply run_edits_atomic_diagnostics in Hrun.
  destruct (format_content _ _ _ _); simpl; [|done].
  destruct (encode _ _); simpl; [|done]. exact Hrun.
Qed.

(** X3.  A dry run computes what the real run computes and writes nothing: the
    file system is the one it was given, and the result is the result of
    the same call without [dry_run], the flag ['dryRun'] apart. *)
Theorem dry_run_writes_nothing (fs : FileSystem) (path : string) (base_sha256 : str)
    (edits : list (Edit H)) (atomic : bool) (format_mode : str)
    (preserve_eol preserve_encoding ensure_final_newline : bool) :
  let dry := md_apply H fs path base_sha256 edits atomic true format_mode
               preserve_eol preserve_encoding ensure_final_newline in
  let wet := md_apply H fs path base_sha256 edits atomic false format_mode
               preserve_eol preserve_encoding ensure_final_newline in
  snd dry = fs
  /\ match fst wet with
     | ApplyOk p sha diff n _ ms ds => fst dry = ApplyOk p sha diff n true ms ds
     | ApplyFailed e c x a d => fst dry = ApplyFailed e c x a d
     end.
Proof.
  unfold md_apply.
  destruct (load H fs path) as [doc|]; simpl; [|done].
  destruct (negb (str_eqb (sha256 doc) base_sha256)); simpl; [done|].
  destruct (run_edits H doc atomic 0 edits (new_editor doc) 0); simpl; [done|done|].
  destruct (format_content _ _ _ _); simpl; [|done].
  destruct (encode _ _); simpl; done.
Qed.

(** X4.  [md_apply] writes one file at most, the one it was asked to edit, and
    only with a result that is ok: every other file keeps its bytes, and
    after a failure, atomic or not, the file system is the one it was
    given.  What it writes is the text whose hash it returns. *)
Theorem apply_writes_only_its_file (fs : FileSystem) (path : string)
    (base_sha256 : str) (edits : list (Edit H)) (atomic dry_run : bool)
    (format_mode : str)
    (preserve_eol preserve_encoding ensure_final_newline : bool) :
  let r := md_apply H fs path base_sha256 edits atomic dry_run format_mode
             preserve_eol preserve_encoding ensure_final_newline in
  (forall p, p <> path -> snd r !! p = fs !! p)
  /\ match fst r with
     | ApplyFailed _ _ _ _ _ => snd r = fs
     | ApplyOk _ sha _ _ _ _ _ =>
         if dry_run then snd r = fs
         else exists new_bytes,
                snd r !! path = Some new_bytes /\ sha = Sha256.hexdigest new_bytes
     end.
Proof.
  unfold md_apply.
  destruct (load H fs path) as [doc|]; simpl; [|done].
  destruct (negb (str_eqb (sha256 doc) base_sha256)); simpl; [done|].
  destruct (run_edits H doc atomic 0 edits (new_editor doc) 0); simpl; [done|done|].
  destruct (format_content _ _ _ _); simpl; [|done].
  destruct (encode _ _) as [new_bytes|]; simpl; [|done].
  destruct dry_run; [done|]. split.
  - intros p Hp. by rewrite lookup_insert_ne.
  - exists new_bytes. by rewrite lookup_insert_eq.
Qed.

End ApplyFacts.

(* ===================================================================== *)
(** ** What [load] records *)
(* ===================================================================== *)

Lemma contains_cons (p : str) (c : Z) (s : str) :
  contains p (c :: s) = startswith p (c :: s) || contains p s.
Proof. reflexivity. Qed.

Lemma contains_nil (c : Z) (p : str) : contains (c :: p) [] = false.
Proof. reflexivity. Qed.

Lemma push_head_cases (c : Z) (ls : list str) :
  ls <> [] -> exists l rest, ls = l :: rest /\ push_head c ls = (c :: l) :: rest.
Proof. destruct ls as [|l rest]; [done|]. intros _. by exists l, rest. Qed.

Lemma len_cons {A} (x : A) (l : list A) : len (x :: l) = 1 + len l.
Proof. unfold len. simpl. lia. Qed.

Lemma len_push_head (c : Z) (ls : list str) : ls <> [] -> len (push_head c ls) = len ls.
Proof. destruct ls; [done|]. reflexivity. Qed.

(** The lines of [s.split('\n')]: one more than the line feeds, none with
    a line feed in it. *)
Lemma split_lf_count (s : str) : len (split_lf s) = 1 + count_lf s.
Proof.
  induction s as [|c r IH]; [done|]. cbn [split_lf count_lf].
  destruct (c =? 10).
  - rewrite len_cons, IH. lia.
  - rewrite len_push_head by apply split_lf_nonempty. rewrite IH. lia.
Qed.

Lemma split_lf_no_lf (s : str) :
  Forall (fun l => contains [10] l = false) (split_lf s).
Proof.
  induction s as [|c r IH]; cbn [split_lf].
  - by repeat constructor.
  - destruct (c =? 10) eqn:E.
    + by constructor.
    + destruct (push_head_cases c (split_lf r) (split_lf_nonempty r))
        as (l & rest & Hl & ->).
      rewrite Hl in IH. inversion IH as [|? ? Hhead Hrest]; subst.
      constructor; [|done].
      rewrite contains_cons, Hhead, orb_false_r.
      cbn [startswith]. rewrite Z.eqb_sym, E. reflexivity.
Qed.

(** The first line of [s.split('\r\n')] starts as [s] does, or is empty. *)
Lemma split_crlf_head (s : str) :
  exists l rest, split_crlf s = l :: rest
    /\ match l, s with
       | [], _ => True
       | a :: _, b :: _ => a = b
       | _ :: _, [] => False
       end.
Proof.
  destruct s as [|c [|d r]].
  - by exists [], [].
  - by exists [c], [].
  - rewrite split_crlf_step. destruct (_ && _).
    + by eexists [], _.
    + destruct (push_head_cases c (split_crlf (d :: r)) (split_crlf_nonempty _))
        as (l & rest & _ & ->).
      by exists (c :: l), rest.
Qed.

Lemma count_crlf_step (c d : Z) (r : str) :
  count_crlf (c :: d :: r)
  = (if (c =? 13) && (d =? 10) then 1 else 0) + count_crlf (d :: r).
Proof.
  change (count_crlf (c :: d :: r))
    with ((if (c =? 13) && ((10 =? d) && true) then 1 else 0) + count_crlf (d :: r)).
  by rewrite andb_true_r, (Z.eqb_sym 10 d).
Qed.

Lemma count_crlf_lf (r : str) : count_crlf (10 :: r) = count_crlf r.
Proof. reflexivity. Qed.

Lemma split_crlf_count (s : str) : len (split_crlf s) = 1 + count_crlf s.
Proof.
  remember (length s) as n eqn:Hn. revert s Hn.
  induction n as [n IH] using lt_wf_ind. intros s Hn.
  destruct s as [|c [|d r]]; [done| |].
  { cbn. by rewrite andb_false_r. }
  rewrite split_crlf_step, count_crlf_step.
  destruct ((c =? 13) && (d =? 10)) eqn:E.
  - rewrite len_cons, (IH (length r)); [|simpl in Hn; lia|done].
    apply andb_true_iff in E as [_ ->%Z.eqb_eq]. rewrite count_crlf_lf. lia.
  - rewrite len_push_head by apply split_crlf_nonempty.
    rewrite (IH (length (d :: r))); [|simpl in Hn; simpl; lia|done]. lia.
Qed.

Lemma split_crlf_no_crlf (s : str) :
  Forall (fun l => contains [13; 10] l = false) (split_crlf s).
Proof.
  remember (length s) as n eqn:Hn. revert s Hn.
  induction n as [n IH] using lt_wf_ind. intros s Hn.
  destruct s as [|c [|d r]]; [by repeat constructor| |].
  { repeat constructor. cbn. by rewrite !andb_false_r. }
  rewrite split_crlf_step.
  destruct ((c =? 13) && (d =? 10)) eqn:E.
  - constructor; [done|]. apply (IH (length r)); [simpl in Hn; lia|done].
  - pose proof (IH (length (d :: r)) ltac:(simpl in Hn; simpl; lia) (d :: r) eq_refl)
      as Hrec.
    destruct (split_crlf_head (d :: r)) as (l & rest & Hl & Hhead).
    rewrite Hl in Hrec |- *. cbn [push_head].
    inversion Hrec as [|? ? Hfirst Hrest]; subst.
    constructor; [|done].
    rewrite contains_cons, Hfirst, orb_false_r.
    destruct l as [|a l]; cbn [startswith]; [by rewrite andb_false_r|].
    subst a. rewrite (Z.eqb_sym 13 c), (Z.eqb_sym 10 d).
    change (startswith [] l) with true. by rewrite andb_true_r.
Qed.

Section LoadFacts.

Context (H : Host).

(** X5.  [load] loses nothing and keeps to its line ending.  For a file that
    loads: the content, encoded with the encoding recorded, is the bytes of
    the file; the lines, joined with the line ending recorded, are the
    content; there is at least one line and no line holds the line ending;
    the line ending is CRLF exactly when the content has a carriage return
    followed by a line feed, and the encoding is ['utf-8-sig'] exactly when
    the file starts with the byte order mark; the number of lines is one
    more than the number of line endings of the content. *)
Theorem load_is_lossless (fs : FileSystem) (path : string) (raw : bytes)
    (doc : Document H) :
  fs !! path = Some raw ->
  load H fs path = Some doc ->
  encode (encoding doc) (content doc) = Some raw
  /\ join (eol_seq (eol doc)) (lines doc) = content doc
  /\ lines doc <> []
  /\ Forall (fun l => contains (eol_seq (eol doc)) l = false) (lines doc)
  /\ (eol doc = CRLF <-> contains [13; 10] (content doc) = true)
  /\ (encoding doc = Utf8Sig <-> starts_with_bom raw = true)
  /\ len (lines doc)
     = 1 + match eol doc with
           | LF => count_lf (content doc)
           | CRLF => count_crlf (content doc)
           end.
Proof.
  intros Hraw Hload.
  destruct (load_inv H fs path doc Hload) as (raw0 & Hraw0 & Henc & Heol & _ & _).
  assert (raw0 = raw) as -> by congruence.
  split; [by apply encode_detect_encoding|].
  split; [by apply join_detect_eol|].
  unfold detect_eol in Heol. unfold detect_encoding in Henc.
  assert (encoding doc = Utf8Sig <-> starts_with_bom raw = true) as Hbom.
  { destruct (starts_with_bom raw).
    - destruct (decode_utf8 (drop 3 raw)); [|done]. by injection Henc as <- _.
    - destruct (decode_utf8 raw); injection Henc as <- _; done. }
  destruct (contains [13; 10] (content doc)) eqn:Hc; injection Heol as <- <-.
  - split; [apply split_crlf_nonempty|]. split; [apply split_crlf_no_crlf|].
    split; [done|]. split; [done|]. apply split_crlf_count.
  - split; [apply split_lf_nonempty|]. split; [apply split_lf_no_lf|].
    split; [done|]. split; [done|]. apply split_lf_count.
Qed.

End LoadFacts.

(** A file with CR LF line endings, and what [load] makes of it. *)
Lemma load_is_lossless_witness :
  let raw := map z2b (lit "a" ++ [13; 10] ++ lit "b" ++ [13; 10]) in
  let fs := one_file "a.md" raw in
  fs !! "a.md"%string = Some raw
  /\ option_map (fun d => (eol d, lines d)) (load host fs "a.md")
     = Some (CRLF, [lit "a"; lit "b"; []])
  /\ encode (encoding (loaded fs "a.md")) (content (loaded fs "a.md")) = Some raw.
Proof.
  intros raw fs.
  split; [reflexivity|]. split; [vm_compute; reflexivity|].
  refine (proj1 (load_is_lossless host fs "a.md" raw (loaded fs "a.md") _ _)).
  - reflexivity.
  - vm_compute. reflexivity.
Defined.

(* ===================================================================== *)
(** ** [md_stat], [md_validate] and [md_apply] together *)
(* ===================================================================== *)

Section ThreeEntryPoints.

Context (H : Host).

(** X6.  The three entry points agree on the file.  Either it loads, and then
    [md_stat] and [md_validate] are ok (whatever the validator finds), both
    report the path as pathlib spells it and the SHA-256 of the bytes of
    the file, [md_stat] reports a line count of one at least, and
    [md_apply] given that hash passes the hash gate, so that it can fail
    only with CONFLICTING_EDITS, MARKDOWN_BROKEN or IO_ERROR; or it does
    not load, and all three answer IO_ERROR, [md_apply] whatever hash it
    is given and without writing. *)
Theorem entry_points_agree (path_str : string -> string) (fs : FileSystem)
    (path : string) (autofix_preview : bool) :
  match md_stat H path_str fs path, md_validate H path_str fs path autofix_preview with
  | StatOk p sha _ _ lineCount _ _ _ frontMatter hasFrontMatter,
    ValidateOk p' sha' diags _ =>
      p = path_str path /\ p' = path_str path /\ sha' = sha
      /\ (exists raw, fs !! path = Some raw /\ sha = Sha256.hexdigest raw)
      /\ 1 <= lineCount
      /\ (hasFrontMatter = true <-> frontMatter <> None)
      /\ (length diags <= 1)%nat
      /\ forall edits atomic dry_run format_mode preserve_eol preserve_encoding
                ensure_final_newline,
           match fst (md_apply H fs path sha edits atomic dry_run format_mode
                        preserve_eol preserve_encoding ensure_final_newline) with
           | ApplyOk _ _ _ _ _ _ _ => True
           | ApplyFailed _ errorCode _ _ _ =>
               errorCode = CONFLICTING_EDITS \/ errorCode = MARKDOWN_BROKEN
               \/ errorCode = IO_ERROR
           end
  | StatFailed _ c, ValidateFailed _ c' =>
      c = IO_ERROR /\ c' = IO_ERROR
      /\ forall base_sha256 edits atomic dry_run format_mode preserve_eol
                preserve_encoding ensure_final_newline,
           md_apply H fs path base_sha256 edits atomic dry_run format_mode
             preserve_eol preserve_encoding ensure_final_newline
           = (ApplyFailed OfException IO_ERROR None None None, fs)
  | _, _ => False
  end.
Proof.
  unfold md_stat, md_validate, md_apply.
  destruct (load H fs path) as [doc|] eqn:Hload; [|done].
  destruct (load_inv H fs path doc Hload) as (raw & Hraw & _ & Heol & Hsha & Hpath).
  split; [by rewrite Hpath|]. split; [by rewrite Hpath|]. split; [done|].
  split; [by exists raw|]. split.
  { unfold detect_eol in Heol.
    destruct (contains [13; 10] (content doc)); injection Heol as _ <-.
    - pose proof (split_crlf_nonempty (content doc)).
      destruct (split_crlf (content doc)); [done|]. unfold len. simpl. lia.
    - pose proof (split_lf_nonempty (content doc)).
      destruct (split_lf (content doc)); [done|]. unfold len. simpl. lia. }
  split; [by destruct (front_matter doc)|]. split.
  { unfold validate_fences, validate_fences_lines.
    destruct (fence_stack_of (lines doc)); simpl; lia. }
  intros edits atomic dry_run format_mode pe penc efn.
  rewrite str_eqb_refl. simpl.
  destruct (run_edits H doc atomic 0 edits (new_editor doc) 0); simpl; [auto|auto|].
  destruct (format_content _ _ _ _); simpl; [|auto].
  destruct (encode _ _); simpl; auto.
Qed.

(** [with_final_newline] gives a text that ends with a line feed. *)
Lemma with_final_newline_ends (doc : Document H) (text : str) :
  endswith [10] (with_final_newline doc true text) = true.
Proof.
  unfold with_final_newline. simpl.
  destruct (endswith [10] text) eqn:E; simpl; [done|].
  apply endswith_lf.
  destruct (eol doc).
  - apply last_snoc.
  - change [13; 10] with ([13] ++ [10]). rewrite app_assoc. apply last_snoc.
Qed.

(** X7.  With [ensure_final_newline], what [md_apply] writes ends with a line
    feed: after every call that succeeds and is no dry run, whatever the
    edits, the mode, the formatter and the encoding, the last byte of the
    file is 0A. *)
Theorem apply_ensures_final_newline (fs : FileSystem) (path : string)
    (base_sha256 : str) (edits : list (Edit H)) (atomic : bool) (format_mode : str)
    (preserve_eol preserve_encoding : bool) :
  let r := md_apply H fs path base_sha256 edits atomic false format_mode
             preserve_eol preserve_encoding true in
  match fst r with
  | ApplyOk _ _ _ _ _ _ _ =>
      exists new_bytes, snd r !! path = Some new_bytes /\ last new_bytes = Some x0a
  | ApplyFailed _ _ _ _ _ => True
  end.
Proof.
  unfold md_apply.
  destruct (load H fs path) as [doc|]; simpl; [|done].
  destruct (negb (str_eqb (sha256 doc) base_sha256)); simpl; [done|].
  destruct (run_edits H doc atomic 0 edits (new_editor doc) 0); simpl; [done|done|].
  destruct (format_content _ _ _ _) as [text|]; simpl; [|done].
  destruct (encode _ _) as [new_bytes|] eqn:Henc; simpl; [|done].
  exists new_bytes. rewrite lookup_insert_eq. split; [done|].
  apply (final_newline_bytes _ _ _ Henc). apply with_final_newline_ends.
Qed.

(** X8.  A file that starts with the byte order mark keeps it: when
    [preserve_encoding] is on, what [md_apply] writes starts with the mark
    again, whatever the edits. *)
Theorem apply_keeps_byte_order_mark (fs : FileSystem) (path : string) (raw : bytes)
    (base_sha256 : str) (edits : list (Edit H)) (atomic : bool) (format_mode : str)
    (preserve_eol ensure_final_newline : bool) :
  fs !! path = Some raw ->
  starts_with_bom raw = true ->
  let r := md_apply H fs path base_sha256 edits atomic false format_mode
             preserve_eol true ensure_final_newline in
  match fst r with
  | ApplyOk _ _ _ _ _ _ _ =>
      exists rest, snd r !! path = Some (bom ++ rest)
  | ApplyFailed _ _ _ _ _ => True
  end.
Proof.
  intros Hraw Hbom. unfold md_apply.
  destruct (load H fs path) as [doc|] eqn:Hload; simpl; [|done].
  destruct (load_inv H fs path doc Hload) as (raw0 & Hraw0 & Henc & _).
  assert (raw0 = raw) as -> by congruence.
  assert (encoding doc = Utf8Sig) as Hsig.
  { unfold detect_encoding in Henc. rewrite Hbom in Henc.
    destruct (decode_utf8 (drop 3 raw)); [|done]. by injection Henc as <- _. }
  destruct (negb (str_eqb (sha256 doc) base_sha256)); simpl; [done|].
  destruct (run_edits H doc atomic 0 edits (new_editor doc) 0); simpl; [done|done|].
  destruct (format_content _ _ _ _) as [text|]; simpl; [|done].
  rewrite Hsig. cbn [encode].
  destruct (encode_utf8 _) as [bs|]; simpl; [|done].
  exists bs. by rewrite lookup_insert_eq.
Qed.

End ThreeEntryPoints.

(** A file with a byte order mark, edited: the mark is still there. *)
Lemma apply_keeps_byte_order_mark_witness :
  let raw := bom ++ file_of_lines ["# A"; "hi"] in
  let fs := one_file "a.md" raw in
  fs !! "a.md"%string = Some raw
  /\ starts_with_bom raw = true
  /\ exists rest,
       snd (md_apply host fs "a.md" (Sha256.hexdigest raw)
              [ReplaceRange (mkPosition 1 0) (mkPosition 1 2) (lit "ho") None]
              true false (lit "none") true true true) !! "a.md"%string
       = Some (bom ++ rest).
Proof.
  intros raw fs. split; [reflexivity|]. split; [reflexivity|].
  pose proof (apply_keeps_byte_order_mark host fs "a.md" raw (Sha256.hexdigest raw)
                [ReplaceRange (mkPosition 1 0) (mkPosition 1 2) (lit "ho") None]
                true (lit "none") true true eq_refl eq_refl) as Hkeep.
  vm_compute in Hkeep. vm_compute. exact Hkeep.
Defined.

(* ===================================================================== *)
(** ** Looking a section up *)
(* ===================================================================== *)

Lemma filter_nil_iff {A} (f : A -> bool) (l : list A) :
  List.filter f l = [] <-> forall x, x ∈ l -> f x = false.
Proof.
  induction l as [|a l IH]; simpl.
  - split; [intros _ x Hx; by apply elem_of_nil in Hx|done].
  - destruct (f a) eqn:Ha.
    + split; [done|]. intros Hall. rewrite Hall in Ha; [done|by left].
    + rewrite IH. split.
      * intros Hall x [->|Hx]%elem_of_cons; auto.
      * intros Hall x Hx. apply Hall. by right.
Qed.

Lemma filter_cons_inv {A} (f : A -> bool) (l : list A) (x : A) (rest : list A) :
  List.filter f l = x :: rest ->
  exists pre post,
    l = pre ++ x :: post /\ f x = true
    /\ (forall y, y ∈ pre -> f y = false) /\ List.filter f post = rest.
Proof.
  induction l as [|a l IH]; simpl; [done|].
  destruct (f a) eqn:Ha.
  - intros [= -> <-]. exists [], l. repeat split; try done.
    intros y Hy. by apply elem_of_nil in Hy.
  - intros (pre & post & -> & Hx & Hpre & Hpost)%IH.
    exists (a :: pre), post. repeat split; try done.
    intros y [->|Hy]%elem_of_cons; auto.
Qed.

Section SectionLookup.

Context (H : Host).

(** X9.  [get_section_by_path] answers a section exactly when one entry of the
    section list matches the path and no other does; it answers
    SECTION_NOT_FOUND when none matches and AMBIGUOUS_HEADING when two
    do.  An entry matches when its raw path is the path or when its
    canonical path is the canonical form of the path: the exact match has
    no priority, so two entries, one equal to the path and one equal to it
    only in canonical form, make the path ambiguous. *)
Theorem get_section_by_path_unique (doc : Document H) (path : list str)
    (include_subsections : bool) :
  let normalized := map (normalize_heading H) path in
  let matching := path_matches path normalized include_subsections in
  (forall s, heading_path s = path -> matching s = true)
  /\ (forall s, canonical_heading_path s = normalized -> matching s = true)
  /\ match get_section_by_path doc path include_subsections with
     | inl s =>
         exists pre post,
           sections doc = pre ++ s :: post /\ matching s = true
           /\ forall t, t ∈ pre ++ post -> matching t = false
     | inr errorCode =>
         (errorCode = SECTION_NOT_FOUND
          /\ forall t, t ∈ sections doc -> matching t = false)
         \/ (errorCode = AMBIGUOUS_HEADING
             /\ exists a b pre mid post,
                  sections doc = pre ++ a :: mid ++ b :: post
                  /\ matching a = true /\ matching b = true)
     end.
Proof.
  intros normalized matching. subst matching normalized.
  split; [|split].
  - intros s Hs. unfold path_matches. by rewrite bool_decide_eq_true_2.
  - intros s Hs. unfold path_matches.
    rewrite (bool_decide_eq_true_2 _ Hs). by rewrite orb_true_r.
  - unfold get_section_by_path.
    destruct (List.filter _ (sections doc)) as [|s [|s' rest]] eqn:Hf.
    + left. split; [done|]. by apply filter_nil_iff.
    + apply filter_cons_inv in Hf as (pre & post & Hsecs & Hs & Hpre & Hpost).
      exists pre, post. split; [done|]. split; [done|].
      intros t [Ht|Ht]%elem_of_app; [by apply Hpre|].
      by apply (proj1 (filter_nil_iff _ post) Hpost).
    + right. split; [done|].
      apply filter_cons_inv in Hf as (pre & post & Hsecs & Hs & _ & Hpost).
      apply filter_cons_inv in Hpost as (mid & post' & -> & Hs' & _ & _).
      by exists s, s', pre, mid, post'.
Qed.

End SectionLookup.

(* ===================================================================== *)
(** ** [replace_match]: the scan, one occurrence, the expected count *)
(* ===================================================================== *)

Section MatchFacts.

Context (H : Host).

Lemma found_eta (f : Found) :
  f = mkFound (f_line_num f) (f_start f) (f_end f) (f_string f).
Proof. by destruct f. Qed.

(** What the scan finds lies in the buffer, at a line of the scope. *)
Lemma find_matches_lines (doc : Document H) (rx : regex H) (cbp tbp : str)
    (buf : list str) (line_nums : list Z) (found : list Found) (f : Found) :
  find_matches doc rx cbp tbp buf line_nums = Some found ->
  f ∈ found ->
  f_line_num f ∈ line_nums /\ index buf (f_line_num f) = Some (f_string f).
Proof.
  revert found. induction line_nums as [|n rest IH]; intros found; simpl.
  - intros [= <-] Hf. by apply elem_of_nil in Hf.
  - destruct (index buf n) as [l|] eqn:Hl; simpl; [|done].
    destruct (find_matches doc rx cbp tbp buf rest) as [later|]; simpl; [|done].
    assert (f ∈ later ->
            f_line_num f ∈ n :: rest /\ index buf (f_line_num f) = Some (f_string f))
      as Hlater.
    { intros Hf. destruct (IH later eq_refl Hf). split; [by right|done]. }
    destruct (_ && _); [by intros [= <-]|].
    destruct (_ && _); [by intros [= <-]|].
    intros [= <-] [Hf|Hf]%elem_of_app; [|by apply Hlater].
    apply list_elem_of_fmap in Hf as (sp & -> & _). simpl. split; [by left|done].
Qed.

(** X10.  The scan raises exactly when a line number of the scope is no index of
    the buffer.  When it does not, an entry is found exactly when its line
    number is in the scope, its line is not excluded (a line of a code
    block or of a table, when the policy is to exclude them, is never
    scanned), its subject string is that line of the buffer, and its span
    is one of the spans [finditer] gives for that line. *)
Theorem find_matches_sound_and_complete (doc : Document H) (rx : regex H)
    (code_blocks_policy tables_policy : str) (buf : list str) (line_nums : list Z) :
  match find_matches doc rx code_blocks_policy tables_policy buf line_nums with
  | None => exists n, n ∈ line_nums /\ index buf n = None
  | Some found =>
      (forall n, n ∈ line_nums -> is_Some (index buf n))
      /\ forall f,
           f ∈ found <->
           f_line_num f ∈ line_nums
           /\ excluded doc code_blocks_policy tables_policy (f_line_num f) = false
           /\ index buf (f_line_num f) = Some (f_string f)
           /\ (f_start f, f_end f) ∈ re_finditer H rx (f_string f)
  end.
Proof.
  induction line_nums as [|n rest IH]; simpl.
  - split; [intros n Hn; by apply elem_of_nil in Hn|].
    intros f. split; [intros Hf; by apply elem_of_nil in Hf|].
    intros [Hf _]. by apply elem_of_nil in Hf.
  - destruct (index buf n) as [l|] eqn:Hl; simpl.
    2:{ exists n. split; [by left|done]. }
    destruct (find_matches doc rx code_blocks_policy tables_policy buf rest)
      as [later|]; simpl.
    2:{ destruct IH as (m & Hm & Hnone). exists m. split; [by right|done]. }
    destruct IH as [Hall IH].
    assert (forall m, m ∈ n :: rest -> is_Some (index buf m)) as Hall'.
    { intros m [->|Hm]%elem_of_cons; [by rewrite Hl|by apply Hall]. }
    assert (excluded doc code_blocks_policy tables_policy n
            = (str_eqb code_blocks_policy (lit "exclude") && is_in_code_block doc n)
              || (str_eqb tables_policy (lit "exclude") && is_in_table doc n)) as Hex
      by done.
    destruct (excluded doc code_blocks_policy tables_policy n) eqn:Hexcl.
    + assert ((if str_eqb code_blocks_policy (lit "exclude") && is_in_code_block doc n
               then Some later
               else if str_eqb tables_policy (lit "exclude") && is_in_table doc n
                    then Some later
                    else Some (map (fun sp => mkFound n (fst sp) (snd sp) l)
                                 (re_finditer H rx l) ++ later))
              = Some later) as ->.
      { destruct (str_eqb code_blocks_policy (lit "exclude") && is_in_code_block doc n);
          [done|]. simpl in Hex. by rewrite <- Hex. }
      split; [done|]. intros f. rewrite IH. split.
      * intros (Hin & Hrest). split; [by right|done].
      * intros ([Hn|Hin]%elem_of_cons & Hne & Hrest); [|done].
        rewrite Hn in Hne. congruence.
    + symmetry in Hex. apply orb_false_iff in Hex as [-> ->].
      split; [done|]. intros f. rewrite elem_of_app, IH, list_elem_of_fmap. split.
      * intros [(sp & -> & Hsp)|(Hin & Hrest)].
        -- simpl. split; [by left|]. split; [done|]. split; [done|].
           by destruct sp.
        -- split; [by right|done].
      * intros ([Hn|Hin]%elem_of_cons & Hne & Hidx & Hsp); [|by right].
        left. exists (f_start f, f_end f). split; [|congruence].
        rewrite (found_eta f) at 1. simpl. f_equal; congruence.
Qed.

(** X11.  A [replace_match] edit whose [expectedMatches] is not the number of
    matches found fails, with NO_MATCH when nothing was found and with
    AMBIGUOUS_MATCH otherwise; it changes nothing and reports no match. *)
Theorem replace_match_unexpected_count (doc : Document H) (ed : Editor)
    (a : ReplaceMatchArgs) (rx : regex H) (first last expected : Z)
    (found : list Found) :
  re_compile H (if rm_literal a then re_escape H (rm_pattern a) else rm_pattern a)
    (regex_flags_of (rm_flags a)) = Some rx ->
  resolve_scope doc (buffer ed) (rm_scope a) = inl (first, last) ->
  find_matches doc rx (rm_codeBlocks a) (rm_tables a) (buffer ed)
    (range first (last + 1)) = Some found ->
  rm_expectedMatches a = Some expected ->
  len found <> expected ->
  exists d,
    apply_replace_match H doc ed a
    = Some (false, {| buffer := buffer ed;
                      diagnostics := diagnostics ed ++ [d];
                      matches := matches ed |})
    /\ code d = Some (Code (if len found =? 0 then NO_MATCH else AMBIGUOUS_MATCH)).
Proof.
  intros Hrx Hscope Hfound Hexp Hne.
  unfold apply_replace_match. rewrite Hrx, Hscope. simpl.
  rewrite Hfound. simpl. rewrite Hexp. simpl.
  replace (len found =? expected) with false by (symmetry; by apply Z.eqb_neq).
  simpl. destruct (len found =? 0); eexists; (split; [reflexivity|done]).
Qed.

(** X12.  A [replace_match] edit for one occurrence, the [k]-th, once the check
    of the count has passed ([expectedMatches] is absent, or is the number
    of matches found; otherwise the edit fails before the occurrence is
    looked at), on a scope that starts at a line number that is not
    negative.  When [k] is not between
    1 and the number of matches, the edit fails with OUT_OF_RANGE and the
    buffer is unchanged, but the matches found have been reported.
    Otherwise the line of the [k]-th match, and no other, changes: the
    match is replaced by the replacement; all the matches found are
    reported, not only the one replaced. *)
Theorem replace_match_one_occurrence (doc : Document H) (ed : Editor)
    (a : ReplaceMatchArgs) (rx : regex H) (first last k : Z) (found : list Found) :
  re_compile H (if rm_literal a then re_escape H (rm_pattern a) else rm_pattern a)
    (regex_flags_of (rm_flags a)) = Some rx ->
  resolve_scope doc (buffer ed) (rm_scope a) = inl (first, last) ->
  0 <= first ->
  find_matches doc rx (rm_codeBlocks a) (rm_tables a) (buffer ed)
    (range first (last + 1)) = Some found ->
  (forall n, rm_expectedMatches a = Some n -> n = len found) ->
  rm_occurrence a = OccInt k ->
  (k < 1 \/ len found < k ->
     exists d,
       apply_replace_match H doc ed a
       = Some (false, {| buffer := buffer ed;
                         diagnostics := diagnostics ed ++ [d];
                         matches := matches ed ++ map report found |})
       /\ code d = Some (Code OUT_OF_RANGE))
  /\ (1 <= k <= len found ->
        exists f,
          found !! Z.to_nat (k - 1) = Some f
          /\ buffer ed !! Z.to_nat (f_line_num f) = Some (f_string f)
          /\ apply_replace_match H doc ed a
             = Some (true,
                     {| buffer :=
                          <[Z.to_nat (f_line_num f) :=
                              slice_to (f_start f) (f_string f) ++ rm_replacement a
                              ++ slice_from (f_end f) (f_string f)]> (buffer ed);
                        diagnostics := diagnostics ed;
                        matches := matches ed ++ map report found |})).
Proof.
  intros Hrx Hscope Hfirst Hfound Hexp Hocc.
  unfold apply_replace_match. rewrite Hrx, Hscope. simpl.
  rewrite Hfound. simpl.
  assert (match rm_expectedMatches a with
          | Some n => negb (len found =? n)
          | None => false
          end = false) as ->.
  { destruct (rm_expectedMatches a) as [n|]; [|done].
    rewrite (Hexp n eq_refl), Z.eqb_refl. done. }
  rewrite Hocc. simpl.
  split.
  - intros Hk.
    replace ((k <? 1) || (k >? len found)) with true.
    2:{ symmetry. apply orb_true_iff. destruct Hk; [left; lia|right; lia]. }
    eexists. split; [reflexivity|done].
  - intros Hk.
    replace ((k <? 1) || (k >? len found)) with false
      by (symmetry; apply orb_false_iff; lia).
    destruct (index_is_Some found (k - 1)) as [f Hf]; [lia|].
    rewrite Hf. simpl. exists f.
    rewrite index_in_range in Hf by lia. split; [done|].
    assert (f ∈ found) as Hin by (apply list_elem_of_lookup; eauto).
    apply (find_matches_lines _ _ _ _ _ _ _ _ Hfound) in Hin as [Hrange%range_elem Hidx].
    apply index_Some_nonneg in Hidx as [Hlt Hline]; [|lia].
    split; [done|].
    unfold replace_found. rewrite index_in_range, Hline by lia. simpl.
    rewrite setitem_in_range by lia. reflexivity.
Qed.

End MatchFacts.

(** On the file with [foo] three times, once in a fenced block: two
    matches are found, so that three expected is a failure. *)
Lemma replace_match_unexpected_count_witness :
  exists d,
    apply_replace_match host fenced_doc (new_editor fenced_doc)
      {| rm_pattern := lit "foo"; rm_replacement := lit "bar"; rm_literal := true;
         rm_flags := []; rm_occurrence := OccAll; rm_expectedMatches := Some 3;
         rm_scope := WholeDocument; rm_codeBlocks := lit "exclude";
         rm_linksAndImages := lit "exclude"; rm_tables := lit "exclude" |}
    = Some (false, {| buffer := buffer (new_editor fenced_doc);
                      diagnostics := [d];
                      matches := [] |})
    /\ code d = Some (Code AMBIGUOUS_MATCH).
Proof.
  refine (replace_match_unexpected_count host fenced_doc (new_editor fenced_doc) _
            (lit "foo") 0 5 3
            [mkFound 0 0 3 (lit "foo"); mkFound 4 0 3 (lit "foo")] _ _ _ _ _).
  - vm_compute. reflexivity.
  - vm_compute. reflexivity.
  - vm_compute. reflexivity.
  - reflexivity.
  - vm_compute. discriminate.
Defined.

(** On the same file, with two matches expected, the second occurrence
    alone is replaced, and both are reported. *)
Lemma replace_match_one_occurrence_witness :
  option_map (fun r => (fst r, buffer (snd r), map m_line (matches (snd r))))
    (apply_replace_match host fenced_doc (new_editor fenced_doc)
       {| rm_pattern := lit "foo"; rm_replacement := lit "bar"; rm_literal := true;
          rm_flags := []; rm_occurrence := OccInt 2; rm_expectedMatches := Some 2;
          rm_scope := WholeDocument; rm_codeBlocks := lit "exclude";
          rm_linksAndImages := lit "exclude"; rm_tables := lit "exclude" |})
  = Some (true, [lit "foo"; lit "```"; lit "foo"; lit "```"; lit "bar"; []], [1; 5]).
Proof.
  destruct (replace_match_one_occurrence host fenced_doc (new_editor fenced_doc)
              {| rm_pattern := lit "foo"; rm_replacement := lit "bar"; rm_literal := true;
                 rm_flags := []; rm_occurrence := OccInt 2; rm_expectedMatches := Some 2;
                 rm_scope := WholeDocument; rm_codeBlocks := lit "exclude";
                 rm_linksAndImages := lit "exclude"; rm_tables := lit "exclude" |}
              (lit "foo") 0 5 2
              [mkFound 0 0 3 (lit "foo"); mkFound 4 0 3 (lit "foo")])
    as [_ Hin].
  - vm_compute. reflexivity.
  - vm_compute. reflexivity.
  - lia.
  - vm_compute. reflexivity.
  - intros n [= <-]. reflexivity.
  - reflexivity.
  - destruct Hin as (f & Hf & _ & Happly); [vm_compute; split; discriminate|].
    injection Hf as <-. rewrite Happly. vm_compute. reflexivity.
Defined.

(* ===================================================================== *)
(** ** [insert_after_heading] *)
(* ===================================================================== *)

Lemma slice_to_from {A} (k : Z) (l : list A) : slice_to k l ++ slice_from k l = l.
Proof.
  unfold slice_to, slice_from, slice.
  assert (0 <= norm_bound (len l) k <= len l) as Hk.
  { unfold norm_bound. pose proof (len_nonneg l). destruct (Z.ltb_spec k 0); lia. }
  cbv zeta. change (Z.to_nat 0) with 0%nat. rewrite drop_0, Z.sub_0_r.
  rewrite (take_ge (drop _ _)) by (rewrite length_drop; unfold len in *; lia).
  apply take_drop.
Qed.

Section InsertFacts.

Context (H : Host).

(** X13.  [insert_after_heading] only inserts.  When it succeeds, the new buffer
    is the old one with a block of lines put in at one point (the old
    lines, before and after, are all there and in their order): the point
    is the line after the heading for the positions ['afterHeading'] and
    ['start'], the line after the section for ['end']; the block is the
    lines of [markdown], followed by one empty line only if
    [ensureBlankLine] is on.  It adds no diagnostic and no match. *)
Theorem insert_after_heading_only_inserts (doc : Document H) (ed ed' : Editor)
    (headingPath : option (list str)) (sectionId : option str) (md position : str)
    (ensure_blank_line : bool) (section : Section) :
  resolve_section doc headingPath sectionId = inl section ->
  apply_insert_after_heading H doc ed headingPath sectionId (Some md) position
    ensure_blank_line = Some (true, ed') ->
  exists k block,
    ((position = lit "afterHeading" \/ position = lit "start")
       /\ k = heading_line section + 1
     \/ position = lit "end" /\ k = end_line section + 1)
    /\ (block = split_lf md \/ ensure_blank_line = true /\ block = split_lf md ++ [[]])
    /\ buffer ed = slice_to k (buffer ed) ++ slice_from k (buffer ed)
    /\ buffer ed' = slice_to k (buffer ed) ++ block ++ slice_from k (buffer ed)
    /\ diagnostics ed' = diagnostics ed
    /\ matches ed' = matches ed.
Proof.
  intros Hres. unfold apply_insert_after_heading. rewrite Hres.
  assert ((exists k,
            (if str_eqb position (lit "afterHeading") then Some (heading_line section + 1)
             else if str_eqb position (lit "start") then Some (heading_line section + 1)
             else if str_eqb position (lit "end") then Some (end_line section + 1)
             else None) = Some k
            /\ ((position = lit "afterHeading" \/ position = lit "start")
                  /\ k = heading_line section + 1
                \/ position = lit "end" /\ k = end_line section + 1))
          \/ (if str_eqb position (lit "afterHeading") then Some (heading_line section + 1)
              else if str_eqb position (lit "start") then Some (heading_line section + 1)
              else if str_eqb position (lit "end") then Some (end_line section + 1)
              else None) = None) as Hpos.
  { destruct (str_eqb position (lit "afterHeading")) eqn:E1.
    { apply str_eqb_eq in E1. eauto 8. }
    destruct (str_eqb position (lit "start")) eqn:E2.
    { apply str_eqb_eq in E2. eauto 8. }
    destruct (str_eqb position (lit "end")) eqn:E3.
    { apply str_eqb_eq in E3. eauto 8. }
    by right. }
  destruct Hpos as [(k & -> & Hk)| ->].
  2:{ intros Hf. by apply fail_with_inv in Hf as [? _]. }
  intros Happly. exists k.
  destruct (ensure_blank_line && (k <? len (buffer ed))) eqn:Hblank.
  - destruct (index (buffer ed) k) as [l|]; simpl in Happly; [|done].
    injection Happly as <-. simpl.
    exists (match strip l with [] => split_lf md | _ :: _ => split_lf md ++ [[]] end).
    split; [done|]. split.
    { destruct (strip l); [by left|right].
      apply andb_true_iff in Hblank as [-> _]. done. }
    split; [by rewrite slice_to_from|done].
  - simpl in Happly. injection Happly as <-. simpl.
    exists (split_lf md). split; [done|]. split; [by left|].
    split; [by rewrite slice_to_from|done].
Qed.

End InsertFacts.

(** A line put in after the heading of the file [# Intro], [old],
    [## Sub], [x]: a blank line follows it, since the next line is not
    blank. *)
Lemma insert_after_heading_witness :
  exists k block,
    ((lit "afterHeading" = lit "afterHeading" \/ lit "afterHeading" = lit "start")
       /\ k = 1
     \/ lit "afterHeading" = lit "end" /\ k = 5)
    /\ (block = [lit "new"] \/ true = true /\ block = [lit "new"] ++ [[]])
    /\ [lit "# Intro"; lit "new"; []; lit "old"; lit "## Sub"; lit "x"; []]
       = slice_to k (buffer (new_editor intro_doc)) ++ block
         ++ slice_from k (buffer (new_editor intro_doc)).
Proof.
  destruct (insert_after_heading_only_inserts host intro_doc (new_editor intro_doc)
              {| buffer := [lit "# Intro"; lit "new"; []; lit "old"; lit "## Sub";
                            lit "x"; []];
                 diagnostics := []; matches := [] |}
              (Some [lit "Intro"]) None (lit "new") (lit "afterHeading") true
              (resolved (resolve_section intro_doc (Some [lit "Intro"]) None)))
    as (k & block & Hk & Hblock & _ & Hbuf & _).
  - vm_compute. reflexivity.
  - vm_compute. reflexivity.
  - exists k, block. split; [exact Hk|]. split; [exact Hblock|]. exact Hbuf.
Defined.

(* ===================================================================== *)
(** ** [replace_range], on the text of the buffer *)
(* ===================================================================== *)

Lemma join_cut (sep x y : str) (A B : list str) :
  join sep (A ++ [x ++ y] ++ B) = join sep (A ++ [x]) ++ join sep ([y] ++ B).
Proof.
  induction A as [|a A IH].
  - destruct B as [|b B]; [done|].
    simpl app. rewrite !join_cons by done. simpl. by rewrite <- !app_assoc.
  - change (join sep (a :: (A ++ [x ++ y] ++ B))
            = join sep (a :: (A ++ [x])) ++ join sep ([y] ++ B)).
    rewrite (join_cons sep a (A ++ [x ++ y] ++ B)) by (by destruct A).
    rewrite (join_cons sep a (A ++ [x])) by (by destruct A).
    rewrite IH. by rewrite <- !app_assoc.
Qed.

Lemma join_cut_head (sep x y : str) (B : list str) :
  join sep ([x ++ y] ++ B) = x ++ join sep ([y] ++ B).
Proof. apply (join_cut sep x y [] B). Qed.

Lemma index_cut {A} (l : list A) (i : Z) (x : A) :
  0 <= i -> index l i = Some x ->
  l = slice_to i l ++ [x] ++ slice_from (i + 1) l
  /\ slice_from i l = x :: slice_from (i + 1) l.
Proof.
  intros Hi Hx. apply index_Some_nonneg in Hx as [Hlt Hx]; [|done].
  rewrite slice_to_take, !slice_from_drop by lia.
  replace (Z.to_nat (i + 1)) with (S (Z.to_nat i)) by lia.
  split.
  - symmetry. by apply take_drop_middle.
  - by apply drop_S.
Qed.

Lemma mapM_index_range {A} (l : list A) (n : nat) (a : Z) (m : list A) :
  0 <= a ->
  mapM (index l) (range a (a + Z.of_nat n)) = Some m ->
  slice_from a l = m ++ slice_from (a + Z.of_nat n) l.
Proof.
  revert a m. induction n as [|n IH]; intros a m Ha.
  - rewrite range_empty by lia. simpl. intros [= <-]. by rewrite Z.add_0_r.
  - rewrite range_step by lia. simpl mapM.
    destruct (index l a) as [x|] eqn:Hx; [|done]. simpl.
    replace (a + Z.of_nat (S n)) with ((a + 1) + Z.of_nat n) by lia.
    destruct (mapM (index l) (range (a + 1) (a + 1 + Z.of_nat n))) as [r|] eqn:Hr;
      [|done].
    simpl. intros [= <-].
    apply index_cut in Hx as [_ ->]; [|done].
    rewrite (IH (a + 1) r) by (done || lia). done.
Qed.

(** X14.  [replace_range] seen on the text of the buffer, its lines joined with
    line feeds.  For a range that is in order (the end line not before the
    start line, and on one line the end column not before the start
    column, which is not negative), a successful edit cuts the text in
    three: what is before the start position, the text of the range (the
    one compared with [expectedText]) and what is after the end position;
    the new text is the first part, the replacement and the last part.
    Nothing else of the document changes, whatever the number of lines of
    the range and of the replacement. *)
Theorem replace_range_splices_text (ed ed' : Editor) (s e : Position)
    (replacement : str) (expected_text : option str) :
  apply_replace_range ed s e replacement expected_text = Some (true, ed') ->
  pos_line s <= pos_line e ->
  (pos_line s = pos_line e -> 0 <= pos_col s <= pos_col e) ->
  exists first last current,
    index (buffer ed) (pos_line s) = Some first
    /\ index (buffer ed) (pos_line e) = Some last
    /\ range_text (buffer ed) s e = Some current
    /\ (forall t, expected_text = Some t -> t = current)
    /\ let before :=
         join [10] (slice_to (pos_line s) (buffer ed) ++ [slice_to (pos_col s) first]) in
       let after :=
         join [10] ([slice_from (pos_col e) last]
                    ++ slice_from (pos_line e + 1) (buffer ed)) in
       join [10] (buffer ed) = before ++ current ++ after
       /\ join [10] (buffer ed') = before ++ replacement ++ after.
Proof.
  unfold apply_replace_range. intros Happly Hle Hcol.
  destruct ((pos_line s <? 0) || (pos_line s >=? len (buffer ed))) eqn:Hs.
  { by apply fail_with_inv in Happly as [? _]. }
  destruct ((pos_line e <? 0) || (pos_line e >=? len (buffer ed))) eqn:He.
  { by apply fail_with_inv in Happly as [? _]. }
  apply orb_false_iff in Hs as [Hs1 Hs2]. apply orb_false_iff in He as [He1 He2].
  assert (0 <= pos_line s < len (buffer ed)) as Hsr by lia.
  assert (0 <= pos_line e < len (buffer ed)) as Her by lia.
  destruct (index_is_Some (buffer ed) _ Hsr) as [first Hfirst].
  destruct (index_is_Some (buffer ed) _ Her) as [last Hlast].
  destruct (range_text (buffer ed) s e) as [current|] eqn:Hcur; [|done].
  simpl in Happly.
  assert (forall t, expected_text = Some t -> t = current) as Hexp.
  { intros t ->. destruct (str_eqb current t) eqn:E.
    - symmetry. by apply str_eqb_eq.
    - simpl in Happly. by apply fail_with_inv in Happly as [? _]. }
  assert (range_replace (buffer ed) s e replacement = Some (buffer ed')) as Hnew.
  { destruct (match expected_text with
              | Some t => negb (str_eqb current t) | None => false end).
    { by apply fail_with_inv in Happly as [? _]. }
    destruct (range_replace (buffer ed) s e replacement); [|done].
    simpl in Happly. by injection Happly as <-. }
  clear Happly.
  exists first, last, current. do 4 (split; [done|]).
  destruct (index_cut _ _ _ (proj1 Hsr) Hfirst) as [Hbuf Hfrom].
  unfold range_text in Hcur. unfold range_replace in Hnew.
  destruct (Z.eqb_spec (pos_line s) (pos_line e)) as [Heq|Hne].
  - (* one line *)
    rewrite Hfirst in Hcur, Hnew. simpl in Hcur, Hnew.
    rewrite <- Heq in Hlast. assert (last = first) as -> by congruence.
    injection Hcur as <-.
    rewrite setitem_in_range in Hnew by done. injection Hnew as <-.
    rewrite <- Heq. specialize (Hcol Heq).
    assert (first = slice_to (pos_col s) first
                    ++ slice_between (pos_col s) (pos_col e) first
                    ++ slice_from (pos_col e) first) as Hparts.
    { rewrite slice_to_take, slice_from_drop by lia.
      unfold slice_between, slice, norm_bound.
      destruct (Z.ltb_spec (pos_col s) 0); [lia|].
      destruct (Z.ltb_spec (pos_col e) 0); [lia|].
      unfold len.
      rewrite <- (take_drop (Z.to_nat (pos_col s)) first) at 1. f_equal.
      destruct (Z.le_gt_cases (Z.of_nat (length first)) (pos_col s)).
      + rewrite !Z.min_r by lia. rewrite Z.sub_diag. simpl.
        rewrite !drop_ge by lia. done.
      + rewrite (Z.min_l (pos_col s)) by lia.
        destruct (Z.le_gt_cases (Z.of_nat (length first)) (pos_col e)).
        * rewrite Z.min_r by lia.
          rewrite (take_ge (drop _ _)) by (rewrite length_drop; lia).
          rewrite (drop_ge _ (Z.to_nat (pos_col e))) by lia. by rewrite app_nil_r.
        * rewrite Z.min_l by lia.
          rewrite <- (take_drop (Z.to_nat (pos_col e - pos_col s))
                        (drop (Z.to_nat (pos_col s)) first)) at 1.
          f_equal. rewrite drop_drop. f_equal. lia. }
    cbv zeta. split.
    + rewrite Hbuf at 1. rewrite Hparts at 1.
      rewrite join_cut. f_equal. apply join_cut_head.
    + assert (<[Z.to_nat (pos_line s) := slice_to (pos_col s) first ++ replacement
                  ++ slice_from (pos_col e) first]> (buffer ed)
              = slice_to (pos_line s) (buffer ed)
                ++ [slice_to (pos_col s) first ++ replacement
                    ++ slice_from (pos_col e) first]
                ++ slice_from (pos_line s + 1) (buffer ed)) as ->.
      { rewrite (slice_to_take (buffer ed)), (slice_from_drop (buffer ed)) by lia.
        replace (Z.to_nat (pos_line s + 1)) with (S (Z.to_nat (pos_line s))) by lia.
        apply insert_take_drop. unfold len in Hsr. lia. }
      rewrite join_cut. f_equal. apply join_cut_head.
  - (* several lines *)
    rewrite Hfirst in Hcur, Hnew. cbn [mbind option_bind] in Hcur, Hnew.
    rewrite Hlast in Hcur, Hnew. cbn [mbind option_bind] in Hnew.
    destruct (mapM (index (buffer ed)) (range (pos_line s + 1) (pos_line e)))
      as [middle|] eqn:Hmid; [|done].
    cbn [mbind option_bind] in Hcur. injection Hcur as <-. injection Hnew as <-.
    replace (pos_line e) with (pos_line s + 1 + Z.of_nat (Z.to_nat (pos_line e - pos_line s - 1)))
      in Hmid by lia.
    apply mapM_index_range in Hmid; [|lia].
    replace (pos_line s + 1 + Z.of_nat (Z.to_nat (pos_line e - pos_line s - 1)))
      with (pos_line e) in Hmid by lia.
    destruct (index_cut _ _ _ (proj1 Her) Hlast) as [_ Hfrom_e].
    rewrite Hfrom_e in Hmid.
    cbv zeta. split.
    + transitivity
        (join [10]
           (slice_to (pos_line s) (buffer ed)
            ++ [slice_to (pos_col s) first ++ slice_from (pos_col s) first]
            ++ (middle ++ [slice_to (pos_col e) last ++ slice_from (pos_col e) last]
                ++ slice_from (pos_line e + 1) (buffer ed)))).
      { rewrite !slice_to_from. rewrite Hbuf at 1. by rewrite Hmid. }
      rewrite (join_cut [10] (slice_to (pos_col s) first) (slice_from (pos_col s) first)
                 (slice_to (pos_line s) (buffer ed))).
      f_equal.
      rewrite (app_assoc [slice_from (pos_col s) first] middle).
      rewrite (join_cut [10] (slice_to (pos_col e) last) (slice_from (pos_col e) last)
                 ([slice_from (pos_col s) first] ++ middle)).
      by rewrite <- !app_assoc.
    + change (slice_to (pos_line s) (buffer ed)
              ++ (slice_to (pos_col s) first ++ replacement ++ slice_from (pos_col e) last)
                 :: slice_from (pos_line e + 1) (buffer ed))
        with (slice_to (pos_line s) (buffer ed)
              ++ [slice_to (pos_col s) first ++ replacement
                  ++ slice_from (pos_col e) last]
              ++ slice_from (pos_line e + 1) (buffer ed)).
      rewrite (join_cut [10] (slice_to (pos_col s) first)
                 (replacement ++ slice_from (pos_col e) last)
                 (slice_to (pos_line s) (buffer ed))).
      f_equal. apply join_cut_head.
Qed.

(** The range from line 0, column 1 to line 2, column 1 of [ab], [cd],
    [ef], replaced by [X]: the text [ab\ncd\nef] becomes [aXf]. *)
Lemma replace_range_splices_text_witness :
  let ed := {| buffer := [lit "ab"; lit "cd"; lit "ef"]; diagnostics := [];
               matches := [] |} in
  let ed' := {| buffer := [lit "aXf"]; diagnostics := []; matches := [] |} in
  let s := mkPosition 0 1 in
  let e := mkPosition 2 1 in
  exists first last current,
    index (buffer ed) (pos_line s) = Some first
    /\ index (buffer ed) (pos_line e) = Some last
    /\ range_text (buffer ed) s e = Some current
    /\ (forall t, None = Some t -> t = current)
    /\ let before :=
         join [10] (slice_to (pos_line s) (buffer ed) ++ [slice_to (pos_col s) first]) in
       let after :=
         join [10] ([slice_from (pos_col e) last]
                    ++ slice_from (pos_line e + 1) (buffer ed)) in
       join [10] (buffer ed) = before ++ current ++ after
       /\ join [10] (buffer ed') = before ++ lit "X" ++ after.
Proof.
  intros ed ed' s e.
  apply (replace_range_splices_text ed ed' s e (lit "X") None).
  - vm_compute. reflexivity.
  - simpl. lia.
  - simpl. lia.
Defined.

(* ===================================================================== *)
(** ** The section index *)
(* ===================================================================== *)

Lemma hex_of_word_shape (w : Z) :
  length (Sha256.hex_of_word w) = 8%nat
  /\ forallb is_lower_hex (Sha256.hex_of_word w) = true.
Proof.
  split; [reflexivity|].
  unfold Sha256.hex_of_word. apply forallb_forall. intros c Hc.
  apply in_map_iff in Hc as (k & <- & _).
  unfold Sha256.hex_digit, is_lower_hex.
  pose proof (Z.mod_pos_bound (Z.shiftr w (4 * Z.of_nat (7 - k))) 16 ltac:(lia)).
  destruct (Z.ltb_spec (Z.shiftr w (4 * Z.of_nat (7 - k)) mod 16) 10);
    apply orb_true_iff; [left|right]; apply andb_true_iff; lia.
Qed.

Lemma step_length (st : list Z) (kw : Z * Z) :
  length (Sha256.step st kw) = length st.
Proof.
  unfold Sha256.step.
  do 8 (destruct st as [|? st]; [reflexivity|]). destruct st; reflexivity.
Qed.

Lemma compress_length (h block : list Z) :
  length (Sha256.compress h block) = length h.
Proof.
  unfold Sha256.compress. rewrite length_map, length_combine.
  assert (forall kws st, length (fold_left Sha256.step kws st) = length st) as Hf.
  { induction kws as [|kw kws IH]; intros st; simpl; [done|].
    by rewrite IH, step_length. }
  rewrite Hf. lia.
Qed.

Lemma digest_words_length (msg : list Z) : length (Sha256.digest_words msg) = 8%nat.
Proof.
  unfold Sha256.digest_words.
  assert (forall bs h, length (fold_left Sha256.compress bs h) = length h) as Hf.
  { induction bs as [|b bs IH]; intros h; simpl; [done|].
    by rewrite IH, compress_length. }
  by rewrite Hf.
Qed.

Lemma hex_words_shape (ws : list Z) :
  length (concat (map Sha256.hex_of_word ws)) = (8 * length ws)%nat
  /\ forallb is_lower_hex (concat (map Sha256.hex_of_word ws)) = true.
Proof.
  induction ws as [|w ws [IHlen IHhex]]; [done|].
  cbn [map concat]. rewrite length_app, forallb_app, IHlen, IHhex.
  destruct (hex_of_word_shape w) as [-> ->]. cbn [length]. split; [lia|done].
Qed.

Lemma hexdigest_shape (bs : bytes) :
  len (Sha256.hexdigest bs) = 64
  /\ forallb is_lower_hex (Sha256.hexdigest bs) = true.
Proof.
  unfold Sha256.hexdigest, len.
  destruct (hex_words_shape (Sha256.digest_words (map b2z bs))) as [-> ->].
  rewrite digest_words_length. done.
Qed.

Lemma slice_to_forallb {A} (p : A -> bool) (k : Z) (l : list A) :
  forallb p l = true -> forallb p (slice_to k l) = true.
Proof.
  intros Hl. rewrite <- (slice_to_from k l) in Hl.
  rewrite forallb_app in Hl. by apply andb_true_iff in Hl as [? _].
Qed.

Section SectionIndex.

Context (H : Host).

Lemma close_heading_inv (rest : list StackEntry) (top : StackEntry) (last : Z)
    (s : Section) :
  close_heading H rest top last = Some s ->
  well_formed H s /\ start_line s = snd top /\ end_line s = last.
Proof.
  destruct top as [[lvl text] line]. unfold close_heading.
  destruct (create_section_id _ _) as [sid|] eqn:Hsid; [|done].
  intros [= <-]. unfold well_formed. simpl.
  repeat split; try done. by destruct (rev _).
Qed.

Lemma close_sections_inv (lvl line : Z) (stack stack' : list StackEntry)
    (secs secs' : list Section) :
  close_sections H lvl line stack secs = Some (stack', secs') ->
  (Forall (well_formed H) secs -> Forall (well_formed H) secs')
  /\ map start_line secs' ++ map snd stack' ≡ₚ map start_line secs ++ map snd stack.
Proof.
  revert secs. induction stack as [|top rest IH]; intros secs; simpl.
  - intros [= <- <-]. done.
  - destruct (fst (fst top) >=? lvl).
    + destruct (close_heading H rest top (line - 1)) as [s|] eqn:Hs; [|done].
      apply close_heading_inv in Hs as (Hwf & Hstart & _).
      intros Hc. apply IH in Hc as [Hall Hperm]. split.
      * intros Hsecs. apply Hall, Forall_app. split; [done|]. by constructor.
      * rewrite Hperm, map_app, <- app_assoc. simpl. by rewrite Hstart.
    + intros [= <- <-]. done.
Qed.

Lemma close_remaining_inv (last : Z) (stack : list StackEntry)
    (secs secs' : list Section) :
  close_remaining H last stack secs = Some secs' ->
  (Forall (well_formed H) secs -> Forall (well_formed H) secs')
  /\ map start_line secs' ≡ₚ map start_line secs ++ map snd stack.
Proof.
  revert secs. induction stack as [|top rest IH]; intros secs; simpl.
  - intros [= <-]. by rewrite app_nil_r.
  - destruct (close_heading H rest top last) as [s|] eqn:Hs; [|done].
    apply close_heading_inv in Hs as (Hwf & Hstart & _).
    intros Hc. apply IH in Hc as [Hall Hperm]. split.
    + intros Hsecs. apply Hall, Forall_app. split; [done|]. by constructor.
    + rewrite Hperm, map_app, <- app_assoc. simpl. by rewrite Hstart.
Qed.

Lemma parse_tokens_inv (toks : list Token) (st st' : ParseState) :
  parse_tokens H toks st = Some st' ->
  (Forall (well_formed H) (ps_sections st) -> Forall (well_formed H) (ps_sections st'))
  /\ map start_line (ps_sections st') ++ map snd (ps_stack st')
     ≡ₚ (map start_line (ps_sections st) ++ map snd (ps_stack st)) ++ heading_lines toks.
Proof.
  revert st. induction toks as [|tok rest IH]; intros st.
  - simpl. intros [= <-]. by rewrite app_nil_r.
  - destruct tok as [lvl mp|text|mp info|mp|]; cbn [parse_tokens heading_lines].
    + destruct rest as [|[?|text|?|?|] rest']; try (by apply IH).
      destruct (close_sections H lvl _ (ps_stack st) (ps_sections st))
        as [[stack' secs']|] eqn:Hclose; [|done].
      apply close_sections_inv in Hclose as [Hall Hperm].
      intros Hp. apply IH in Hp as [Hall' Hperm']. simpl in Hall', Hperm'.
      split; [by auto|].
      rewrite Hperm'. rewrite <- Hperm. cbn [heading_lines].
      generalize (match mp with Some (a, _) => a | None => 0 end). intros x.
      rewrite <- !app_assoc. apply Permutation_app_head.
      simpl. apply Permutation_middle.
    + by apply IH.
    + destruct mp as [[a b]|]; [|by apply IH].
      destruct info as [|c info].
      * intros Hp. by apply IH in Hp.
      * destruct (first_word (c :: info)); [|done].
        intros Hp. by apply IH in Hp.
    + destruct mp as [[a b]|]; [|by apply IH].
      intros Hp. by apply IH in Hp.
    + by apply IH.
Qed.

(** X15.  The section list is an index of the headings.  For every file that
    loads, there is one section for each heading of the token stream, its
    [start_line] being the line of the heading: the start lines of the
    list are the heading lines, up to their order, which is not stated
    here and need not be the order of the document.  And every section has
    its heading on its first line, a path that is not empty, the
    normalised path as canonical path and the identifier computed from
    its path and first line. *)
Theorem sections_index_the_headings (fs : FileSystem) (path : string)
    (doc : Document H) :
  load H fs path = Some doc ->
  map start_line (sections doc) ≡ₚ heading_lines (md_parse H (content doc))
  /\ length (sections doc) = length (heading_lines (md_parse H (content doc)))
  /\ Forall (well_formed H) (sections doc).
Proof.
  unfold load. intros Hl.
  destruct (fs !! path) as [raw|]; [|done].
  destruct (detect_encoding raw) as [[enc text]|]; [|done].
  destruct (detect_eol text) as [e ls].
  unfold parse_structure in Hl.
  destruct (parse_tokens H (md_parse H text) (mkParseState [] [] [] []))
    as [st|] eqn:Hp; [|done].
  destruct (close_remaining H (len ls - 1) (ps_stack st) (ps_sections st))
    as [secs|] eqn:Hc; [|done].
  injection Hl as <-. simpl.
  apply parse_tokens_inv in Hp as [Hall Hperm]. simpl in Hall, Hperm.
  apply close_remaining_inv in Hc as [Hall' Hperm'].
  assert (map start_line secs ≡ₚ heading_lines (md_parse H text)) as Hheads.
  { by rewrite Hperm', Hperm. }
  split; [done|]. split.
  - apply Permutation_length in Hheads. by rewrite length_map in Hheads.
  - apply Hall', Hall. constructor.
Qed.

(** X16.  The hashes and the identifiers.  The [sha256] of a loaded document
    has 64 lower-case hexadecimal digits, and the identifier of each of
    its sections has 16. *)
Theorem hashes_and_ids_are_hex (fs : FileSystem) (path : string) (doc : Document H) :
  load H fs path = Some doc ->
  (len (sha256 doc) = 64 /\ forallb is_lower_hex (sha256 doc) = true)
  /\ forall s, s ∈ sections doc ->
       len (section_id s) = 16 /\ forallb is_lower_hex (section_id s) = true.
Proof.
  intros Hl. split.
  - apply load_inv in Hl as (raw & _ & _ & _ & -> & _). apply hexdigest_shape.
  - assert (Forall (well_formed H) (sections doc)) as Hall.
    { unfold load in Hl.
      destruct (fs !! path) as [raw|]; [|done].
      destruct (detect_encoding raw) as [[enc text]|]; [|done].
      destruct (detect_eol text) as [e ls].
      unfold parse_structure in Hl.
      destruct (parse_tokens H (md_parse H text) (mkParseState [] [] [] []))
        as [st|] eqn:Hp; [|done].
      destruct (close_remaining H (len ls - 1) (ps_stack st) (ps_sections st))
        as [secs|] eqn:Hc; [|done].
      injection Hl as <-. simpl.
      apply parse_tokens_inv in Hp as [Hall _].
      apply close_remaining_inv in Hc as [Hall' _].
      apply Hall', Hall. constructor. }
    intros s Hs. rewrite Forall_forall in Hall.
    destruct (Hall s Hs) as (_ & _ & _ & Hid).
    unfold create_section_id in Hid.
    destruct (encode_utf8 _) as [bs|]; [|done]. injection Hid as <-.
    destruct (hexdigest_shape bs) as [Hlen Hhex]. split.
    + rewrite slice_to_take by lia. unfold len in *. rewrite length_take. lia.
    + by apply slice_to_forallb.
Qed.

End SectionIndex.

(** The file [# Intro], [old], [## Sub], [x] has two headings, on lines 0
    and 2; in the section list [Sub] comes first. *)
Lemma sections_index_the_headings_witness :
  map start_line (sections intro_doc) = [2; 0]
  /\ heading_lines (md_parse host (content intro_doc)) = [0; 2]
  /\ Forall (well_formed host) (sections intro_doc).
Proof.
  split; [vm_compute; reflexivity|]. split; [vm_compute; reflexivity|].
  refine (proj2 (proj2 (sections_index_the_headings host intro_fs "a.md" intro_doc _))).
  vm_compute. reflexivity.
Defined.

(** The hash of the same file, and the identifiers of its two sections. *)
Lemma hashes_and_ids_are_hex_witness :
  len (sha256 intro_doc) = 64
  /\ forallb is_lower_hex (sha256 intro_doc) = true.
Proof.
  refine (proj1 (hashes_and_ids_are_hex host intro_fs "a.md" intro_doc _)).
  vm_compute. reflexivity.
Defined.

(* ===================================================================== *)
(** ** [normalize_heading] *)
(* ===================================================================== *)

Lemma strip_inline_code_filter (P : Z -> Prop) `{!forall c, Decision (P c)}
    (s : str) (inside : option str) :
  ~ P 96 ->
  filter P (strip_inline_code s inside)
  = filter P (match inside with None => [] | Some acc => rev acc end ++ s).
Proof.
  intros H96. revert inside. induction s as [|c r IH]; intros inside.
  - destruct inside as [acc|]; simpl; [|done].
    rewrite filter_cons_False by done. by rewrite app_nil_r.
  - destruct inside as [acc|]; simpl.
    + destruct (Z.eqb_spec c 96) as [->|Hc].
      * destruct acc as [|a acc].
        -- rewrite filter_cons_False by done. rewrite IH. simpl.
           by rewrite filter_cons_False by done.
        -- rewrite !filter_app, IH. simpl.
           by rewrite (filter_cons_False _ 96) by done.
      * rewrite IH. simpl. by rewrite <- app_assoc.
    + destruct (Z.eqb_spec c 96) as [->|Hc].
      * rewrite IH. simpl. by rewrite filter_cons_False by done.
      * rewrite !filter_cons, IH. done.
Qed.

Section Headings.

Context (H : Host).

(** X17.  What [normalize_heading] comes down to.  The back-tick not being a
    word character (it is none for Python's [\w]), the first substitution
    has no effect of its own: the canonical form is the text with only its
    word characters other than [_], its white space and its hyphens kept,
    white space collapsed, in lower case and stripped.  So back-ticks, [*],
    [_] and [~] never matter: a heading matches the same paths with and
    without them. *)
Theorem normalize_heading_ignores_marks (text : str) :
  unicode_word H 96 = false ->
  normalize_heading H text
  = strip (unicode_lower H (collapse_whitespace (filter (kept H) text) false))
  /\ normalize_heading H
       (filter (fun c => negb (c =? 96) && negb (is_emphasis c)) text)
     = normalize_heading H text.
Proof.
  intros H96.
  assert (forall t, normalize_heading H t
            = strip (unicode_lower H (collapse_whitespace (filter (kept H) t) false)))
    as Hnorm.
  { intros t. unfold normalize_heading. cbv zeta. do 3 f_equal.
    rewrite list_filter_filter.
    rewrite strip_inline_code_filter.
    - simpl. apply list_filter_iff. intros c. unfold kept.
      rewrite andb_True. tauto.
    - rewrite H96. simpl. tauto. }
  split; [apply Hnorm|].
  rewrite !Hnorm. do 3 f_equal.
  rewrite list_filter_filter. apply list_filter_iff. intros c. unfold kept.
  rewrite !andb_True. split; [tauto|]. intros Hk. split; [done|].
  destruct Hk as [Hemph Hword]. split; [|done].
  destruct (Z.eqb_spec c 96) as [->|]; [|done].
  rewrite H96 in Hword. done.
Qed.

End Headings.

(** The heading [**Setup** `x`] has the canonical form [setup x]. *)
Lemma normalize_heading_ignores_marks_witness :
  normalize_heading host (lit "**Setup** `x`") = lit "setup x"
  /\ normalize_heading host
       (filter (fun c => negb (c =? 96) && negb (is_emphasis c)) (lit "**Setup** `x`"))
     = normalize_heading host (lit "**Setup** `x`").
Proof.
  split; [vm_compute; reflexivity|].
  refine (proj2 (normalize_heading_ignores_marks host (lit "**Setup** `x`") _)).
  reflexivity.
Defined.

(* ===================================================================== *)
(** ** The front matter *)
(* ===================================================================== *)

Lemma find_closing_inv (ls : list str) (i0 : Z) (fuel : nat) (k : Z) :
  find_closing ls i0 fuel = Some k ->
  i0 <= k < i0 + Z.of_nat fuel
  /\ (exists l, ls !! Z.to_nat (k - i0) = Some l /\ strip l = lit "---")
  /\ forall j l, (j < Z.to_nat (k - i0))%nat -> ls !! j = Some l -> strip l <> lit "---".
Proof.
  revert ls i0. induction fuel as [|fuel IH]; intros ls i0;
    destruct ls as [|l ls]; simpl; try done.
  destruct (str_eqb (strip l) (lit "---")) eqn:E.
  - intros [= <-]. rewrite Z.sub_diag. simpl. split; [lia|]. split.
    + exists l. split; [done|]. by apply str_eqb_eq.
    + intros j l' Hj. lia.
  - intros Hk. apply IH in Hk as (Hr & (l' & Hl' & Hs) & Hbefore).
    replace (Z.to_nat (k - i0)) with (S (Z.to_nat (k - (i0 + 1)))) by lia.
    split; [lia|]. split.
    + exists l'. done.
    + intros [|j] l''; simpl.
      * intros _ [= <-]. by apply str_eqb_neq.
      * intros Hj. apply Hbefore. lia.
Qed.

Lemma split_crlf_not_cr (c : Z) (r : str) :
  c <> 13 -> split_crlf (c :: r) = push_head c (split_crlf r).
Proof.
  intros Hc. destruct r as [|d r]; [reflexivity|].
  rewrite split_crlf_step.
  replace (c =? 13) with false by (symmetry; by apply Z.eqb_neq). reflexivity.
Qed.

Lemma startswith_cons_inv (a : Z) (p s : str) :
  startswith (a :: p) s = true -> exists s', s = a :: s' /\ startswith p s' = true.
Proof.
  destruct s as [|b s']; simpl; [done|].
  intros [Hab Hp]%andb_true_iff. apply Z.eqb_eq in Hab as <-. eauto.
Qed.

(** The first line of a text that starts with [---] and a line ending. *)
Lemma front_matter_first_line (text : str) (e : Eol) (ls : list str) :
  startswith (lit "---" ++ [10]) text || startswith (lit "---" ++ [13; 10]) text = true ->
  detect_eol text = (e, ls) ->
  (exists rest, ls = lit "---" :: rest)
  \/ exists l0 rest, ls = l0 :: rest /\ l0 <> lit "---" /\ l0 <> lit "---" ++ [13].
Proof.
  intros [Hs|Hs]%orb_true_iff.
  - apply startswith_cons_inv in Hs as (s1 & -> & Hs).
    apply startswith_cons_inv in Hs as (s2 & -> & Hs).
    apply startswith_cons_inv in Hs as (s3 & -> & Hs).
    apply startswith_cons_inv in Hs as (r & -> & _).
    unfold detect_eol. destruct (contains [13; 10] _).
    + intros [= <- <-]. right.
      change (exists l0 rest,
                split_crlf (45 :: 45 :: 45 :: 10 :: r) = l0 :: rest
                /\ l0 <> lit "---" /\ l0 <> lit "---" ++ [13]).
      rewrite !split_crlf_not_cr by done.
      destruct (push_head_cases 10 (split_crlf r) (split_crlf_nonempty r))
        as (l & rest & _ & ->).
      exists (lit "---" ++ 10 :: l), rest. done.
    + intros [= <- <-]. left.
      change (exists rest, split_lf (45 :: 45 :: 45 :: 10 :: r) = lit "---" :: rest).
      exists (split_lf r). reflexivity.
  - apply startswith_cons_inv in Hs as (s1 & -> & Hs).
    apply startswith_cons_inv in Hs as (s2 & -> & Hs).
    apply startswith_cons_inv in Hs as (s3 & -> & Hs).
    apply startswith_cons_inv in Hs as (s4 & -> & Hs).
    apply startswith_cons_inv in Hs as (r & -> & _).
    unfold detect_eol.
    replace (contains [13; 10] (lit "---" ++ 13 :: 10 :: r)) with true by reflexivity.
    intros [= <- <-]. left.
    change (exists rest,
              split_crlf (45 :: 45 :: 45 :: 13 :: 10 :: r) = lit "---" :: rest).
    exists (split_crlf r). reflexivity.
Qed.

Lemma index_cons_succ {A} (x : A) (l : list A) (j : Z) :
  1 <= j -> index (x :: l) j = index l (j - 1).
Proof.
  intros Hj. unfold index. rewrite len_cons.
  destruct (Z.ltb_spec j 0); [lia|]. destruct (Z.ltb_spec (j - 1) 0); [lia|].
  destruct (Z.leb_spec 0 j); [|lia]. destruct (Z.leb_spec 0 (j - 1)); [|lia].
  destruct (Z.ltb_spec j (1 + len l)), (Z.ltb_spec (j - 1) (len l)); try lia; [|done].
  simpl. replace (Z.to_nat j) with (S (Z.to_nat (j - 1))) by lia. done.
Qed.

Section FrontMatter.

Context (H : Host).

(** X18.  Where the front matter is.  A document has front matter only when
    the YAML library is there, and then it starts on line 0, which is
    exactly [---], and ends on the first line among the lines 1 to 49
    that is [---] once stripped: a block that closes later than line 49
    is no front matter.  The value recorded is what [yaml.safe_load] makes
    of the lines in between, joined with line feeds.  Without the line
    range no value is recorded. *)
Theorem front_matter_is_bounded (fs : FileSystem) (path : string) (doc : Document H) :
  load H fs path = Some doc ->
  (front_matter_lines doc = None -> front_matter doc = None)
  /\ forall a i,
       front_matter_lines doc = Some (a, i) ->
       yaml_available H = true
       /\ a = 0 /\ 1 <= i <= 49 /\ i < len (lines doc)
       /\ index (lines doc) 0 = Some (lit "---")
       /\ (exists l, index (lines doc) i = Some l /\ strip l = lit "---")
       /\ (forall j l, 1 <= j < i -> index (lines doc) j = Some l ->
             strip l <> lit "---")
       /\ yaml_safe_load H (join [10] (slice_between 1 i (lines doc)))
          = Some (front_matter doc).
Proof.
  intros Hl.
  destruct (load_inv H fs path doc Hl) as (_ & _ & _ & Heol & _).
  assert (front_matter doc
          = fst (if startswith (lit "---" ++ [10]) (content doc)
                    || startswith (lit "---" ++ [13; 10]) (content doc)
                 then extract_front_matter H (lines doc) else (None, None))
          /\ front_matter_lines doc
             = snd (if startswith (lit "---" ++ [10]) (content doc)
                       || startswith (lit "---" ++ [13; 10]) (content doc)
                    then extract_front_matter H (lines doc) else (None, None)))
    as [-> ->].
  { clear Heol. unfold load in Hl.
    destruct (fs !! path) as [raw|]; [|done].
    destruct (detect_encoding raw) as [[enc text]|]; [|done].
    destruct (detect_eol text) as [e ls].
    unfold parse_structure in Hl.
    destruct (parse_tokens H (md_parse H text) (mkParseState [] [] [] []))
      as [st|]; [|done].
    destruct (close_remaining H (len ls - 1) (ps_stack st) (ps_sections st)); [|done].
    injection Hl as <-. split; reflexivity. }
  destruct (startswith (lit "---" ++ [10]) (content doc)
            || startswith (lit "---" ++ [13; 10]) (content doc)) eqn:Hstart.
  2:{ cbn [fst snd]. split; [done|]. intros a i [=]. }
  destruct (front_matter_first_line _ _ _ Hstart Heol)
    as [(rest & ->)|(l0 & rest & -> & Hne1 & Hne2)].
  2:{ unfold extract_front_matter.
      destruct (negb (yaml_available H)); cbn [fst snd].
      { split; [done|]. intros a i [=]. }
      rewrite (proj2 (str_eqb_neq l0 (lit "---"))) by done.
      rewrite (proj2 (str_eqb_neq l0 (lit "---" ++ [13]))) by done.
      cbn [orb negb fst snd]. split; [done|]. intros a i [=]. }
  unfold extract_front_matter.
  destruct (yaml_available H); cbn [negb fst snd].
  2:{ split; [done|]. intros a i [=]. }
  rewrite str_eqb_refl. cbn [orb negb].
  destruct (find_closing rest 1 49) as [k|] eqn:Hk; cbn [fst snd].
  2:{ split; [done|]. intros a i [=]. }
  destruct (yaml_safe_load H (join [10] (slice_between 1 k (lit "---" :: rest))))
    as [v|] eqn:Hv; cbn [fst snd].
  2:{ split; [done|]. intros a i [=]. }
  split; [done|]. intros a i [= <- <-].
  apply find_closing_inv in Hk as (Hr & (l & Hl' & Hs) & Hbefore).
  split; [done|]. split; [done|]. split; [lia|].
  assert (Z.to_nat (k - 1) < length rest)%nat as Hlen by (by eapply lookup_lt_Some).
  split; [rewrite len_cons; unfold len; lia|].
  split; [done|]. split.
  - exists l. split; [|done].
    rewrite index_cons_succ by lia. rewrite index_in_range by (unfold len; lia). done.
  - split; [|done]. intros j l' Hj. rewrite index_cons_succ by lia.
    intros Hj'. apply index_Some_nonneg in Hj' as [_ Hj']; [|lia].
    apply (Hbefore (Z.to_nat (j - 1)) l'); [lia|done].
Qed.

End FrontMatter.

(** The file [---], [title: x], [---], [# A]: the front matter is the
    lines 0 to 2. *)
Lemma front_matter_is_bounded_witness :
  front_matter_lines YamlHost.titled_doc = Some (0, 2)
  /\ 1 <= 2 <= 49
  /\ index (lines YamlHost.titled_doc) 0 = Some (lit "---")
  /\ front_matter YamlHost.titled_doc
     = Some (YamlHost.YMap [(lit "title", lit "x")]).
Proof.
  assert (load YamlHost.host YamlHost.titled_fs "a.md" = Some YamlHost.titled_doc)
    as Hload by (vm_compute; reflexivity).
  destruct (front_matter_is_bounded YamlHost.host YamlHost.titled_fs "a.md"
              YamlHost.titled_doc Hload) as [_ Hfm].
  destruct (Hfm 0 2 eq_refl) as (_ & _ & Hi & _ & Hfirst & _).
  split; [reflexivity|]. split; [exact Hi|]. split; [exact Hfirst|]. reflexivity.
Defined.

(* ===================================================================== *)
(** ** [update_front_matter] *)
(* ===================================================================== *)

Lemma dict_get_set {V} (k k' : str) (v : V) (d : list (str * V)) :
  dict_get k' (dict_set k v d) = if str_eqb k k' then Some v else dict_get k' d.
Proof.
  unfold dict_get. induction d as [|[k0 v0] d IH]; simpl.
  - by destruct (str_eqb k k').
  - destruct (str_eqb k0 k) eqn:E0; simpl.
    + apply str_eqb_eq in E0 as ->. by destruct (str_eqb k k').
    + destruct (str_eqb k0 k') eqn:E1; simpl.
      * apply str_eqb_eq in E1 as ->.
        rewrite (proj2 (str_eqb_neq k k')); [done|].
        apply str_eqb_neq in E0. congruence.
      * exact IH.
Qed.

Lemma dict_get_pop {V} (k k' : str) (d : list (str * V)) :
  dict_get k' (dict_pop k d) = if str_eqb k k' then None else dict_get k' d.
Proof.
  unfold dict_get, dict_pop. induction d as [|[k0 v0] d IH]; simpl.
  - by destruct (str_eqb k k').
  - destruct (str_eqb k0 k) eqn:E0; simpl.
    + apply str_eqb_eq in E0 as ->. rewrite IH. by destruct (str_eqb k k').
    + destruct (str_eqb k0 k') eqn:E1; simpl; [|exact IH].
      apply str_eqb_eq in E1 as ->.
      rewrite (proj2 (str_eqb_neq k k')); [done|].
      apply str_eqb_neq in E0. congruence.
Qed.

Lemma dict_get_cons {V} (k k0 : str) (v0 : V) (d : list (str * V)) :
  dict_get k ((k0, v0) :: d) = if str_eqb k0 k then Some v0 else dict_get k d.
Proof. unfold dict_get. cbn [List.find fst]. by destruct (str_eqb k0 k). Qed.

Lemma dict_get_set_all {V} (k : str) (sets d : list (str * V)) :
  dict_get k (fold_left (fun d kv => dict_set (fst kv) (snd kv) d) sets d)
  = match dict_get k (rev sets) with
    | Some v => Some v
    | None => dict_get k d
    end.
Proof.
  revert d. induction sets as [|[k0 v0] sets IH] using rev_ind; intros d; [done|].
  rewrite fold_left_app, rev_app_distr.
  cbn [fold_left rev app fst snd].
  rewrite dict_get_set, dict_get_cons, IH.
  destruct (str_eqb k0 k); done.
Qed.

Lemma dict_get_pop_all {V} (k : str) (keys : list str) (d : list (str * V)) :
  dict_get k (fold_left (fun d k => dict_pop k d) keys d)
  = if existsb (fun k' => str_eqb k' k) keys then None else dict_get k d.
Proof.
  revert d. induction keys as [|k0 keys IH]; intros d; simpl; [done|].
  rewrite IH, dict_get_pop.
  destruct (str_eqb k0 k); simpl; [by destruct (existsb _ keys)|done].
Qed.

Section UpdateFrontMatter.

Context (H : Host).

(** X19.  [update_front_matter], when the YAML library is there and the front
    matter of the document is a mapping (or there is none): the edit
    succeeds and writes [---], the dump of a mapping and [---], in place
    of the lines of the old front matter, or before the whole buffer and
    a blank line when there was none.  In the mapping that is dumped, a
    key that is removed is absent, even when it is set by the same edit;
    otherwise a key that is set has its new value, and any other key the
    value it had in the document.  The old mapping and the old line range
    are those of the document as loaded, not of the buffer. *)
Theorem update_front_matter_sets_then_removes (doc : Document H) (ed : Editor)
    (set_values : list (str * yaml_value H)) (remove_keys : list str)
    (old : list (str * yaml_value H)) :
  yaml_available H = true ->
  match front_matter doc with
  | Some v => if yaml_truthy H v then yaml_as_dict H v else Some []
  | None => Some []
  end = Some old ->
  exists fm,
    apply_update_front_matter H doc ed set_values remove_keys
    = Some (true,
            set_buffer ed
              ([lit "---"] ++ split_lf (rstrip_nl (yaml_dump H fm))
               ++ match front_matter_lines doc with
                  | Some (_, last) => [lit "---"] ++ slice_from (last + 1) (buffer ed)
                  | None => [lit "---"; []] ++ buffer ed
                  end))
    /\ forall k,
         dict_get k fm
         = if existsb (fun k' => str_eqb k' k) remove_keys then None
           else match dict_get k (rev set_values) with
                | Some v => Some v
                | None => dict_get k old
                end.
Proof.
  intros Hyaml Hold. unfold apply_update_front_matter.
  rewrite Hyaml, Hold. cbn [negb mbind option_bind].
  eexists. split.
  - destruct (front_matter_lines doc) as [[a last]|]; reflexivity.
  - intros k. by rewrite dict_get_pop_all, dict_get_set_all.
Qed.

End UpdateFrontMatter.

(** On the file [---], [title: x], [---], [# A]: set [author] and remove
    [title]. *)
Lemma update_front_matter_witness :
  exists fm,
    apply_update_front_matter YamlHost.host YamlHost.titled_doc
      (new_editor YamlHost.titled_doc)
      [(lit "author", YamlHost.YStr (lit "me"))] [lit "title"]
    = Some (true,
            set_buffer (new_editor YamlHost.titled_doc)
              ([lit "---"] ++ split_lf (rstrip_nl (YamlHost.dump fm))
               ++ [lit "---"] ++ [lit "# A"; []]))
    /\ dict_get (lit "title") fm = None
    /\ dict_get (lit "author") fm = Some (YamlHost.YStr (lit "me")).
Proof.
  destruct (update_front_matter_sets_then_removes YamlHost.host YamlHost.titled_doc
              (new_editor YamlHost.titled_doc)
              [(lit "author", YamlHost.YStr (lit "me"))] [lit "title"]
              [(lit "title", YamlHost.YStr (lit "x"))])
    as (fm & Happly & Hget).
  - reflexivity.
  - vm_compute. reflexivity.
  - exists fm. split; [exact Happly|]. split.
    + etransitivity; [apply Hget|]. vm_compute. reflexivity.
    + etransitivity; [apply Hget|]. vm_compute. reflexivity.
Defined.

(* ===================================================================== *)
(** ** One call of [md_apply] after another *)
(* ===================================================================== *)

Section Chaining.

Context (H : Host).

(** X20.  The hash [md_apply] returns is the one the next call needs.  After a
    call that succeeds and is no dry run, the file, if it loads, has the
    [contentSha256] of the result as its hash; so a second [md_apply]
    given that hash as [baseSha256] passes the hash check, whatever its
    edits: it never fails with PRECONDITION_FAILED. *)
Theorem apply_result_chains (fs : FileSystem) (path : string) (base_sha256 : str)
    (edits : list (Edit H)) (atomic : bool) (format_mode : str)
    (preserve_eol preserve_encoding ensure_final_newline : bool) :
  let r := md_apply H fs path base_sha256 edits atomic false format_mode
             preserve_eol preserve_encoding ensure_final_newline in
  match fst r with
  | ApplyOk _ sha _ _ _ _ _ =>
      (forall doc', load H (snd r) path = Some doc' -> sha256 doc' = sha)
      /\ forall edits' atomic' dry_run' format_mode' preserve_eol' preserve_encoding'
                ensure_final_newline',
           match fst (md_apply H (snd r) path sha edits' atomic' dry_run' format_mode'
                        preserve_eol' preserve_encoding' ensure_final_newline') with
           | ApplyOk _ _ _ _ _ _ _ => True
           | ApplyFailed _ errorCode _ _ _ => errorCode <> PRECONDITION_FAILED
           end
  | ApplyFailed _ _ _ _ _ => True
  end.
Proof.
  cbv zeta.
  destruct (md_apply H fs path base_sha256 edits atomic false format_mode
              preserve_eol preserve_encoding ensure_final_newline)
    as [res fs'] eqn:Hr.
  cbn [fst snd]. destruct res as [p sha diff n dry ms ds|]; [|done].
  assert (exists new_bytes, fs' = <[path:=new_bytes]> fs
                            /\ sha = Sha256.hexdigest new_bytes)
    as (new_bytes & -> & ->).
  { unfold md_apply in Hr.
    destruct (load H fs path) as [doc|]; [|done].
    destruct (negb (str_eqb (sha256 doc) base_sha256)); [done|].
    destruct (run_edits H doc atomic 0 edits (new_editor doc) 0); [done|done|].
    destruct (format_content _ _ _ _); [|done].
    destruct (encode _ _) as [new_bytes|]; [|done].
    injection Hr as _ <- _ _ _ _ _ <-. by exists new_bytes. }
  assert (forall doc', load H (<[path:=new_bytes]> fs) path = Some doc' ->
                       sha256 doc' = Sha256.hexdigest new_bytes) as Hsha.
  { intros doc' Hl. apply load_inv in Hl as (raw & Hraw & _ & _ & -> & _).
    rewrite lookup_insert_eq in Hraw. by injection Hraw as <-. }
  split; [exact Hsha|]. intros. unfold md_apply.
  destruct (load H (<[path:=new_bytes]> fs) path) as [doc'|] eqn:Hl; [|done].
  rewrite (Hsha doc' eq_refl), str_eqb_refl. cbn [negb].
  destruct (run_edits _ _ _ _ _ _ _); [done|done|].
  destruct (format_content _ _ _ _); [|done].
  destruct (encode _ _); done.
Qed.

End Chaining.
